(** * Plant genetics: a shallow embedding of [plant-genetics.js]

    The development follows the source file top to bottom: the JavaScript
    primitives the module relies on (numbers, strings, plain objects), the
    [GENE_TRAITS] registry, the [Plant] class, the [PlantBreeder] class and
    the helpers [createRandomPlant] and [createStarterPlant].

    Modelling conventions.
    - A JavaScript number is [NaN] or an exact rational; the decimal
      constants of the registry denote their decimal values.  Sums,
      products and quotients are exact: the rounding of IEEE doubles is not
      modelled, and statements about derived numbers are statements about
      the formulas that compute them.  No division by zero and no overflow
      occurs in the module for the inputs considered, so no infinity is
      needed.
    - A string is a [string] of 8-bit code units.
    - A plain object is a list of (key, value) pairs in the order
      [Object.keys] enumerates them.
    - [Math.random] and [new Date] read a [World] that is threaded through
      the methods that use them.
    - A call that raises a [TypeError] is modelled by [None] or [Thrown]. *)

From Stdlib Require Import String Ascii List ZArith QArith Qround Lia Lqa Bool.
From Stdlib Require Import Numbers.DecimalString.
Import ListNotations.

Open Scope string_scope.
Open Scope Z_scope.

(** ** Numbers *)

Module Js.

Inductive Num : Type :=
| NaN
| Fin (q : Q).

Definition lift2 (f : Q -> Q -> Q) (a b : Num) : Num :=
  match a, b with
  | Fin x, Fin y => Fin (f x y)
  | _, _ => NaN
  end.

Definition add := lift2 Qplus.
Definition sub := lift2 Qminus.
Definition mul := lift2 Qmult.
(** Every divisor in the module is a non-zero constant or guarded by
    [|| d] with a non-zero [d]. *)
Definition div := lift2 Qdiv.

(** Comparisons with [NaN] are false. *)
Definition lt (a b : Num) : bool :=
  match a, b with
  | Fin x, Fin y => negb (Qle_bool y x)
  | _, _ => false
  end.

Definition gt (a b : Num) : bool := lt b a.

Definition le (a b : Num) : bool :=
  match a, b with
  | Fin x, Fin y => Qle_bool x y
  | _, _ => false
  end.

Definition ge (a b : Num) : bool := le b a.

(** [Math.min] and [Math.max] propagate [NaN]. *)
Definition min (a b : Num) : Num :=
  match a, b with
  | Fin x, Fin y => if Qle_bool x y then Fin x else Fin y
  | _, _ => NaN
  end.

Definition max (a b : Num) : Num :=
  match a, b with
  | Fin x, Fin y => if Qle_bool x y then Fin y else Fin x
  | _, _ => NaN
  end.

(** [Math.round]: the nearest integer, halves towards plus infinity. *)
Definition round (a : Num) : Num :=
  match a with
  | Fin x => Fin (inject_Z (Qfloor (x + (1 # 2))))
  | NaN => NaN
  end.

(** [Math.floor]. *)
Definition floor (a : Num) : Num :=
  match a with
  | Fin x => Fin (inject_Z (Qfloor x))
  | NaN => NaN
  end.

Definition isNaN (a : Num) : bool :=
  match a with NaN => true | Fin _ => false end.

(** A number is falsy when it is [NaN] or zero. *)
Definition truthy (a : Num) : bool :=
  match a with
  | NaN => false
  | Fin x => negb (Qeq_bool x 0)
  end.

(** [a || b] on numbers. *)
Definition or (a b : Num) : Num := if truthy a then a else b.

Definition of_Z (z : Z) : Num := Fin (inject_Z z).

(** *** Number to string

    Integers print in decimal; a fractional part prints as its decimal
    expansion, cut after twenty digits.  The module prints integers and
    halves only (registry defaults and clamped values); the exponent form
    of very large or very small numbers is not modelled. *)

Definition string_of_Z (z : Z) : string :=
  NilZero.string_of_int (Z.to_int z).

Definition digit_char (d : Z) : ascii :=
  ascii_of_nat (48 + Z.to_nat d).

Fixpoint frac_digits (fuel : nat) (num den : Z) : string :=
  match fuel with
  | O => EmptyString
  | S fuel' =>
      if num =? 0 then EmptyString
      else String (digit_char ((10 * num) / den))
                  (frac_digits fuel' ((10 * num) mod den) den)
  end.

Definition string_of_Q (x : Q) : string :=
  let den := Z.pos (Qden x) in
  let n := Qnum x in
  let a := Z.abs n in
  let ip := a / den in
  let fp := a mod den in
  let sign := if (n <? 0) && negb (a =? 0) then "-" else "" in
  let frac := if fp =? 0 then "" else "." ++ frac_digits 20 fp den in
  sign ++ string_of_Z ip ++ frac.

Definition toString (a : Num) : string :=
  match a with
  | NaN => "NaN"
  | Fin x => string_of_Q x
  end.

(** *** Strings *)

(** [s[i]]: the code unit at index [i], [None] for [undefined]. *)
Definition char_at (s : string) (i : nat) : option ascii := String.get i s.

Definition str1 (c : ascii) : string := String c EmptyString.

(** White space and line terminators below code 256, skipped by
    [parseInt]. *)
Definition is_space (c : ascii) : bool :=
  let n := nat_of_ascii c in
  (Nat.eqb n 9 || Nat.eqb n 10 || Nat.eqb n 11 || Nat.eqb n 12
   || Nat.eqb n 13 || Nat.eqb n 32 || Nat.eqb n 160)%bool.

Definition digit_of (c : ascii) : option Z :=
  let n := nat_of_ascii c in
  if (Nat.leb 48 n && Nat.leb n 57)%bool then Some (Z.of_nat n - 48) else None.

Fixpoint skip_space (s : string) : string :=
  match s with
  | String c r => if is_space c then skip_space r else s
  | EmptyString => EmptyString
  end.

(** The value of the longest prefix of decimal digits, [None] when there
    is none. *)
Fixpoint digits (acc : option Z) (s : string) : option Z :=
  match s with
  | String c r =>
      match digit_of c with
      | Some d =>
          digits (Some (10 * match acc with Some a => a | None => 0 end + d)) r
      | None => acc
      end
  | EmptyString => acc
  end.

(** [parseInt(s, 10)]. *)
Definition parseInt (s : string) : Num :=
  let s := skip_space s in
  let '(neg, s) :=
    match s with
    | String "-" r => (true, r)
    | String "+" r => (false, r)
    | _ => (false, s)
    end in
  match digits None s with
  | Some z => of_Z (if neg then - z else z)
  | None => NaN
  end.

(** [s.split(sep)] for a one-character separator. *)
Fixpoint split (sep : ascii) (s : string) : list string :=
  match s with
  | EmptyString => [EmptyString]
  | String c r =>
      if Ascii.eqb c sep then EmptyString :: split sep r
      else match split sep r with
           | h :: t => String c h :: t
           | [] => [str1 c]
           end
  end.

(** [segments.join(sep)]. *)
Definition join (sep : string) (l : list string) : string :=
  String.concat sep l.

End Js.

(** ** Values and plain objects *)

(** The values a gene slot or a property can hold in this module. *)
Inductive Value : Type :=
| VUndef
| VStr (s : string)
| VNum (n : Js.Num).

Module Val.

Definition truthy (v : Value) : bool :=
  match v with
  | VUndef => false
  | VStr s => negb (String.eqb s "")
  | VNum n => Js.truthy n
  end.

(** String conversion, as a template literal and [parseInt] perform it. *)
Definition toString (v : Value) : string :=
  match v with
  | VUndef => "undefined"
  | VStr s => s
  | VNum n => Js.toString n
  end.

(** [typeof v === 'string' && v.length === n]. *)
Definition is_string_of_length (v : Value) (n : nat) : bool :=
  match v with
  | VStr s => Nat.eqb (String.length s) n
  | _ => false
  end.

(** [v[i]] for a string or a number ([undefined] on a number). *)
Definition index (v : Value) (i : nat) : option ascii :=
  match v with
  | VStr s => Js.char_at s i
  | _ => None
  end.

End Val.

(** An object is the list of its own properties in [Object.keys] order:
    array-index keys first, ascending, then the other keys in insertion
    order. *)
Module Obj.

Definition t (A : Type) : Type := list (string * A).

Section Ops.
Context {A : Type}.

Fixpoint get (o : t A) (k : string) : option A :=
  match o with
  | [] => None
  | (k', v) :: o' => if String.eqb k k' then Some v else get o' k
  end.

Definition has (o : t A) (k : string) : bool :=
  match get o k with Some _ => true | None => false end.

Definition keys (o : t A) : list string := map fst o.

(** A canonical numeric string below 2^32 - 1. *)
Definition array_index (k : string) : option Z :=
  match Js.digits None k with
  | Some n =>
      if (String.eqb (Js.string_of_Z n) k && (n <? 4294967295))%bool
      then Some n else None
  | None => None
  end.

Fixpoint replace (k : string) (v : A) (o : t A) : t A :=
  match o with
  | [] => []
  | (k', v') :: o' =>
      if String.eqb k k' then (k, v) :: o' else (k', v') :: replace k v o'
  end.

Fixpoint insert_index (n : Z) (k : string) (v : A) (o : t A) : t A :=
  match o with
  | [] => [(k, v)]
  | (k', v') :: o' =>
      match array_index k' with
      | Some m =>
          if m <? n then (k', v') :: insert_index n k v o'
          else (k, v) :: o
      | None => (k, v) :: o
      end
  end.

(** [o[k] = v]. *)
Definition set (o : t A) (k : string) (v : A) : t A :=
  if has o k then replace k v o
  else match array_index k with
       | Some n => insert_index n k v o
       | None => (o ++ [(k, v)])%list
       end.

End Ops.

End Obj.

(** Property names every plain object inherits from [Object.prototype]:
    a lookup of one of them on an object literal is truthy although the
    object has no such own property. *)
Definition object_prototype_names : list string :=
  [ "constructor"; "__defineGetter__"; "__defineSetter__"; "hasOwnProperty";
    "__lookupGetter__"; "__lookupSetter__"; "isPrototypeOf";
    "propertyIsEnumerable"; "toString"; "valueOf"; "__proto__";
    "toLocaleString" ].

Definition inherited (k : string) : bool :=
  existsb (String.eqb k) object_prototype_names.

(** ** Gene definition and mapping *)

(** An allele record, or a blend record (which has no [dominance]). *)
Record Allele : Type := mkAllele {
  allele_name : string;
  allele_dominance : option Z;
  allele_value : string
}.

(** An object whose fields are numbers (or [undefined]). *)
Definition Props : Type := Obj.t (option Js.Num).

Module Gene.

Record Qualitative : Type := mkQualitative {
  qual_name : string;
  alleles : Obj.t Allele;
  blendMap : option (Obj.t Allele);
  qual_default : string
}.

Record Quantitative : Type := mkQuantitative {
  quant_name : string;
  min : Q;
  max : Q;
  quant_default : Q;
  valueMap : Obj.t Props
}.

End Gene.

(** A trait definition; the constructor is the [type] field. *)
Inductive Trait : Type :=
| qualitative (g : Gene.Qualitative)
| quantitative (g : Gene.Quantitative).

Definition defaultValue (t : Trait) : Value :=
  match t with
  | qualitative g => VStr (Gene.qual_default g)
  | quantitative g => VNum (Js.Fin (Gene.quant_default g))
  end.

Definition allele (n : string) (d : Z) (v : string) : Allele :=
  mkAllele n (Some d) v.

Definition blend (n v : string) : Allele := mkAllele n None v.

Definition num (q : Q) : option Js.Num := Some (Js.Fin q).

Module Traits.

(** Flower Color *)
Definition FC : Gene.Qualitative :=
  Gene.mkQualitative "Flower Color"
    [ ("R", allele "Red" 2 "#FF5555");
      ("B", allele "Blue" 2 "#5555FF");
      ("Y", allele "Yellow" 2 "#FFFF55");
      ("W", allele "White" 1 "#FFFFFF");
      ("P", allele "Pink" 2 "#FF55FF") ]
    (Some
      [ ("RB", blend "Purple" "#9955FF");
        ("RY", blend "Orange" "#FF9955");
        ("BY", blend "Green" "#55FF55");
        ("RW", blend "Light Red" "#FF9999");
        ("BW", blend "Light Blue" "#9999FF");
        ("YW", blend "Light Yellow" "#FFFF99");
        ("RP", blend "Deep Pink" "#FF5599");
        ("BP", blend "Purple" "#9955FF");
        ("YP", blend "Peach" "#FFAA77") ])
    "WW".

(** Size *)
Definition SZ : Gene.Quantitative :=
  Gene.mkQuantitative "Size" 1 5 3
    [ ("1", [("scale", num 0.7); ("growthModifier", num 1.2); ("waterModifier", num 0.8)]);
      ("2", [("scale", num 0.85); ("growthModifier", num 1.1); ("waterModifier", num 0.9)]);
      ("3", [("scale", num 1.0); ("growthModifier", num 1.0); ("waterModifier", num 1.0)]);
      ("4", [("scale", num 1.15); ("growthModifier", num 0.9); ("waterModifier", num 1.1)]);
      ("5", [("scale", num 1.3); ("growthModifier", num 0.8); ("waterModifier", num 1.2)]) ].

(** Leaf Shape *)
Definition LS : Gene.Qualitative :=
  Gene.mkQualitative "Leaf Shape"
    [ ("1", allele "Oval" 2 "oval");
      ("2", allele "Heart" 2 "heart");
      ("3", allele "Pointed" 2 "pointed") ]
    None
    "11".

(** Branching Pattern *)
Definition BP : Gene.Quantitative :=
  Gene.mkQuantitative "Branching Pattern" 1 3 1
    [ ("1", [("branches", num 1); ("angle", num 0)]);
      ("2", [("branches", num 2); ("angle", num 30)]);
      ("3", [("branches", num 3); ("angle", num 25)]) ].

(** Growth Rate; the literal [1.0] names the key ["1"]. *)
Definition GR : Gene.Quantitative :=
  Gene.mkQuantitative "Growth Rate" 0.5 1.5 1.0
    [ ("0.5", [("daysToMature", num 15)]);
      ("0.7", [("daysToMature", num 12)]);
      ("1", [("daysToMature", num 10)]);
      ("1.2", [("daysToMature", num 8)]);
      ("1.5", [("daysToMature", num 6)]) ].

(** Yield *)
Definition YD : Gene.Quantitative :=
  Gene.mkQuantitative "Yield" 1 5 3
    [ ("1", [("coinMultiplier", num 0.8); ("seedChance", num 0.3)]);
      ("2", [("coinMultiplier", num 0.9); ("seedChance", num 0.4)]);
      ("3", [("coinMultiplier", num 1.0); ("seedChance", num 0.5)]);
      ("4", [("coinMultiplier", num 1.2); ("seedChance", num 0.6)]);
      ("5", [("coinMultiplier", num 1.5); ("seedChance", num 0.7)]) ].

(** Resistance *)
Definition RS : Gene.Quantitative :=
  Gene.mkQuantitative "Resistance" 1 3 2
    [ ("1", [("pestDamageChance", num 0.5); ("weatherDamageChance", num 0.4)]);
      ("2", [("pestDamageChance", num 0.2); ("weatherDamageChance", num 0.2)]);
      ("3", [("pestDamageChance", num 0.05); ("weatherDamageChance", num 0.05)]) ].

(** Water Needs *)
Definition WN : Gene.Quantitative :=
  Gene.mkQuantitative "Water Needs" 1 3 2
    [ ("1", [("waterPerDay", num 10); ("droughtResistance", num 0.7)]);
      ("2", [("waterPerDay", num 20); ("droughtResistance", num 0.5)]);
      ("3", [("waterPerDay", num 30); ("droughtResistance", num 0.3)]) ].

End Traits.

Definition GENE_TRAITS : Obj.t Trait :=
  [ ("FC", qualitative Traits.FC);
    ("SZ", quantitative Traits.SZ);
    ("LS", qualitative Traits.LS);
    ("BP", quantitative Traits.BP);
    ("GR", quantitative Traits.GR);
    ("YD", quantitative Traits.YD);
    ("RS", quantitative Traits.RS);
    ("WN", quantitative Traits.WN) ].

(** The three outcomes of [GENE_TRAITS[key]]: an own entry, a truthy
    value inherited from the prototype, or [undefined]. *)
Inductive Lookup : Type :=
| Own (t : Trait)
| Proto
| Absent.

Definition lookup_trait (key : string) : Lookup :=
  match Obj.get GENE_TRAITS key with
  | Some t => Own t
  | None => if inherited key then Proto else Absent
  end.

(** ** The random source and the clock *)

(** A draw [(n, d)] stands for the number [(n mod d) / d] of the interval
    [0, 1), the range of [Math.random]. *)
Record World : Type := mkWorld {
  draws : nat -> Z * positive;
  cursor : nat;
  clock : Z
}.

Definition Rand (A : Type) : Type := World -> A * World.

Definition ret {A : Type} (a : A) : Rand A := fun w => (a, w).

Definition bind {A B : Type} (m : Rand A) (k : A -> Rand B) : Rand B :=
  fun w => let '(a, w') := m w in k a w'.

Notation "x <- m ;; k" := (bind m (fun x => k))
  (at level 61, m at next level, right associativity).

Definition draw_value (d : Z * positive) : Q :=
  (fst d mod Z.pos (snd d)) # snd d.

(** [Math.random()]. *)
Definition random : Rand Js.Num :=
  fun w => (Js.Fin (draw_value (draws w (cursor w))),
            mkWorld (draws w) (S (cursor w)) (clock w)).

(** [new Date()]. *)
Definition new_Date : Rand Z := fun w => (clock w, w).

(** ** Plant class *)

(** A resolved trait: [undefined], an allele or blend record of the
    registry, or a fresh object of numeric fields. *)
Inductive Pheno : Type :=
| PhUndefined
| PhAllele (a : Allele)
| PhQuant (o : Props).

Definition Phenotype : Type := Obj.t Pheno.

Record Plant : Type := mkPlant {
  genes : Obj.t Value;
  phenotype : Phenotype;
  progress : Js.Num;
  health : Js.Num;
  ready : bool;
  watered : bool
}.

(** [genes[key]], [undefined] when the key is absent. *)
Definition gene_at (genes : Obj.t Value) (key : string) : Value :=
  match Obj.get genes key with
  | Some v => v
  | None => VUndef
  end.

(** The body of the [forEach] over the segments. *)
Definition parse_segment (genes : Obj.t Value) (segment : string)
  : Obj.t Value :=
  let parts := Js.split ":" segment in
  let geneKey := match parts with k :: _ => k | [] => "undefined" end in
  let value := match parts with _ :: v :: _ => VStr v | _ => VUndef end in
  match lookup_trait geneKey with
  | Absent => Obj.set genes geneKey (VStr "00")
  | Proto =>
      (* assigning a primitive to [__proto__] leaves the object as it is *)
      if String.eqb geneKey "__proto__" then genes
      else Obj.set genes geneKey value
  | Own _ => Obj.set genes geneKey value
  end.

(** The body of the [forEach] that fills in missing genes. *)
Definition fill_missing (genes : Obj.t Value) (entry : string * Trait)
  : Obj.t Value :=
  let '(key, trait) := entry in
  if Val.truthy (gene_at genes key) then genes
  else Obj.set genes key (defaultValue trait).

Definition parseGeneSequence (sequence : string) : Obj.t Value :=
  let geneSegments := Js.split "-" sequence in
  let genes := fold_left parse_segment geneSegments [] in
  fold_left fill_missing GENE_TRAITS genes.

Definition segment_of (key : string) (v : Value) : string :=
  key ++ ":" ++ Val.toString v.

Definition generateDefaultGeneSequence : string :=
  Js.join "-"
    (map (fun e : string * Trait => segment_of (fst e) (defaultValue (snd e)))
         GENE_TRAITS).

Definition toGeneSequence (genes : Obj.t Value) : string :=
  Js.join "-" (map (fun e : string * Value => segment_of (fst e) (snd e)) genes).

(** *** Phenotype *)

(** The property key an indexing result is converted to. *)
Definition key_of_char (c : option ascii) : string :=
  match c with
  | Some c => Js.str1 c
  | None => "undefined"
  end.

Definition char_eqb (a b : option ascii) : bool :=
  match a, b with
  | Some x, Some y => Ascii.eqb x y
  | None, None => true
  | _, _ => false
  end.

(** [[a, b].sort().join("")]: code-unit order, [undefined] last and
    printed as the empty string. *)
Definition sorted_pair (a b : option ascii) : string :=
  match a, b with
  | Some x, Some y =>
      if (nat_of_ascii y <? nat_of_ascii x)%nat
      then String y (Js.str1 x) else String x (Js.str1 y)
  | Some x, None => Js.str1 x
  | None, Some y => Js.str1 y
  | None, None => ""
  end.

Definition dominance_gt (a b : Allele) : bool :=
  match allele_dominance a, allele_dominance b with
  | Some x, Some y => y <? x
  | _, _ => false
  end.

Definition pheno_of (a : option Allele) : Pheno :=
  match a with
  | Some a => PhAllele a
  | None => PhUndefined
  end.

Definition first_allele (al : Obj.t Allele) : option Allele :=
  match al with
  | (_, a) :: _ => Some a
  | [] => None
  end.

(** The qualitative branch; [None] is the [TypeError] raised by indexing
    [undefined]. *)
Definition resolve_qualitative (gene : Gene.Qualitative) (value : Value)
  : option Pheno :=
  match value with
  | VUndef => None
  | _ =>
      let v0 := Val.index value 0 in
      let v1 := Val.index value 1 in
      if char_eqb v0 v1 then
        Some (pheno_of (Obj.get (Gene.alleles gene) (key_of_char v0)))
      else
        let sortedAlleles := sorted_pair v0 v1 in
        let blended :=
          match Gene.blendMap gene with
          | Some bm => Obj.get bm sortedAlleles
          | None => None
          end in
        match blended with
        | Some b => Some (PhAllele b)
        | None =>
            match Obj.get (Gene.alleles gene) (key_of_char v0),
                  Obj.get (Gene.alleles gene) (key_of_char v1) with
            | Some allele1, Some allele2 =>
                if dominance_gt allele1 allele2 then Some (PhAllele allele1)
                else if dominance_gt allele2 allele1 then Some (PhAllele allele2)
                else Some (PhAllele allele1)
            | _, _ => Some (pheno_of (first_allele (Gene.alleles gene)))
            end
        end
  end.

(** [{ value: numericValue, ...entry }]. *)
Definition spread_value (numericValue : Js.Num) (entry : option Props)
  : Props :=
  fold_left (fun o e => Obj.set o (fst e) (snd e))
            (match entry with Some fields => fields | None => [] end)
            [("value", Some numericValue)].

Definition numeric_value (gene : Gene.Quantitative) (value : Value) : Js.Num :=
  let lo := Js.Fin (Gene.min gene) in
  let hi := Js.Fin (Gene.max gene) in
  let numericValue :=
    if Val.is_string_of_length value 2 then
      let allele1 := Js.or (Js.parseInt (key_of_char (Val.index value 0))) lo in
      let allele2 := Js.or (Js.parseInt (key_of_char (Val.index value 1))) lo in
      Js.round (Js.div (Js.add allele1 allele2) (Js.of_Z 2))
    else
      Js.or (Js.parseInt (Val.toString value))
            (Js.Fin (Gene.quant_default gene)) in
  Js.max lo (Js.min hi numericValue).

Definition resolve_quantitative (gene : Gene.Quantitative) (value : Value)
  : Pheno :=
  let numericValue := numeric_value gene value in
  PhQuant (spread_value numericValue
             (Obj.get (Gene.valueMap gene) (Js.toString numericValue))).

(** One iteration of the [forEach] over [Object.keys(this.genes)]. *)
Definition resolve_gene (phenotype : option Phenotype)
    (entry : string * Value) : option Phenotype :=
  match phenotype with
  | None => None
  | Some ph =>
      let '(key, value) := entry in
      match lookup_trait key with
      | Own (qualitative gene) =>
          match resolve_qualitative gene value with
          | Some p => Some (Obj.set ph key p)
          | None => None
          end
      | Own (quantitative gene) =>
          Some (Obj.set ph key (resolve_quantitative gene value))
      | Proto | Absent => Some ph
      end
  end.

(** *** Trait interactions

    The interactions read and write numeric fields of the resolved
    quantitative traits.  [GR], [SZ], [WN], [RS] and [YD] are quantitative
    in the registry, so a truthy [phenotype.GR] (and so on) is always a
    [PhQuant] object. *)

Definition pheno_truthy (p : option Pheno) : bool :=
  match p with
  | Some (PhAllele _) | Some (PhQuant _) => true
  | Some PhUndefined | None => false
  end.

(** [p?.f]: [None] is [undefined]. *)
Definition field (p : option Pheno) (f : string) : option Js.Num :=
  match p with
  | Some (PhQuant o) =>
      match Obj.get o f with
      | Some v => v
      | None => None
      end
  | _ => None
  end.

(** A number read from a possibly [undefined] field. *)
Definition to_num (x : option Js.Num) : Js.Num :=
  match x with
  | Some n => n
  | None => Js.NaN
  end.

(** [x || d]. *)
Definition or_else (x : option Js.Num) (d : Q) : Js.Num :=
  Js.or (to_num x) (Js.Fin d).

(** [phenotype[key].f = v]. *)
Definition set_field (ph : Phenotype) (key f : string) (v : option Js.Num)
  : Phenotype :=
  match Obj.get ph key with
  | Some (PhQuant o) => Obj.set ph key (PhQuant (Obj.set o f v))
  | _ => ph
  end.

Definition number_key (x : option Js.Num) : string :=
  match x with
  | Some n => Js.toString n
  | None => "undefined"
  end.

Definition is_homozygous (value : Value) : bool :=
  (Val.is_string_of_length value 2
   && char_eqb (Val.index value 0) (Val.index value 1))%bool.

Definition homozygousCount (genes : Obj.t Value) : Z :=
  Z.of_nat (List.length (filter (fun e => is_homozygous (snd e)) genes)).

Definition inbreedingThreshold : Z := 5.

Definition growth_size (ph : Phenotype) : Phenotype :=
  let GR := Obj.get ph "GR" in
  let SZ := Obj.get ph "SZ" in
  if (pheno_truthy GR && pheno_truthy SZ)%bool then
    let sizeEffect := or_else (field SZ "growthModifier") 1.0 in
    let ph :=
      set_field ph "GR" "effectiveValue"
        (Some (Js.mul (to_num (field GR "value")) sizeEffect)) in
    let baseGrowthDays :=
      or_else (field (option_map PhQuant
                        (Obj.get (Gene.valueMap Traits.GR)
                                 (number_key (field GR "value"))))
                     "daysToMature") 10 in
    set_field ph "GR" "daysToMature"
      (Some (Js.round (Js.div baseGrowthDays sizeEffect)))
  else ph.

Definition water_size (ph : Phenotype) : Phenotype :=
  let WN := Obj.get ph "WN" in
  let SZ := Obj.get ph "SZ" in
  if (pheno_truthy WN && pheno_truthy SZ)%bool then
    let sizeEffect := or_else (field SZ "waterModifier") 1.0 in
    let baseWaterNeeds := or_else (field WN "waterPerDay") 20 in
    set_field ph "WN" "effectiveWaterPerDay"
      (Some (Js.round (Js.mul baseWaterNeeds sizeEffect)))
  else ph.

Definition growth_resistance (ph : Phenotype) : Phenotype :=
  let GR := Obj.get ph "GR" in
  let RS := Obj.get ph "RS" in
  if (pheno_truthy GR && pheno_truthy RS
      && Js.gt (to_num (field GR "value")) (Js.Fin 1.2))%bool then
    let ph :=
      set_field ph "RS" "effectivePestDamageChance"
        (Some (Js.mul (to_num (field RS "pestDamageChance"))
                 (Js.add (Js.Fin 1)
                    (Js.mul (Js.sub (to_num (field GR "value")) (Js.Fin 1.0))
                            (Js.Fin 0.5))))) in
    set_field ph "RS" "effectivePestDamageChance"
      (Some (Js.min (Js.Fin 1.0)
               (to_num (field (Obj.get ph "RS") "effectivePestDamageChance"))))
  else if pheno_truthy RS then
    set_field ph "RS" "effectivePestDamageChance" (field RS "pestDamageChance")
  else ph.

Definition inbreeding (genes : Obj.t Value) (ph : Phenotype) : Phenotype :=
  let count := homozygousCount genes in
  let YD := Obj.get ph "YD" in
  if inbreedingThreshold <? count then
    if pheno_truthy YD then
      let inbreedingFactor :=
        Js.sub (Js.Fin 1.0)
          (Js.mul (Js.of_Z (count - inbreedingThreshold)) (Js.Fin 0.1)) in
      set_field ph "YD" "effectiveCoinMultiplier"
        (Some (Js.mul (to_num (field YD "coinMultiplier")) inbreedingFactor))
    else ph
  else if pheno_truthy YD then
    set_field ph "YD" "effectiveCoinMultiplier" (field YD "coinMultiplier")
  else ph.

Definition calculateTraitInteractions (genes : Obj.t Value) (ph : Phenotype)
  : Phenotype :=
  inbreeding genes (growth_resistance (water_size (growth_size ph))).

(** [None] when resolving a gene raises. *)
Definition calculatePhenotype (genes : Obj.t Value) : option Phenotype :=
  match fold_left resolve_gene genes (Some []) with
  | Some ph => Some (calculateTraitInteractions genes ph)
  | None => None
  end.

(** [new Plant(geneSequence)]; [None] for the argument is [null], and an
    empty string is falsy as well. *)
Definition new_Plant (geneSequence : option string) : option Plant :=
  let sequence :=
    match geneSequence with
    | Some s => if String.eqb s "" then generateDefaultGeneSequence else s
    | None => generateDefaultGeneSequence
    end in
  let genes := parseGeneSequence sequence in
  match calculatePhenotype genes with
  | Some ph => Some (mkPlant genes ph (Js.of_Z 0) (Js.of_Z 100) false true)
  | None => None
  end.

(** The [name] field of [getInfo()]. *)
Definition display_name (p : option Pheno) : string :=
  match p with
  | Some (PhAllele a) => allele_name a
  | Some (PhQuant _) => "undefined"
  | Some PhUndefined | None => "Unknown"
  end.

Definition getInfo_name (p : Plant) : string :=
  display_name (Obj.get (phenotype p) "FC") ++ " "
  ++ display_name (Obj.get (phenotype p) "LS") ++ " Plant".

(** The result of a call that may raise. *)
Inductive Outcome (A : Type) : Type :=
| Returned (a : A)
| Thrown.

Arguments Returned {A} a.
Arguments Thrown {A}.

(** *** Display information *)

(** [s.toLowerCase()] on code units below 256. *)
Definition lower_char (c : ascii) : ascii :=
  let n := nat_of_ascii c in
  if ((Nat.leb 65 n && Nat.leb n 90)
      || (Nat.leb 192 n && Nat.leb n 222 && negb (Nat.eqb n 215)))%bool
  then ascii_of_nat (n + 32) else c.

Fixpoint toLowerCase (s : string) : string :=
  match s with
  | EmptyString => EmptyString
  | String c r => String (lower_char c) (toLowerCase r)
  end.

(** The glyphs are kept as the byte strings of the source text. *)
Definition emojiMap : Obj.t string :=
  [ ("red", "🌹"); ("blue", "🌸"); ("yellow", "🌻"); ("white", "🌼");
    ("pink", "🌷"); ("purple", "💐"); ("orange", "🌺"); ("green", "🌿");
    ("light red", "🌹"); ("light blue", "🌸"); ("light yellow", "🌼");
    ("deep pink", "🌷"); ("peach", "🌺") ].

(** What [getEmoji] returns: a glyph, or the value a lookup in the map
    inherits from the prototype. *)
Inductive Emoji : Type :=
| Glyph (s : string)
| InheritedValue.

(** [getEmoji()]; [None] is the [TypeError] of calling [toLowerCase] on a
    missing [name]. *)
Definition getEmoji (p : Plant) : option Emoji :=
  match Obj.get (phenotype p) "FC" with
  | Some (PhAllele a) =>
      let colorName := toLowerCase (allele_name a) in
      match Obj.get emojiMap colorName with
      | Some e => Some (Glyph (if String.eqb e "" then "🌱" else e))
      | None =>
          if inherited colorName then Some InheritedValue
          else Some (Glyph "🌱")
      end
  | Some (PhQuant _) => None
  | Some PhUndefined | None => Some (Glyph "🌱")
  end.

Module Info.

Record t : Type := mk {
  name : string;
  flowerColor : Value;
  leafShape : Value;
  size : Js.Num;
  growthDays : Js.Num;
  waterNeeds : Js.Num;
  resistance : Js.Num;
  sellPrice : Js.Num;
  emoji : Emoji;
  growth : Js.Num;
  isReady : bool
}.

End Info.

(** The [value] property of a resolved trait, as a value. *)
Definition value_of (p : Pheno) : Value :=
  match p with
  | PhAllele a => VStr (allele_value a)
  | PhQuant o =>
      match Obj.get o "value" with
      | Some (Some n) => VNum n
      | _ => VUndef
      end
  | PhUndefined => VUndef
  end.

(** [getInfo()]; it raises when [getEmoji] does. *)
Definition getInfo (p : Plant) : option Info.t :=
  let ph := phenotype p in
  let daysToMature := or_else (field (Obj.get ph "GR") "daysToMature") 10 in
  let flowerColorValue :=
    if pheno_truthy (Obj.get ph "FC") then
      match Obj.get ph "FC" with Some x => value_of x | None => VUndef end
    else VStr "#FFFFFF" in
  let basePrice := Js.of_Z 10 in
  let yieldMultiplier :=
    or_else (field (Obj.get ph "YD") "effectiveCoinMultiplier") 1.0 in
  let sellPrice := Js.round (Js.mul basePrice yieldMultiplier) in
  let leafShape :=
    match Obj.get ph "LS" with
    | Some x => if Val.truthy (value_of x) then value_of x else VStr "oval"
    | None => VStr "oval"
    end in
  match getEmoji p with
  | None => None
  | Some e =>
      Some (Info.mk
              (getInfo_name p)
              flowerColorValue
              leafShape
              (or_else (field (Obj.get ph "SZ") "value") 3)
              daysToMature
              (or_else (field (Obj.get ph "WN") "effectiveWaterPerDay") 20)
              (Js.round
                 (Js.mul
                    (Js.sub (Js.of_Z 1)
                       (or_else (field (Obj.get ph "RS")
                                       "effectivePestDamageChance") 0.2))
                    (Js.of_Z 100)))
              sellPrice
              e
              (progress p)
              (ready p))
  end.

(** *** Growth and harvest *)

Inductive Event : Type := died | matured | growing.

Definition truthy_string (s : option string) : bool :=
  match s with
  | Some s => negb (String.eqb s "")
  | None => false
  end.

Definition is_event (s : option string) (tag : string) : bool :=
  match s with
  | Some s => String.eqb s tag
  | None => false
  end.

(** The pest step: the growth increment and the health after it. *)
Definition pest_step (ph : Phenotype) (pestPresent : bool)
    (st : Js.Num * Js.Num) : Rand (Js.Num * Js.Num) :=
  let '(growthIncrement, health) := st in
  if pestPresent then
    let damageChance :=
      or_else (field (Obj.get ph "RS") "effectivePestDamageChance") 0.2 in
    r <- random ;;
    if Js.lt r damageChance then
      ret (Js.mul growthIncrement (Js.Fin 0.5), Js.sub health (Js.of_Z 10))
    else ret (growthIncrement, health)
  else ret (growthIncrement, health).

(** The weather step. *)
Definition weather_step (ph : Phenotype) (weatherEvent : option string)
    (st : Js.Num * Js.Num) : Rand (Js.Num * Js.Num) :=
  let '(growthIncrement, health) := st in
  if truthy_string weatherEvent then
    let weatherDamageChance :=
      or_else (field (Obj.get ph "RS") "weatherDamageChance") 0.2 in
    if is_event weatherEvent "drought" then
      let droughtResistance :=
        or_else (field (Obj.get ph "WN") "droughtResistance") 0.5 in
      r <- random ;;
      if Js.gt r droughtResistance then
        ret (Js.mul growthIncrement (Js.Fin 0.3), Js.sub health (Js.of_Z 15))
      else ret (growthIncrement, health)
    else if is_event weatherEvent "storm" then
      let size := or_else (field (Obj.get ph "SZ") "value") 3 in
      let stormVulnerability := Js.div size (Js.of_Z 5) in
      r <- random ;;
      if Js.lt r (Js.mul weatherDamageChance stormVulnerability) then
        ret (Js.of_Z 0, Js.sub health (Js.of_Z 20))
      else ret (growthIncrement, health)
    else ret (growthIncrement, health)
  else ret (growthIncrement, health).

(** [update(waterLevel, pestPresent, weatherEvent)]: the returned event
    ([None] for the bare [return]) and the plant after the call.  A
    [waterLevel] of [None] is an omitted argument. *)
Definition update (p : Plant) (waterLevel : option Js.Num)
    (pestPresent : bool) (weatherEvent : option string)
  : Rand (option Event * Plant) :=
  if ready p then ret (None, p)
  else
    let ph := phenotype p in
    let waterLevel :=
      match waterLevel with Some n => n | None => Js.of_Z 100 end in
    let GR := Obj.get ph "GR" in
    let growthIncrement :=
      if pheno_truthy GR then
        Js.mul (Js.of_Z 10)
          (Js.or (to_num (field GR "effectiveValue")) (to_num (field GR "value")))
      else Js.of_Z 10 in
    let waterNeeds :=
      or_else (field (Obj.get ph "WN") "effectiveWaterPerDay") 20 in
    let '(growthIncrement, health, watered) :=
      if Js.lt waterLevel waterNeeds then
        let waterRatio := Js.div waterLevel waterNeeds in
        (Js.mul growthIncrement waterRatio,
         if Js.lt waterRatio (Js.Fin 0.5) then
           Js.sub (health p)
             (Js.mul (Js.sub (Js.of_Z 1) waterRatio) (Js.of_Z 5))
         else health p,
         false)
      else (growthIncrement, health p, true) in
    st <- pest_step ph pestPresent (growthIncrement, health) ;;
    st <- weather_step ph weatherEvent st ;;
    let '(growthIncrement, health) := st in
    let progress := Js.add (progress p) growthIncrement in
    let '(progress, ready) :=
      if Js.ge progress (Js.of_Z 100) then (Js.of_Z 100, true)
      else (progress, ready p) in
    let health := Js.max (Js.of_Z 0) (Js.min (Js.of_Z 100) health) in
    if Js.le health (Js.of_Z 0) then
      ret (Some died, mkPlant (genes p) ph progress (Js.of_Z 0) ready watered)
    else if ready then
      ret (Some matured, mkPlant (genes p) ph progress health ready watered)
    else
      ret (Some growing, mkPlant (genes p) ph progress health ready watered).

Record Rewards : Type := mkRewards {
  coins : Js.Num;
  seeds : Z;
  geneSequence : string
}.

Record HarvestResult : Type := mkHarvestResult {
  success : bool;
  rewards : option Rewards;
  message : string
}.

(** [harvest()]: the result and the plant after the call.  The message is
    built last and calls [getInfo()]; when that raises the call raises,
    after its draw. *)
Definition harvest (p : Plant) : Rand (Outcome HarvestResult * Plant) :=
  if negb (ready p) then
    ret (Returned (mkHarvestResult false None "Plant not ready for harvest"),
         p)
  else
    let YD := Obj.get (phenotype p) "YD" in
    let yieldMultiplier := or_else (field YD "effectiveCoinMultiplier") 1.0 in
    let baseCoins := Js.of_Z 10 in
    let coins := Js.round (Js.mul baseCoins yieldMultiplier) in
    let seedChance := or_else (field YD "seedChance") 0.5 in
    r <- random ;;
    let seeds := if Js.lt r seedChance then 1 else 0 in
    match getInfo p with
    | None => ret (Thrown, p)
    | Some info =>
        ret (Returned
               (mkHarvestResult true
                  (Some (mkRewards coins seeds (toGeneSequence (genes p))))
                  ("Harvested " ++ Info.name info ++ " for "
                   ++ Js.toString coins ++ " coins and "
                   ++ Js.string_of_Z seeds ++ " seeds!")),
             p)
    end.

(** ** Breeding mechanics *)

Record CrossRecord : Type := mkCrossRecord {
  parentA : string;
  parentB : string;
  offspring : string;
  date : Z
}.

Record PlantBreeder : Type := mkPlantBreeder {
  crossingHistory : list CrossRecord
}.

Definition new_PlantBreeder : PlantBreeder := mkPlantBreeder [].

(** An integral, non-negative number as an index; anything else indexes
    to [undefined]. *)
Definition as_index (i : Js.Num) : option nat :=
  match i with
  | Js.Fin q =>
      let z := Qfloor q in
      if (Qeq_bool (inject_Z z) q && (0 <=? z))%bool then Some (Z.to_nat z)
      else None
  | Js.NaN => None
  end.

Definition string_at (s : string) (i : Js.Num) : option string :=
  match as_index i with
  | Some n => option_map Js.str1 (Js.char_at s n)
  | None => None
  end.

Definition array_at (l : list string) (i : Js.Num) : option string :=
  match as_index i with
  | Some n => nth_error l n
  | None => None
  end.

(** [a + b] on operands that are strings or [undefined]. *)
Definition plus (a b : option string) : Value :=
  match a, b with
  | Some x, Some y => VStr (x ++ y)
  | Some x, None => VStr (x ++ "undefined")
  | None, Some y => VStr ("undefined" ++ y)
  | None, None => VNum Js.NaN
  end.

(** [v.length] used as a number; [None] is the [TypeError] on
    [undefined]. *)
Definition length_of (v : Value) : option Js.Num :=
  match v with
  | VStr s => Some (Js.of_Z (Z.of_nat (String.length s)))
  | VNum _ => Some Js.NaN
  | VUndef => None
  end.

(** The allele one parent contributes. *)
Definition contribute (al : Obj.t Allele) (g : Value) : Rand (option string) :=
  match g with
  | VStr s =>
      if (1 <=? String.length s)%nat then
        r <- random ;;
        ret (string_at s
               (Js.floor (Js.mul r (Js.of_Z (Z.of_nat (String.length s))))))
      else ret (nth_error (Obj.keys al) 0)
  | _ => ret (nth_error (Obj.keys al) 0)
  end.

(** The mean of the two digits of a diploid value, or the value parsed
    directly. *)
Definition diploid_mean (g : Value) : Js.Num :=
  if Val.is_string_of_length g 2 then
    Js.div (Js.add (Js.parseInt (key_of_char (Val.index g 0)))
                   (Js.parseInt (key_of_char (Val.index g 1))))
           (Js.of_Z 2)
  else Js.parseInt (Val.toString g).

Definition or_default (x : Js.Num) (d : Q) : Js.Num :=
  if Js.isNaN x then Js.Fin d else x.

Definition clamp (g : Gene.Quantitative) (x : Js.Num) : Js.Num :=
  Js.max (Js.Fin (Gene.min g)) (Js.min (Js.Fin (Gene.max g)) x).

Definition doubled (x : Js.Num) : Value :=
  VStr (Js.toString x ++ Js.toString x).

(** [mutateMutation(gene, geneKey)]. *)
Definition mutateMutation (gene : Value) (geneKey : string)
  : Rand (Outcome Value) :=
  match lookup_trait geneKey with
  | Absent | Proto => ret (Returned gene)
  | Own (qualitative trait) =>
      let alleleKeys := Obj.keys (Gene.alleles trait) in
      if Nat.eqb (List.length alleleKeys) 0 then ret (Returned gene)
      else
        r1 <- random ;;
        match length_of gene with
        | None => ret Thrown
        | Some len =>
            let alleleIndex := Js.floor (Js.mul r1 len) in
            r2 <- random ;;
            let newAllele :=
              array_at alleleKeys
                (Js.floor
                   (Js.mul r2 (Js.of_Z (Z.of_nat (List.length alleleKeys))))) in
            if match alleleIndex with
               | Js.Fin q => Qeq_bool q 0
               | Js.NaN => false
               end
            then ret (Returned
                        (plus newAllele (option_map Js.str1 (Val.index gene 1))))
            else ret (Returned
                        (plus (option_map Js.str1 (Val.index gene 0)) newAllele))
        end
  | Own (quantitative trait) =>
      let value := or_default (diploid_mean gene) (Gene.quant_default trait) in
      r <- random ;;
      let value :=
        Js.add value (if Js.lt r (Js.Fin 0.5) then Js.of_Z (-1) else Js.of_Z 1) in
      let value := clamp trait (Js.round value) in
      ret (Returned (doubled value))
  end.

(** The body of the [forEach] over the registry keys: the offspring's
    value for one gene. *)
Definition cross_gene (genesA genesB : Obj.t Value) (key : string)
    (trait : Trait) : Rand (Outcome Value) :=
  if (negb (Val.truthy (gene_at genesA key))
      || negb (Val.truthy (gene_at genesB key)))%bool then
    ret (Returned (defaultValue trait))
  else
    newGene <-
      match trait with
      | qualitative g =>
          alleleA <- contribute (Gene.alleles g) (gene_at genesA key) ;;
          alleleB <- contribute (Gene.alleles g) (gene_at genesB key) ;;
          ret (plus alleleA alleleB)
      | quantitative g =>
          let valueA :=
            or_default (diploid_mean (gene_at genesA key)) (Gene.quant_default g) in
          let valueB :=
            or_default (diploid_mean (gene_at genesB key)) (Gene.quant_default g) in
          let averageValue := Js.div (Js.add valueA valueB) (Js.of_Z 2) in
          r <- random ;;
          let variation := Js.sub (Js.mul r (Js.Fin 0.6)) (Js.Fin 0.3) in
          let finalValue := Js.round (Js.add averageValue variation) in
          let finalValue := clamp g finalValue in
          ret (doubled finalValue)
      end ;;
    r <- random ;;
    if Js.lt r (Js.Fin 0.05) then mutateMutation newGene key
    else ret (Returned newGene).

Fixpoint cross_genes (genesA genesB : Obj.t Value)
    (traits : list (string * Trait)) (offspringGenes : Obj.t Value)
  : Rand (Outcome (Obj.t Value)) :=
  match traits with
  | [] => ret (Returned offspringGenes)
  | (key, trait) :: rest =>
      g <- cross_gene genesA genesB key trait ;;
      match g with
      | Returned v =>
          cross_genes genesA genesB rest (Obj.set offspringGenes key v)
      | Thrown => ret Thrown
      end
  end.

(** [crossPlants(plantA, plantB)]: the returned offspring ([None] for
    [null]) and the breeder after the call.  An absent parent is [None]. *)
Definition crossPlants (b : PlantBreeder) (plantA plantB : option Plant)
  : Rand (Outcome (option Plant) * PlantBreeder) :=
  match plantA, plantB with
  | Some pA, Some pB =>
      og <- cross_genes (genes pA) (genes pB) GENE_TRAITS [] ;;
      match og with
      | Thrown => ret (Thrown, b)
      | Returned offspringGenes =>
          match new_Plant (Some (toGeneSequence offspringGenes)) with
          | None => ret (Thrown, b)
          | Some child =>
              d <- new_Date ;;
              ret (Returned (Some child),
                   mkPlantBreeder
                     (crossingHistory b ++
                      [mkCrossRecord (toGeneSequence (genes pA))
                                     (toGeneSequence (genes pB))
                                     (toGeneSequence (genes child))
                                     d])%list)
          end
      end
  | _, _ => ret (Returned None, b)
  end.

Definition getCrossingHistory (b : PlantBreeder) : list CrossRecord :=
  crossingHistory b.

(** The phenotype of a genotype whose resolution does not raise. *)
Definition phenotype_of (genes : Obj.t Value) : Phenotype :=
  match calculatePhenotype genes with
  | Some ph => ph
  | None => []
  end.

(** The plant built from a gene sequence. *)
Definition plant_of_sequence (sequence : string) : Plant :=
  match new_Plant (Some sequence) with
  | Some p => p
  | None => mkPlant [] [] (Js.of_Z 0) (Js.of_Z 100) false true
  end.

(** A world whose draws are all zero. *)
Definition still_world : World := mkWorld (fun _ => (0, 1%positive)) 0 0.

(** [s.includes(c)] for a character [c]. *)
Fixpoint mentions (c : ascii) (s : string) : bool :=
  match s with
  | EmptyString => false
  | String c' r => (Ascii.eqb c' c || mentions c r)%bool
  end.

(** ** Conformance of a genotype to the registry

    Following the data model: a qualitative value is a pair of allele
    characters of its trait, a quantitative value is the same digit twice,
    the digit lying in the range of its trait. *)

Definition value_conforms (t : Trait) (v : Value) : bool :=
  match v with
  | VStr (String a (String b EmptyString)) =>
      match t with
      | qualitative g =>
          (Obj.has (Gene.alleles g) (Js.str1 a)
           && Obj.has (Gene.alleles g) (Js.str1 b))%bool
      | quantitative g =>
          match Js.digit_of a with
          | Some d =>
              (Ascii.eqb a b && Qle_bool (Gene.min g) (inject_Z d)
               && Qle_bool (inject_Z d) (Gene.max g))%bool
          | None => false
          end
      end
  | _ => false
  end.

Definition entry_conforms (e : string * Value) : bool :=
  match Obj.get GENE_TRAITS (fst e) with
  | Some t => value_conforms t (snd e)
  | None => false
  end.

Fixpoint distinct (l : list string) : bool :=
  match l with
  | [] => true
  | k :: r => (negb (existsb (String.eqb k) r) && distinct r)%bool
  end.

(** Every registered trait has an entry, no key occurs twice, and every
    value conforms to the trait of its key. *)
Definition conforms (g : Obj.t Value) : bool :=
  (distinct (Obj.keys g)
   && forallb (fun k => Obj.has g k) (Obj.keys GENE_TRAITS)
   && forallb entry_conforms g)%bool.

(** The keys of the [KEY:VALUE] segments of a sequence. *)
Definition segment_key (segment : string) : string :=
  match Js.split ":" segment with k :: _ => k | [] => "undefined" end.

Definition segment_keys (sequence : string) : list string :=
  map segment_key (Js.split "-" sequence).

(** The number of entries whose value is a two-character string with both
    characters equal. *)
Definition equal_pair (v : Value) : bool :=
  match v with
  | VStr (String a (String b EmptyString)) => Ascii.eqb a b
  | _ => false
  end.

Definition equal_pairs (g : Obj.t Value) : Z :=
  Z.of_nat (List.length (filter (fun e => equal_pair (snd e)) g)).

(** A run of [crossPlants] calls on one breeder. *)
Fixpoint cross_all (calls : list (option Plant * option Plant))
    (b : PlantBreeder) : Rand (list (Outcome (option Plant)) * PlantBreeder) :=
  match calls with
  | [] => ret ([], b)
  | (plantA, plantB) :: rest =>
      r <- crossPlants b plantA plantB ;;
      rs <- cross_all rest (snd r) ;;
      ret (fst r :: fst rs, snd rs)
  end.

Definition both_present (c : option Plant * option Plant) : bool :=
  match c with
  | (Some _, Some _) => true
  | _ => false
  end.

(** A run of [update] calls with the same arguments. *)
Fixpoint update_n (n : nat) (p : Plant) (waterLevel : option Js.Num)
    (pestPresent : bool) (weatherEvent : option string) : Rand Plant :=
  match n with
  | O => ret p
  | S n' =>
      r <- update p waterLevel pestPresent weatherEvent ;;
      update_n n' (snd r) waterLevel pestPresent weatherEvent
  end.

(** ** Integration helpers *)

(** [createStarterPlant(type)]. *)
Definition createStarterPlant (type : string) : option Plant :=
  let geneSequence :=
    if String.eqb type "carrot" then
      "FC:RY-SZ:22-LS:33-BP:11-GR:12-YD:44-RS:22-WN:22"
    else if String.eqb type "tomato" then
      "FC:RR-SZ:33-LS:11-BP:22-GR:10-YD:33-RS:33-WN:22"
    else if String.eqb type "corn" then
      "FC:YY-SZ:55-LS:33-BP:33-GR:08-YD:55-RS:22-WN:33"
    else "FC:RB-SZ:33-LS:11-BP:11-GR:10-YD:33-RS:22-WN:22" in
  new_Plant (Some geneSequence).

(** The value [createRandomPlant] draws for one trait. *)
Definition random_gene (trait : Trait) : Rand Value :=
  match trait with
  | qualitative g =>
      let alleleKeys := Obj.keys (Gene.alleles g) in
      let n := Js.of_Z (Z.of_nat (List.length alleleKeys)) in
      r1 <- random ;;
      let allele1 := array_at alleleKeys (Js.floor (Js.mul r1 n)) in
      r2 <- random ;;
      let allele2 := array_at alleleKeys (Js.floor (Js.mul r2 n)) in
      ret (plus allele1 allele2)
  | quantitative g =>
      r <- random ;;
      let value :=
        Js.add
          (Js.floor
             (Js.mul r
                (Js.add (Js.sub (Js.Fin (Gene.max g)) (Js.Fin (Gene.min g)))
                        (Js.of_Z 1))))
          (Js.Fin (Gene.min g)) in
      ret (doubled value)
  end.

Fixpoint random_genes (traits : list (string * Trait)) (genes : Obj.t Value)
  : Rand (Obj.t Value) :=
  match traits with
  | [] => ret genes
  | (key, trait) :: rest =>
      v <- random_gene trait ;;
      random_genes rest (Obj.set genes key v)
  end.

(** [createRandomPlant()]. *)
Definition createRandomPlant : Rand (option Plant) :=
  genes <- random_genes GENE_TRAITS [] ;;
  ret (new_Plant (Some (toGeneSequence genes))).

(** ** Notions used in the statements below *)

(** The value a [KEY:VALUE] segment carries: the text between the first
    and the second colon, [undefined] without a colon. *)
Definition segment_value (segment : string) : Value :=
  match Js.split ":" segment with _ :: v :: _ => VStr v | _ => VUndef end.

(** The value of the last segment whose key is [key]. *)
Fixpoint last_assignment (key : string) (segments : list string)
  : option Value :=
  match segments with
  | [] => None
  | s :: rest =>
      match last_assignment key rest with
      | Some v => Some v
      | None =>
          if String.eqb (segment_key s) key then Some (segment_value s)
          else None
      end
  end.

(** A genotype with every value replaced by its text. *)
Definition stringify (g : Obj.t Value) : Obj.t Value :=
  map (fun e => (fst e, VStr (Val.toString (snd e)))) g.


(** The shape of a key list that [Object.keys] can return: the array-index
    keys first, in increasing order, then the other keys. *)
Definition is_index (k : string) : bool :=
  match Obj.array_index k with Some _ => true | None => false end.

Fixpoint ordered_from (lo : Z) (l : list string) : bool :=
  match l with
  | [] => true
  | k :: r =>
      match Obj.array_index k with
      | Some n => ((lo <? n) && ordered_from n r)%bool
      | None => forallb (fun k' => negb (is_index k')) r
      end
  end.

(** A text that can stand in a gene sequence: it holds neither
    separator. *)
Definition clean (s : string) : bool :=
  (negb (mentions ":" s) && negb (mentions "-" s))%bool.

(** What an entry of a parsed genotype can be. *)
Definition shape_ok (e : string * Value) : Prop :=
  clean (fst e) = true
  /\ clean (Val.toString (snd e)) = true
  /\ fst e <> "__proto__"
  /\ match lookup_trait (fst e) with
     | Absent => snd e = VStr "00"
     | Proto => snd e = VUndef \/ exists s, snd e = VStr s
     | Own t =>
         snd e = VUndef \/ (exists s, snd e = VStr s) \/ snd e = defaultValue t
     end.

Definition well_formed (g : Obj.t Value) : Prop :=
  NoDup (Obj.keys g)
  /\ ordered_from (-1) (Obj.keys g) = true
  /\ Forall shape_ok g
  /\ forall k t,
       Obj.get GENE_TRAITS k = Some t -> Val.truthy (gene_at g k) = true.


(** A plant as the constructor leaves it, in any later state: its
    genotype was parsed from a sequence and its phenotype resolved from
    the genotype. *)
Definition constructed (p : Plant) : Prop :=
  exists sequence,
    genes p = parseGeneSequence sequence
    /\ calculatePhenotype (genes p) = Some (phenotype p).


(** The object a quantitative trait resolves to when its number is [n]. *)
Definition quant_object (gene : Gene.Quantitative) (n : Js.Num) : Pheno :=
  PhQuant (spread_value n (Obj.get (Gene.valueMap gene) (Js.toString n))).

(** The numbers a quantitative trait can resolve to: the bounds of its
    range, its default, and the integers of the range. *)
Definition candidates (gene : Gene.Quantitative) : list Js.Num :=
  [ Js.Fin (Gene.min gene); Js.Fin (Gene.max gene);
    Js.Fin (Gene.quant_default gene) ]
  ++ map (fun i => Js.of_Z (Qceiling (Gene.min gene) + Z.of_nat i))
         (seq 0 (Z.to_nat (Qfloor (Gene.max gene)
                           - Qceiling (Gene.min gene) + 1))).

(** The four traits the first three interactions read and write, and the
    phenotype those interactions derive from given base objects. *)
Definition interacting : list string := ["GR"; "SZ"; "WN"; "RS"].

Definition derived4 (gr sz wn rs : Pheno) : Phenotype :=
  growth_resistance
    (water_size
       (growth_size [("GR", gr); ("SZ", sz); ("WN", wn); ("RS", rs)])).

(** A property of the four interacting traits, decided on every
    combination of the numbers they can resolve to. *)
Definition check4
    (P : option Pheno -> option Pheno -> option Pheno -> option Pheno -> bool)
  : bool :=
  forallb (fun n1 =>
    forallb (fun n2 =>
      forallb (fun n3 =>
        forallb (fun n4 =>
          let d := derived4 (quant_object Traits.GR n1)
                            (quant_object Traits.SZ n2)
                            (quant_object Traits.WN n3)
                            (quant_object Traits.RS n4) in
          P (Obj.get d "GR") (Obj.get d "SZ") (Obj.get d "WN") (Obj.get d "RS"))
        (candidates Traits.RS))
      (candidates Traits.WN))
    (candidates Traits.SZ))
  (candidates Traits.GR).


(** A field that holds a finite number. *)
Definition fin (x : option Js.Num) : option Q :=
  match x with
  | Some (Js.Fin q) => Some q
  | _ => None
  end.

(** Growth and size: the effective growth rate is the growth rate times
    the growth modifier of the size and lies in [0.4, 1.8]; the days to
    mature lie in [5, 19]. *)
Definition growth_check (gr sz wn rs : option Pheno) : bool :=
  match fin (field gr "value"), fin (field sz "growthModifier"),
        fin (field gr "effectiveValue"), fin (field gr "daysToMature") with
  | Some v, Some m, Some e, Some d =>
      (pheno_truthy gr && Qeq_bool e (v * m)
       && Qle_bool 0.4 e && Qle_bool e 1.8
       && Qle_bool 5 d && Qle_bool d 19)%bool
  | _, _, _, _ => false
  end.

(** Water and size: the effective water need is the rounded product of
    the water need and the water modifier of the size and lies in
    [8, 36]. *)
Definition water_check (gr sz wn rs : option Pheno) : bool :=
  match fin (field wn "waterPerDay"), fin (field sz "waterModifier"),
        fin (field wn "effectiveWaterPerDay") with
  | Some b, Some m, Some w =>
      (pheno_truthy wn
       && Qeq_bool w (inject_Z (Qfloor (b * m + (1 # 2))))
       && Qle_bool 8 w && Qle_bool w 36)%bool
  | _, _, _ => false
  end.

(** Growth and resistance: the effective pest damage chance is the base
    chance, raised by a quarter exactly when the growth rate is 1.5; it
    lies in [0.05, 0.625]. *)
Definition pest_check (gr sz wn rs : option Pheno) : bool :=
  match fin (field gr "value"), fin (field rs "pestDamageChance"),
        fin (field rs "effectivePestDamageChance") with
  | Some v, Some c, Some e =>
      (pheno_truthy rs
       && (if Qle_bool v 1.2 then Qeq_bool e c
           else Qeq_bool v 1.5 && Qeq_bool e (c * 1.25))
       && Qle_bool 0.05 e && Qle_bool e 0.625)%bool
  | _, _, _ => false
  end.

(** The fields the weather step and the storm test read. *)
Definition weather_check (gr sz wn rs : option Pheno) : bool :=
  match fin (field rs "weatherDamageChance"),
        fin (field wn "droughtResistance"), fin (field sz "value") with
  | Some c, Some r, Some s =>
      (Qle_bool 0.05 c && Qle_bool c 0.4 && Qle_bool 0.3 r && Qle_bool r 0.7
       && Qle_bool 1 s && Qle_bool s 5)%bool
  | _, _, _ => false
  end.


(** A water level that cannot make growth negative: a non-negative number,
    and no number at all counts as enough water. *)
Definition water_ok (waterLevel : option Js.Num) : Prop :=
  match waterLevel with
  | Some (Js.Fin x) => (0 <= x)%Q
  | _ => True
  end.

(** An update that nothing hinders: at least 36 units of water (or no
    number), no pest and no weather event. *)
Definition unhindered (waterLevel : option Js.Num) (pestPresent : bool)
    (weatherEvent : option string) : Prop :=
  match waterLevel with
  | Some (Js.Fin x) => (36 <= x)%Q
  | _ => True
  end
  /\ pestPresent = false /\ truthy_string weatherEvent = false.

(** ** Runs of updates *)

(** The arguments of one [update] call. *)
Record Conditions : Type := mkConditions {
  water : option Js.Num;
  pest : bool;
  weather : option string
}.

(** One [update] call per entry of [days], in order. *)
Fixpoint run (days : list Conditions) (p : Plant) : Rand Plant :=
  match days with
  | [] => ret p
  | c :: rest =>
      r <- update p (water c) (pest c) (weather c) ;;
      run rest (snd r)
  end.

(** Conditions whose water level is not negative, and conditions under
    which nothing holds the plant back. *)
Definition fair (c : Conditions) : Prop := water_ok (water c).

Definition calm (c : Conditions) : Prop :=
  unhindered (water c) (pest c) (weather c).

(** Progress and health are numbers between 0 and 100, and the plant is
    ready exactly when its progress is 100. *)
Definition in_bounds (p : Plant) : Prop :=
  exists x h,
    progress p = Js.Fin x /\ health p = Js.Fin h
    /\ (0 <= x <= 100)%Q /\ (0 <= h <= 100)%Q
    /\ ready p = Qle_bool 100 x.

(** [p'] is a later state of [p]: the same genotype and phenotype, no less
    progress and no more health. *)
Definition later (p p' : Plant) : Prop :=
  genes p' = genes p /\ phenotype p' = phenotype p
  /\ exists x x' h h',
       progress p = Js.Fin x /\ progress p' = Js.Fin x'
       /\ health p = Js.Fin h /\ health p' = Js.Fin h'
       /\ (x <= x')%Q /\ (h' <= h)%Q.

(** The days to mature are a whole number, and one day less of the
    fastest growth does not reach full progress. *)
Definition days_check (gr sz wn rs : option Pheno) : bool :=
  match fin (field gr "effectiveValue"), fin (field gr "daysToMature") with
  | Some e, Some d =>
      (Qeq_bool d (inject_Z (Qfloor d))
       && negb (Qle_bool 100 ((d - 1) * (10 * e))))%bool
  | _, _ => false
  end.


(** What a qualitative trait can resolve to: [undefined], one of its
    alleles, or one of its blends. *)
Definition outcomes (gene : Gene.Qualitative) : list Pheno :=
  PhUndefined
  :: map (fun e => PhAllele (snd e)) (Gene.alleles gene)
  ++ map (fun e => PhAllele (snd e))
         (match Gene.blendMap gene with Some bm => bm | None => [] end).

(** The growth modifier of a size lies in [0.8, 1.2]; with a growth rate
    of at least 1 the effective growth rate is at least 0.8 and the days
    to mature are at most 13. *)
Definition growth_tight_check (gr sz wn rs : option Pheno) : bool :=
  match fin (field gr "value"), fin (field sz "growthModifier"),
        fin (field gr "effectiveValue"), fin (field gr "daysToMature") with
  | Some v, Some m, Some e, Some d =>
      (Qle_bool 0.8 m && Qle_bool m 1.2
       && implb (Qle_bool 1 v) (Qle_bool 0.8 e && Qle_bool d 13))%bool
  | _, _, _, _ => false
  end.

(** ** Genotypes built by the module *)

(** A value the module itself writes for a trait: a non-empty text
    without separators, or the registry default of the trait. *)
Definition plain (t : Trait) (v : Value) : Prop :=
  (exists s, v = VStr s /\ clean s = true /\ s <> "") \/ v = defaultValue t.

(** The genotype holding the given values for the registry keys, in
    registry order. *)
Definition genotype_of (vs : list Value) : Obj.t Value :=
  combine (Obj.keys GENE_TRAITS) vs.

(** The numbers [createRandomPlant] can draw for a quantitative trait,
    and the values it can draw for a trait. *)
Definition drawable (g : Gene.Quantitative) : list Js.Num :=
  map (fun i => Js.add (Js.of_Z (Z.of_nat i)) (Js.Fin (Gene.min g)))
      (seq 0 (Z.to_nat (Qceiling (Gene.max g - Gene.min g + inject_Z 1)))).

Definition drawn (t : Trait) : list Value :=
  match t with
  | qualitative g =>
      let alleleKeys := Obj.keys (Gene.alleles g) in
      flat_map (fun a => map (fun b => VStr (a ++ b)) alleleKeys) alleleKeys
  | quantitative g => map doubled (drawable g)
  end.

(** A non-empty text without separators. *)
Definition plain_text (v : Value) : bool :=
  match v with
  | VStr s => (clean s && negb (String.eqb s ""))%bool
  | _ => false
  end.

(** The growth rate a value of the Growth Rate gene resolves to is 1. *)
Definition growth_one (v : Value) : bool :=
  match numeric_value Traits.GR v with
  | Js.Fin q => Qeq_bool q 1
  | Js.NaN => false
  end.

(** Every value that can be drawn for a trait is a plain text; it
    conforms to the trait, except for the Growth Rate, where it is one of
    two six-character texts that resolve to the growth rate 1. *)
Definition drawn_check (e : string * Trait) : bool :=
  forallb (fun v =>
             (plain_text v
              && if String.eqb (fst e) "GR"
                 then (existsb (fun s => String.eqb (Val.toString v) s)
                               ["0.50.5"; "1.51.5"]
                       && growth_one v)
                 else value_conforms (snd e) v)%bool)
          (drawn (snd e)).

(** ** Offspring *)

(** The characters of a gene value held as text. *)
Definition chars_of (v : Value) : list string :=
  match v with
  | VStr s => map Js.str1 (list_ascii_of_string s)
  | _ => []
  end.

(** An allele an offspring can receive on the side of one parent: a
    character of the parent's gene, or an allele key of the trait. *)
Definition allele_from (g : Gene.Qualitative) (parent : Value) (x : string)
  : Prop :=
  In x (chars_of parent) \/ In x (Obj.keys (Gene.alleles g)).

(** What a cross can give for a trait both parents have a gene for. *)
Definition bred (t : Trait) (a b v : Value) : Prop :=
  match t with
  | qualitative g =>
      exists x y, v = VStr (x ++ y) /\ allele_from g a x /\ allele_from g b y
  | quantitative g => exists n, In n (candidates g) /\ v = doubled n
  end.

(** Every number a quantitative trait can be clamped to prints, doubled,
    as a plain text; it conforms to the trait, except for the Growth
    Rate, where it resolves to the growth rate 1.  Every allele key is a
    single character other than a separator. *)
Definition bred_check (e : string * Trait) : bool :=
  match snd e with
  | qualitative g =>
      forallb (fun k => match k with
                        | String c EmptyString => clean k
                        | _ => false
                        end)
              (Obj.keys (Gene.alleles g))
  | quantitative g =>
      forallb (fun n =>
                 (plain_text (doubled n)
                  && if String.eqb (fst e) "GR" then growth_one (doubled n)
                     else value_conforms (snd e) (doubled n))%bool)
              (candidates g)
  end.

(** The same plant with another health. *)
Definition with_health (p : Plant) (h : Js.Num) : Plant :=
  mkPlant (genes p) (phenotype p) (progress p) h (ready p) (watered p).

(** ** Harvests of grown plants *)

(** The plant built from a sequence after ten updates with all the water
    it needs, no pest and no weather event. *)
Definition grown (sequence : string) : Plant :=
  fst (update_n 10 (plant_of_sequence sequence)
                (Some (Js.of_Z 100)) false None still_world).

(** The coins a harvest pays, [None] when it pays none. *)
Definition paid (p : Plant) : option Js.Num :=
  match fst (fst (harvest p still_world)) with
  | Returned r => option_map coins (rewards r)
  | Thrown => None
  end.

(** The homozygous traits as the specification counts them: the trait
    keys of the registry whose value is a two-character string with both
    characters equal.  The code counts with [homozygousCount], over every
    entry of the genotype. *)
Definition homozygous_traits (g : Obj.t Value) : Z :=
  Z.of_nat
    (List.length
       (filter (fun key => equal_pair (gene_at g key))
               (Obj.keys GENE_TRAITS))).

(** * Properties *)

Open Scope list_scope.

(** ** The model on the sequences of the source *)

Example number_printing :
  Js.toString (Js.Fin 0.5) = "0.5" /\ Js.toString (Js.Fin 1.0) = "1"
  /\ Js.toString (Js.Fin 1.5) = "1.5" /\ Js.toString (Js.of_Z 0) = "0"
  /\ Js.toString (Js.of_Z (-12)) = "-12".
Proof. repeat split; reflexivity. Qed.

Example parseInt_cases :
  Js.parseInt " -12x" = Js.of_Z (-12) /\ Js.parseInt "x1" = Js.NaN
  /\ Js.parseInt "" = Js.NaN /\ Js.parseInt "08" = Js.of_Z 8.
Proof. repeat split; reflexivity. Qed.

Example split_cases :
  Js.split "-" "FC:RB-SZ:33-" = ["FC:RB"; "SZ:33"; ""]
  /\ Js.split "-" "" = [""] /\ Js.split ":" "a:b:c" = ["a"; "b"; "c"].
Proof. repeat split; reflexivity. Qed.

Example default_sequence :
  generateDefaultGeneSequence = "FC:WW-SZ:3-LS:11-BP:1-GR:1-YD:3-RS:2-WN:2".
Proof. reflexivity. Qed.

(** Keys that are array indices are enumerated first, in numeric order;
    a registered key without a value falls back to its default. *)
Example key_order :
  parseGeneSequence "FC:RB-12:zz-XX:1-toString:ab-3:q-SZ"
  = [("3", VStr "00"); ("12", VStr "00"); ("FC", VStr "RB");
     ("XX", VStr "00"); ("toString", VStr "ab"); ("SZ", VNum (Js.Fin 3));
     ("LS", VStr "11"); ("BP", VNum (Js.Fin 1)); ("GR", VNum (Js.Fin 1.0));
     ("YD", VNum (Js.Fin 3)); ("RS", VNum (Js.Fin 2));
     ("WN", VNum (Js.Fin 2))].
Proof. vm_compute. reflexivity. Qed.

(** The carrot preset of [createStarterPlant]. *)
Example carrot :
  let ph :=
    phenotype_of
      (parseGeneSequence "FC:RY-SZ:22-LS:33-BP:11-GR:12-YD:44-RS:22-WN:22") in
  Obj.get ph "FC" = Some (PhAllele (blend "Orange" "#FF9955"))
  /\ field (Obj.get ph "SZ") "value" = Some (Js.of_Z 2)
  /\ field (Obj.get ph "YD") "value" = Some (Js.of_Z 4)
  /\ field (Obj.get ph "YD") "coinMultiplier" = Some (Js.Fin 1.2)
  /\ field (Obj.get ph "GR") "value" = Some (Js.Fin 1.5)
  /\ field (Obj.get ph "GR") "daysToMature" = Some (Js.of_Z 5)
  /\ field (Obj.get ph "WN") "effectiveWaterPerDay" = Some (Js.of_Z 18).
Proof. repeat split; vm_compute; reflexivity. Qed.

(** ** Plain objects *)

Section ObjFacts.
Context {A : Type}.
Implicit Types (o : Obj.t A) (k : string) (v : A).

Lemma has_get o k : Obj.has o k = true <-> exists v, Obj.get o k = Some v.
Proof.
  unfold Obj.has. destruct (Obj.get o k) as [v|]; split; intros H.
  - now exists v.
  - reflexivity.
  - discriminate.
  - destruct H as [v H]. discriminate.
Qed.

Lemma has_false_get o k : Obj.has o k = false <-> Obj.get o k = None.
Proof.
  unfold Obj.has. destruct (Obj.get o k); split; intros H;
    try reflexivity; discriminate.
Qed.

Lemma get_In o k v : Obj.get o k = Some v -> In (k, v) o.
Proof.
  induction o as [|[k' v'] o IH]; simpl; [discriminate|].
  destruct (String.eqb_spec k k') as [->|Hne]; intros H.
  - left. congruence.
  - right. auto.
Qed.

Lemma get_None_keys o k : Obj.get o k = None <-> ~ In k (Obj.keys o).
Proof.
  induction o as [|[k' v'] o IH]; simpl.
  - tauto.
  - destruct (String.eqb_spec k k') as [->|Hne].
    + split; [discriminate | intros H; exfalso; apply H; now left].
    + rewrite IH. split; intros H; [intros [E|I]; [congruence | tauto] | tauto].
Qed.

Lemma has_keys o k : Obj.has o k = true <-> In k (Obj.keys o).
Proof.
  destruct (Obj.has o k) eqn:E.
  - split; [intros _ | reflexivity].
    destruct (in_dec string_dec k (Obj.keys o)) as [I|N]; [exact I|].
    apply get_None_keys in N. apply has_false_get in N. congruence.
  - split; [discriminate | intros I].
    apply has_false_get in E. apply get_None_keys in E. contradiction.
Qed.

Lemma In_get o k v : NoDup (Obj.keys o) -> In (k, v) o -> Obj.get o k = Some v.
Proof.
  induction o as [|[k' v'] o IH]; simpl; [tauto|].
  intros ND [E|I].
  - inversion E; subst. now rewrite String.eqb_refl.
  - inversion ND as [|? ? Hnot ND']; subst.
    destruct (String.eqb_spec k k') as [->|Hne]; [|auto].
    exfalso. apply Hnot. change (In (fst (k', v)) (map fst o)).
    now apply in_map.
Qed.

Lemma get_replace_same o k v :
  Obj.get (Obj.replace k v o) k = if Obj.has o k then Some v else None.
Proof.
  unfold Obj.has. induction o as [|[k' v'] o IH]; simpl; [reflexivity|].
  destruct (String.eqb_spec k k') as [->|Hne]; simpl.
  - now rewrite String.eqb_refl.
  - destruct (String.eqb_spec k k'); [contradiction | exact IH].
Qed.

Lemma get_replace_other o k k' v :
  k' <> k -> Obj.get (Obj.replace k v o) k' = Obj.get o k'.
Proof.
  intros Hne. induction o as [|[k0 v0] o IH]; simpl; [reflexivity|].
  destruct (String.eqb_spec k k0) as [->|Hk]; simpl.
  - destruct (String.eqb_spec k' k0); [contradiction | reflexivity].
  - destruct (String.eqb_spec k' k0); [reflexivity | exact IH].
Qed.

Lemma keys_replace o k v : Obj.keys (Obj.replace k v o) = Obj.keys o.
Proof.
  induction o as [|[k0 v0] o IH]; simpl; [reflexivity|].
  destruct (String.eqb_spec k k0) as [->|Hk]; simpl; [reflexivity|].
  f_equal. exact IH.
Qed.

Lemma get_insert_index_same n o k v :
  Obj.get o k = None -> Obj.get (Obj.insert_index n k v o) k = Some v.
Proof.
  induction o as [|[k0 v0] o IH]; simpl; intros H.
  - now rewrite String.eqb_refl.
  - destruct (String.eqb_spec k k0) as [->|Hk]; [discriminate|].
    destruct (Obj.array_index k0) as [m|]; [destruct (m <? n)|]; simpl;
      rewrite ?String.eqb_refl; try reflexivity.
    destruct (String.eqb_spec k k0); [contradiction | auto].
Qed.

Lemma get_insert_index_other n o k k' v :
  k' <> k -> Obj.get (Obj.insert_index n k v o) k' = Obj.get o k'.
Proof.
  intros Hne. induction o as [|[k0 v0] o IH]; simpl.
  - destruct (String.eqb_spec k' k); [contradiction | reflexivity].
  - destruct (Obj.array_index k0) as [m|]; [destruct (m <? n)|]; simpl;
      try (destruct (String.eqb_spec k' k); [contradiction | reflexivity]).
    destruct (String.eqb_spec k' k0); [reflexivity | exact IH].
Qed.

Lemma keys_insert_index n o k v k' :
  In k' (Obj.keys (Obj.insert_index n k v o)) <-> k' = k \/ In k' (Obj.keys o).
Proof.
  induction o as [|[k0 v0] o IH]; simpl.
  - intuition.
  - destruct (Obj.array_index k0) as [m|]; [destruct (m <? n)|]; simpl;
      try rewrite IH; intuition.
Qed.

Lemma NoDup_insert_index n o k v :
  ~ In k (Obj.keys o) -> NoDup (Obj.keys o) ->
  NoDup (Obj.keys (Obj.insert_index n k v o)).
Proof.
  induction o as [|[k0 v0] o IH]; simpl; intros Hk ND.
  - constructor; [tauto | constructor].
  - inversion ND as [|? ? Hnot ND']; subst.
    destruct (Obj.array_index k0) as [m|]; [destruct (m <? n)|]; simpl;
      try (constructor; [simpl; exact Hk | exact ND]).
    constructor.
    + rewrite keys_insert_index. intros [E|I]; [apply Hk; now left | tauto].
    + apply IH; [tauto | exact ND'].
Qed.

Lemma get_app o o' k :
  Obj.get (o ++ o') k =
  match Obj.get o k with Some v => Some v | None => Obj.get o' k end.
Proof.
  induction o as [|[k0 v0] o IH]; simpl; [reflexivity|].
  destruct (String.eqb k k0); [reflexivity | exact IH].
Qed.

Lemma get_set_same o k v : Obj.get (Obj.set o k v) k = Some v.
Proof.
  unfold Obj.set. destruct (Obj.has o k) eqn:E.
  - now rewrite get_replace_same, E.
  - apply has_false_get in E.
    destruct (Obj.array_index k).
    + now apply get_insert_index_same.
    + rewrite get_app, E. simpl. now rewrite String.eqb_refl.
Qed.

Lemma get_set_other o k k' v :
  k' <> k -> Obj.get (Obj.set o k v) k' = Obj.get o k'.
Proof.
  intros Hne. unfold Obj.set. destruct (Obj.has o k).
  - now apply get_replace_other.
  - destruct (Obj.array_index k).
    + now apply get_insert_index_other.
    + rewrite get_app. simpl.
      destruct (String.eqb_spec k' k); [contradiction|].
      now destruct (Obj.get o k').
Qed.

Lemma keys_set o k v k' :
  In k' (Obj.keys (Obj.set o k v)) <-> k' = k \/ In k' (Obj.keys o).
Proof.
  unfold Obj.set. destruct (Obj.has o k) eqn:E.
  - rewrite keys_replace. apply has_keys in E.
    split; [tauto | intros [->|I]; assumption].
  - destruct (Obj.array_index k).
    + apply keys_insert_index.
    + unfold Obj.keys. rewrite map_app, in_app_iff. simpl. intuition.
Qed.

Lemma NoDup_set o k v :
  NoDup (Obj.keys o) -> NoDup (Obj.keys (Obj.set o k v)).
Proof.
  intros ND. unfold Obj.set. destruct (Obj.has o k) eqn:E.
  - now rewrite keys_replace.
  - apply has_false_get in E. apply get_None_keys in E.
    destruct (Obj.array_index k).
    + now apply NoDup_insert_index.
    + unfold Obj.keys. rewrite map_app. simpl.
      apply NoDup_app; [exact ND | constructor; [tauto | constructor] |].
      intros x Hx [<-|[]]. exact (E Hx).
Qed.

End ObjFacts.

(** ** The registry *)

Lemma lookup_own key t :
  lookup_trait key = Own t <-> Obj.get GENE_TRAITS key = Some t.
Proof.
  unfold lookup_trait. destruct (Obj.get GENE_TRAITS key) as [t'|].
  - split; intros H; congruence.
  - split; [destruct (inherited key) |]; discriminate.
Qed.

(** Case analysis on a successful registry lookup [H]: one goal per
    registered trait, solved by [tac]. *)
Ltac each_trait H tac :=
  apply get_In in H; simpl in H;
  repeat (destruct H as [H|H]; [inversion H; subst; clear H; tac|]);
  destruct H.

Lemma registry_defaults_truthy key t :
  Obj.get GENE_TRAITS key = Some t -> Val.truthy (defaultValue t) = true.
Proof. intros H. each_trait H ltac:(reflexivity). Qed.

Lemma registry_ranges key g :
  Obj.get GENE_TRAITS key = Some (quantitative g) ->
  (Gene.min g <= Gene.max g)%Q.
Proof. intros H. each_trait H ltac:(now apply Qle_bool_iff). Qed.

(** ** Parsing *)

Lemma parse_segment_NoDup genes segment :
  NoDup (Obj.keys genes) -> NoDup (Obj.keys (parse_segment genes segment)).
Proof.
  intros ND. unfold parse_segment.
  destruct (lookup_trait _); [| destruct (String.eqb _ _) |];
    auto using NoDup_set.
Qed.

Lemma parse_segments_NoDup segments : forall genes,
  NoDup (Obj.keys genes) ->
  NoDup (Obj.keys (fold_left parse_segment segments genes)).
Proof.
  induction segments as [|s segments IH]; simpl; intros genes ND; [exact ND|].
  apply IH. now apply parse_segment_NoDup.
Qed.

Lemma fill_missing_NoDup genes e :
  NoDup (Obj.keys genes) -> NoDup (Obj.keys (fill_missing genes e)).
Proof.
  intros ND. destruct e as [key trait]. unfold fill_missing.
  destruct (Val.truthy _); auto using NoDup_set.
Qed.

Lemma fill_all_NoDup traits : forall genes,
  NoDup (Obj.keys genes) ->
  NoDup (Obj.keys (fold_left fill_missing traits genes)).
Proof.
  induction traits as [|e traits IH]; simpl; intros genes ND; [exact ND|].
  apply IH. now apply fill_missing_NoDup.
Qed.

Lemma parseGeneSequence_NoDup sequence :
  NoDup (Obj.keys (parseGeneSequence sequence)).
Proof.
  unfold parseGeneSequence. apply fill_all_NoDup, parse_segments_NoDup.
  constructor.
Qed.

Lemma gene_at_set_same genes k v : gene_at (Obj.set genes k v) k = v.
Proof. unfold gene_at. now rewrite get_set_same. Qed.

Lemma gene_at_set_other genes k k' v :
  k' <> k -> gene_at (Obj.set genes k v) k' = gene_at genes k'.
Proof. intros H. unfold gene_at. now rewrite get_set_other. Qed.

(** Filling in a default never makes a truthy slot falsy. *)
Lemma fill_missing_keeps genes e k :
  Val.truthy (defaultValue (snd e)) = true ->
  Val.truthy (gene_at genes k) = true ->
  Val.truthy (gene_at (fill_missing genes e) k) = true.
Proof.
  destruct e as [key trait]. simpl. intros Hd Hk. unfold fill_missing.
  destruct (Val.truthy (gene_at genes key)) eqn:E; [exact Hk|].
  destruct (String.eqb_spec k key) as [->|Hne].
  - now rewrite gene_at_set_same.
  - now rewrite gene_at_set_other.
Qed.

Lemma fill_all_keeps traits : forall genes k,
  (forall e, In e traits -> Val.truthy (defaultValue (snd e)) = true) ->
  Val.truthy (gene_at genes k) = true ->
  Val.truthy (gene_at (fold_left fill_missing traits genes) k) = true.
Proof.
  induction traits as [|e traits IH]; simpl; intros genes k Hd Hk; [exact Hk|].
  apply IH; [intros; apply Hd; now right|].
  apply fill_missing_keeps; [apply Hd; now left | exact Hk].
Qed.

Lemma fill_all_fills traits : forall genes k t,
  (forall e, In e traits -> Val.truthy (defaultValue (snd e)) = true) ->
  In (k, t) traits ->
  Val.truthy (gene_at (fold_left fill_missing traits genes) k) = true.
Proof.
  induction traits as [|e traits IH]; simpl; intros genes k t Hd HI;
    [destruct HI|]. destruct HI as [E|I].
  - subst e. apply fill_all_keeps; [intros; apply Hd; now right|].
    unfold fill_missing.
    destruct (Val.truthy (gene_at genes k)) eqn:Hk; [exact Hk|].
    rewrite gene_at_set_same. apply (Hd (k, t)). now left.
  - eapply IH; [intros; apply Hd; now right | exact I].
Qed.

Lemma registry_entries_truthy e :
  In e GENE_TRAITS -> Val.truthy (defaultValue (snd e)) = true.
Proof.
  intros H. destruct e as [k t]. simpl.
  apply (registry_defaults_truthy k). apply In_get; [|exact H].
  repeat constructor; simpl; intuition discriminate.
Qed.

(** Every registered trait has a truthy entry in a parsed genotype. *)
Lemma parseGeneSequence_registered sequence key t :
  Obj.get GENE_TRAITS key = Some t ->
  Val.truthy (gene_at (parseGeneSequence sequence) key) = true.
Proof.
  intros H. unfold parseGeneSequence.
  eapply fill_all_fills; [exact registry_entries_truthy|].
  apply get_In. exact H.
Qed.

Lemma parsed_entry_defined sequence key v t :
  In (key, v) (parseGeneSequence sequence) ->
  Obj.get GENE_TRAITS key = Some t -> v <> VUndef.
Proof.
  intros I H E. subst v.
  pose proof (parseGeneSequence_registered sequence key t H) as T.
  apply In_get in I; [|apply parseGeneSequence_NoDup].
  unfold gene_at in T. rewrite I in T. discriminate.
Qed.

(** ** Resolving the phenotype *)

Lemma resolve_fold_None genes : fold_left resolve_gene genes None = None.
Proof. induction genes as [|e genes IH]; simpl; [reflexivity | exact IH]. Qed.

Lemma resolve_qualitative_defined g value :
  value <> VUndef -> exists p, resolve_qualitative g value = Some p.
Proof.
  intros Hv. unfold resolve_qualitative.
  destruct value as [|s|n]; [congruence| |].
  all: repeat match goal with
              | |- exists p, Some _ = Some p => eexists; reflexivity
              | |- exists p, match ?x with _ => _ end = Some p => destruct x
              end.
Qed.

Lemma resolve_gene_defined ph0 key value :
  (forall g, Obj.get GENE_TRAITS key = Some (qualitative g) -> value <> VUndef) ->
  exists ph1, resolve_gene (Some ph0) (key, value) = Some ph1.
Proof.
  intros Hdef. unfold resolve_gene.
  destruct (lookup_trait key) as [[g|g]| |] eqn:L; eauto.
  apply lookup_own in L.
  destruct (resolve_qualitative_defined g value (Hdef g L)) as [p ->]. eauto.
Qed.

(** Resolution raises only on an [undefined] qualitative gene. *)
Lemma resolve_fold_total genes :
  (forall key value g,
     In (key, value) genes ->
     Obj.get GENE_TRAITS key = Some (qualitative g) -> value <> VUndef) ->
  forall ph0, exists ph, fold_left resolve_gene genes (Some ph0) = Some ph.
Proof.
  induction genes as [|[key value] genes IH]; intros Hdef ph0.
  - now exists ph0.
  - cbn [fold_left].
    destruct (resolve_gene_defined ph0 key value) as [ph1 ->].
    + intros g. apply Hdef. now left.
    + apply IH. intros k v g I. apply Hdef. now right.
Qed.

Lemma calculatePhenotype_parsed sequence :
  exists ph, calculatePhenotype (parseGeneSequence sequence) = Some ph.
Proof.
  destruct (resolve_fold_total (parseGeneSequence sequence)) with (ph0 := @nil (string * Pheno))
    as [ph Hph].
  - intros key value g I H. eapply parsed_entry_defined; eauto.
  - unfold calculatePhenotype.
    destruct (fold_left resolve_gene _ _) as [ph'|]; [eauto | discriminate].
Qed.

(** The constructor never raises. *)
Lemma new_Plant_total geneSequence : exists p, new_Plant geneSequence = Some p.
Proof.
  unfold new_Plant.
  match goal with
  | |- context [parseGeneSequence ?s] =>
      destruct (calculatePhenotype_parsed s) as [ph Hph]; rewrite Hph
  end.
  eauto.
Qed.

(** After the loop, a quantitative key of the genotype holds the object
    built from one of its values. *)
Lemma resolve_fold_quant genes : forall ph0 ph key gene,
  fold_left resolve_gene genes (Some ph0) = Some ph ->
  Obj.get GENE_TRAITS key = Some (quantitative gene) ->
  (exists value, In (key, value) genes
                 /\ Obj.get ph key = Some (resolve_quantitative gene value))
  \/ (~ In key (Obj.keys genes) /\ Obj.get ph key = Obj.get ph0 key).
Proof.
  induction genes as [|[k v] genes IH]; intros ph0 ph key gene Hf Hk.
  - right. cbn in Hf. split; [intros [] | congruence].
  - cbn [fold_left] in Hf.
    destruct (resolve_gene (Some ph0) (k, v)) as [ph1|] eqn:E1;
      [|rewrite resolve_fold_None in Hf; discriminate].
    destruct (IH ph1 ph key gene Hf Hk) as [[value [I G]]|[N G]].
    + left. exists value. split; [now right | exact G].
    + unfold resolve_gene in E1.
      destruct (String.eqb_spec k key) as [->|Hne].
      * left. exists v. split; [now left|].
        apply lookup_own in Hk. rewrite Hk in E1. inversion E1; subst.
        rewrite G. apply get_set_same.
      * right. split; [intros [?|?]; [cbn in *; congruence | tauto]|].
        rewrite G.
        destruct (lookup_trait k) as [[g|g]| |];
          [destruct (resolve_qualitative g v)| | |];
          inversion E1; subst; try reflexivity;
          apply get_set_other; congruence.
Qed.

(** Writes to one field of one trait. *)
Lemma get_set_field_other ph key f v k :
  k <> key -> Obj.get (set_field ph key f v) k = Obj.get ph k.
Proof.
  intros Hne. unfold set_field.
  destruct (Obj.get ph key) as [[| |o]|]; try reflexivity.
  now apply get_set_other.
Qed.

Lemma get_set_field_same ph key f v o :
  Obj.get ph key = Some (PhQuant o) ->
  Obj.get (set_field ph key f v) key = Some (PhQuant (Obj.set o f v)).
Proof.
  intros H. unfold set_field. rewrite H. apply get_set_same.
Qed.

Lemma field_set_field_other ph key f v k f' :
  f' <> f ->
  field (Obj.get (set_field ph key f v) k) f' = field (Obj.get ph k) f'.
Proof.
  intros Hf. destruct (String.eqb_spec k key) as [->|Hne].
  - unfold set_field.
    destruct (Obj.get ph key) as [[| |o]|] eqn:E; rewrite ?E; try reflexivity.
    rewrite get_set_same. simpl. now rewrite get_set_other.
  - now rewrite get_set_field_other.
Qed.

Lemma field_set_field_same ph key f v o :
  Obj.get ph key = Some (PhQuant o) ->
  field (Obj.get (set_field ph key f v) key) f = v.
Proof.
  intros H. rewrite (get_set_field_same _ _ _ _ o H). simpl.
  now rewrite get_set_same.
Qed.

Lemma pheno_truthy_set_field ph key f v k :
  pheno_truthy (Obj.get (set_field ph key f v) k) = pheno_truthy (Obj.get ph k).
Proof.
  destruct (String.eqb_spec k key) as [->|Hne].
  - unfold set_field.
    destruct (Obj.get ph key) as [[| |o]|] eqn:E; rewrite ?E; try reflexivity.
    now rewrite get_set_same.
  - now rewrite get_set_field_other.
Qed.

(** ** Numbers *)

Lemma or_Fin a q : exists r, Js.or a (Js.Fin q) = Js.Fin r.
Proof.
  unfold Js.or. destruct a as [|x]; simpl; [eauto|].
  destruct (negb (Qeq_bool x 0)); eauto.
Qed.

Lemma Qle_bool_false x y : Qle_bool x y = false -> (y < x)%Q.
Proof.
  intros H. apply Qnot_le_lt. intros L. apply Qle_bool_iff in L. congruence.
Qed.

(** Clamping a number into a non-empty range. *)
Lemma clamp_range lo hi x :
  (lo <= hi)%Q ->
  exists q, Js.max (Js.Fin lo) (Js.min (Js.Fin hi) (Js.Fin x)) = Js.Fin q
            /\ (lo <= q)%Q /\ (q <= hi)%Q /\ (q = lo \/ q = hi \/ q = x).
Proof.
  intros Hr. simpl.
  destruct (Qle_bool hi x) eqn:E1.
  - destruct (Qle_bool lo hi) eqn:E2.
    + exists hi. repeat split; auto using Qle_refl.
    + apply Qle_bool_iff in Hr. congruence.
  - apply Qle_bool_false in E1.
    destruct (Qle_bool lo x) eqn:E2.
    + exists x. apply Qle_bool_iff in E2.
      repeat split; auto using Qlt_le_weak.
    + exists lo. repeat split; auto using Qle_refl.
Qed.

Lemma parseInt_shape s : Js.parseInt s = Js.NaN \/ exists z, Js.parseInt s = Js.of_Z z.
Proof.
  unfold Js.parseInt.
  destruct (match Js.skip_space s with
            | String "-" r => (true, r)
            | String "+" r => (false, r)
            | _ => (false, Js.skip_space s)
            end) as [neg r].
  destruct (Js.digits None r); eauto.
Qed.

(** The number averaged or parsed from a gene value, before clamping. *)
Lemma unclamped_shape gene value :
  let lo := Js.Fin (Gene.min gene) in
  exists x,
    (if Val.is_string_of_length value 2 then
       Js.round
         (Js.div
            (Js.add (Js.or (Js.parseInt (key_of_char (Val.index value 0))) lo)
                    (Js.or (Js.parseInt (key_of_char (Val.index value 1))) lo))
            (Js.of_Z 2))
     else Js.or (Js.parseInt (Val.toString value))
                (Js.Fin (Gene.quant_default gene))) = Js.Fin x
    /\ (x = Gene.quant_default gene \/ exists z, x = inject_Z z).
Proof.
  intros lo. subst lo. destruct (Val.is_string_of_length value 2).
  - destruct (or_Fin (Js.parseInt (key_of_char (Val.index value 0))) (Gene.min gene))
      as [a1 ->].
    destruct (or_Fin (Js.parseInt (key_of_char (Val.index value 1))) (Gene.min gene))
      as [a2 ->].
    simpl. eauto.
  - destruct (parseInt_shape (Val.toString value)) as [->|[z ->]].
    + eexists. split; [reflexivity | now left].
    + unfold Js.or. destruct (Js.truthy (Js.of_Z z)); unfold Js.of_Z;
        eexists; (split; [reflexivity|]); [right; eauto | now left].
Qed.

(** The resolved value is a number of the trait range: one of its bounds,
    its default, or an integer. *)
Lemma numeric_value_shape gene value :
  (Gene.min gene <= Gene.max gene)%Q ->
  exists q, numeric_value gene value = Js.Fin q
            /\ (Gene.min gene <= q)%Q /\ (q <= Gene.max gene)%Q
            /\ (q = Gene.min gene \/ q = Gene.max gene
                \/ q = Gene.quant_default gene \/ exists z, q = inject_Z z).
Proof.
  intros Hr. unfold numeric_value.
  destruct (unclamped_shape gene value) as [x [-> Hx]].
  destruct (clamp_range _ _ x Hr) as [q [-> [H1 [H2 H3]]]].
  exists q. repeat split; auto.
  destruct H3 as [-> | [-> | ->]]; auto.
Qed.

(** ** Trait interactions *)

Lemma get_growth_size ph k : k <> "GR" -> Obj.get (growth_size ph) k = Obj.get ph k.
Proof.
  intros Hk. unfold growth_size.
  destruct (_ && _)%bool; [|reflexivity].
  now rewrite !get_set_field_other.
Qed.

Lemma get_water_size ph k : k <> "WN" -> Obj.get (water_size ph) k = Obj.get ph k.
Proof.
  intros Hk. unfold water_size.
  destruct (_ && _)%bool; [|reflexivity].
  now rewrite !get_set_field_other.
Qed.

Lemma get_growth_resistance ph k :
  k <> "RS" -> Obj.get (growth_resistance ph) k = Obj.get ph k.
Proof.
  intros Hk. unfold growth_resistance.
  destruct (_ && _)%bool; [|destruct (pheno_truthy _)]; try reflexivity;
    now rewrite !get_set_field_other.
Qed.

(** The interactions leave every field they do not derive as it was. *)
Lemma interactions_keep_field genes ph k f :
  ~ In f ["effectiveValue"; "daysToMature"; "effectiveWaterPerDay";
          "effectivePestDamageChance"; "effectiveCoinMultiplier"] ->
  field (Obj.get (calculateTraitInteractions genes ph) k) f
  = field (Obj.get ph k) f.
Proof.
  intros Hf.
  assert (H1 : f <> "effectiveValue") by (intros ->; apply Hf; simpl; tauto).
  assert (H2 : f <> "daysToMature") by (intros ->; apply Hf; simpl; tauto).
  assert (H3 : f <> "effectiveWaterPerDay") by (intros ->; apply Hf; simpl; tauto).
  assert (H4 : f <> "effectivePestDamageChance") by (intros ->; apply Hf; simpl; tauto).
  assert (H5 : f <> "effectiveCoinMultiplier") by (intros ->; apply Hf; simpl; tauto).
  unfold calculateTraitInteractions, inbreeding, growth_resistance, water_size,
    growth_size.
  repeat match goal with
         | |- context [if ?c then _ else _] => destruct c
         end;
    repeat rewrite field_set_field_other by assumption; reflexivity.
Qed.

Lemma is_homozygous_equal_pair v : is_homozygous v = equal_pair v.
Proof.
  destruct v as [|s|n]; try reflexivity.
  destruct s as [|a [|b [|c s]]]; reflexivity.
Qed.

Lemma homozygousCount_equal_pairs genes :
  homozygousCount genes = equal_pairs genes.
Proof.
  unfold homozygousCount, equal_pairs. do 2 f_equal.
  apply filter_ext. intros e. apply is_homozygous_equal_pair.
Qed.

(** ** The value maps of the registry *)

Lemma get_fold_set_other (fields : Props) : forall (o : Props) f,
  ~ In f (Obj.keys fields) ->
  Obj.get (fold_left (fun o e => Obj.set o (fst e) (snd e)) fields o) f
  = Obj.get o f.
Proof.
  induction fields as [|[k v] fields IH]; intros o f Hf; [reflexivity|].
  cbn [fold_left fst snd]. rewrite IH.
  - apply get_set_other. intros ->. apply Hf. now left.
  - intros I. apply Hf. now right.
Qed.

Lemma get_spread_other n entry f :
  ~ In f (Obj.keys (match entry with Some fields => fields | None => [] end)) ->
  Obj.get (spread_value n entry) f = Obj.get [("value", Some n)] f.
Proof. intros Hf. unfold spread_value. now apply get_fold_set_other. Qed.

Lemma registry_entries_no_value key gene k fields :
  Obj.get GENE_TRAITS key = Some (quantitative gene) ->
  Obj.get (Gene.valueMap gene) k = Some fields ->
  ~ In "value" (Obj.keys fields).
Proof.
  intros H Hk. apply get_In in Hk.
  each_trait H
    ltac:(simpl in Hk;
          repeat (destruct Hk as [Hk|Hk];
                  [inversion Hk; subst; simpl; intuition discriminate|]);
          destruct Hk).
Qed.

Lemma resolve_quantitative_value key gene value :
  Obj.get GENE_TRAITS key = Some (quantitative gene) ->
  field (Some (resolve_quantitative gene value)) "value"
  = Some (numeric_value gene value).
Proof.
  intros H. unfold resolve_quantitative, field.
  rewrite get_spread_other; [reflexivity|].
  destruct (Obj.get (Gene.valueMap gene) _) as [fields|] eqn:E.
  - eapply registry_entries_no_value; eauto.
  - intros [].
Qed.

(** ** Quantitative traits *)

Lemma parsed_has_registered sequence key t :
  Obj.get GENE_TRAITS key = Some t ->
  In key (Obj.keys (parseGeneSequence sequence)).
Proof.
  intros H. apply has_keys, has_get.
  pose proof (parseGeneSequence_registered sequence key t H) as T.
  unfold gene_at in T.
  destruct (Obj.get (parseGeneSequence sequence) key) as [v|];
    [eauto | discriminate].
Qed.

Lemma resolved_value_in_range genes ph key gene :
  calculatePhenotype genes = Some ph ->
  Obj.get GENE_TRAITS key = Some (quantitative gene) ->
  In key (Obj.keys genes) ->
  exists v, field (Obj.get ph key) "value" = Some (Js.Fin v)
            /\ (Gene.min gene <= v <= Gene.max gene)%Q.
Proof.
  intros Hph Hkey Hin. unfold calculatePhenotype in Hph.
  destruct (fold_left resolve_gene genes (Some [])) as [ph0|] eqn:Hfold;
    [|discriminate].
  inversion Hph; subst ph; clear Hph.
  rewrite interactions_keep_field by (simpl; intuition discriminate).
  destruct (resolve_fold_quant genes _ _ key gene Hfold Hkey)
    as [[value [_ G]]|[N _]]; [|contradiction].
  rewrite G, (resolve_quantitative_value key) by exact Hkey.
  destruct (numeric_value_shape gene value (registry_ranges key gene Hkey))
    as [q [-> [H1 [H2 _]]]].
  exists q. auto.
Qed.

(** C3.  Whatever a genotype holds for a quantitative trait (well-formed
    digits, malformed or non-numeric text, out-of-range digits, a number or
    [undefined]), the [value] field of the resolved trait is a number of the
    inclusive range [[min, max]] of the trait.  This holds for every
    genotype whose resolution returns, and the genotype parsed from any
    sequence does resolve, with every quantitative trait present. *)
Theorem quantitative_value_in_range :
  (forall genes ph key gene,
     calculatePhenotype genes = Some ph ->
     Obj.get GENE_TRAITS key = Some (quantitative gene) ->
     In key (Obj.keys genes) ->
     exists v, field (Obj.get ph key) "value" = Some (Js.Fin v)
               /\ (Gene.min gene <= v <= Gene.max gene)%Q)
  /\ (forall sequence key gene,
        Obj.get GENE_TRAITS key = Some (quantitative gene) ->
        exists ph v,
          calculatePhenotype (parseGeneSequence sequence) = Some ph
          /\ field (Obj.get ph key) "value" = Some (Js.Fin v)
          /\ (Gene.min gene <= v <= Gene.max gene)%Q).
Proof.
  split; [exact resolved_value_in_range|].
  intros sequence key gene Hkey.
  destruct (calculatePhenotype_parsed sequence) as [ph Hph].
  destruct (resolved_value_in_range _ ph key gene Hph Hkey) as [v [H1 H2]].
  - eapply parsed_has_registered; eauto.
  - exists ph, v. auto.
Qed.

Lemma quantitative_value_in_range_witness :
  In "SZ" (Obj.keys (parseGeneSequence "SZ:9x-GR:zz"))
  /\ (exists v,
        field (Obj.get (phenotype_of (parseGeneSequence "SZ:9x-GR:zz")) "SZ")
              "value" = Some (Js.Fin v)
        /\ (1 <= v <= 5)%Q)
  /\ (exists ph v,
        calculatePhenotype (parseGeneSequence "GR:abc") = Some ph
        /\ field (Obj.get ph "GR") "value" = Some (Js.Fin v)
        /\ (0.5 <= v <= 1.5)%Q).
Proof.
  split; [vm_compute; tauto|]. split.
  - apply (proj1 quantitative_value_in_range
             (parseGeneSequence "SZ:9x-GR:zz")
             (phenotype_of (parseGeneSequence "SZ:9x-GR:zz")) "SZ" Traits.SZ).
    + vm_compute. reflexivity.
    + reflexivity.
    + vm_compute. tauto.
  - apply (proj2 quantitative_value_in_range "GR:abc" "GR" Traits.GR).
    reflexivity.
Defined.

(** C10.  In a two-character value of a quantitative trait the digit
    ['0'] parses to zero, which is falsy, so it contributes the minimum
    of the trait exactly as an unparsable character does.  Growth Rate
    ["10"] resolves to [round((1 + 0.5) / 2) = 1]; on Size ["04"] the
    minimum 1 gives 3 where a contribution of zero would give 2. *)
Theorem zero_digit_contributes_minimum :
  (forall lo, Js.or (Js.parseInt "0") (Js.Fin lo) = Js.Fin lo
              /\ Js.or (Js.parseInt "x") (Js.Fin lo) = Js.Fin lo)
  /\ (forall gene c,
        let lo := Js.Fin (Gene.min gene) in
        let other := Js.or (Js.parseInt (Js.str1 c)) lo in
        numeric_value gene (VStr (String c (String "0" "")))
        = clamp gene (Js.round (Js.div (Js.add other lo) (Js.of_Z 2)))
        /\ numeric_value gene (VStr (String "0" (String c "")))
           = clamp gene (Js.round (Js.div (Js.add lo other) (Js.of_Z 2))))
  /\ field (Obj.get (phenotype_of (parseGeneSequence "GR:10")) "GR") "value"
     = Some (Js.of_Z 1)
  /\ Js.round (Js.div (Js.add (Js.of_Z 1) (Js.Fin 0.5)) (Js.of_Z 2)) = Js.of_Z 1
  /\ field (Obj.get (phenotype_of (parseGeneSequence "SZ:04")) "SZ") "value"
     = Some (Js.of_Z 3)
  /\ Js.round (Js.div (Js.add (Js.of_Z 0) (Js.of_Z 4)) (Js.of_Z 2)) = Js.of_Z 2.
Proof.
  split; [intros lo; split; reflexivity|].
  split; [intros gene c; split; reflexivity|].
  repeat split; vm_compute; reflexivity.
Qed.

(** ** Qualitative traits *)

(** C1.  The blend table of Flower Color has an entry under ["RB"], but
    the lookup key is the two characters in code-unit order, ["BR"], so
    the entry is never found: genotype ["RB"] resolves by dominance to
    Red and ["BR"] to Blue.  A pair whose table key is already in
    code-unit order, such as ["RY"], does resolve to its blend in both
    orders. *)
Theorem blend_lookup_misses_RB :
  option_map (fun bm => Obj.get bm "RB") (Gene.blendMap Traits.FC)
  = Some (Some (blend "Purple" "#9955FF"))
  /\ option_map (fun bm => Obj.get bm "BR") (Gene.blendMap Traits.FC)
     = Some None
  /\ sorted_pair (Some "R"%char) (Some "B"%char) = "BR"
  /\ sorted_pair (Some "B"%char) (Some "R"%char) = "BR"
  /\ resolve_qualitative Traits.FC (VStr "RB")
     = Some (PhAllele (allele "Red" 2 "#FF5555"))
  /\ resolve_qualitative Traits.FC (VStr "BR")
     = Some (PhAllele (allele "Blue" 2 "#5555FF"))
  /\ Obj.get (phenotype_of (parseGeneSequence
                "FC:RB-SZ:33-LS:11-BP:11-GR:10-YD:33-RS:22-WN:22")) "FC"
     = Some (PhAllele (allele "Red" 2 "#FF5555"))
  /\ resolve_qualitative Traits.FC (VStr "RY")
     = Some (PhAllele (blend "Orange" "#FF9955"))
  /\ resolve_qualitative Traits.FC (VStr "YR")
     = Some (PhAllele (blend "Orange" "#FF9955")).
Proof.
  repeat split; vm_compute; reflexivity.
Qed.

(** No blend entry is found for a pair with an unrecognised character. *)
Lemma no_blend_for_unrecognised key gene a b :
  Obj.get GENE_TRAITS key = Some (qualitative gene) ->
  Obj.has (Gene.alleles gene) (Js.str1 a) = false
  \/ Obj.has (Gene.alleles gene) (Js.str1 b) = false ->
  match Gene.blendMap gene with
  | Some bm => Obj.get bm (sorted_pair (Some a) (Some b))
  | None => None
  end = None.
Proof.
  intros H Hun.
  destruct (match Gene.blendMap gene with
            | Some bm => Obj.get bm (sorted_pair (Some a) (Some b))
            | None => None
            end) as [x|] eqn:E; [exfalso | reflexivity].
  each_trait H
    ltac:(cbn [Gene.blendMap Traits.FC Traits.LS] in E;
          try discriminate E;
          apply get_In in E; unfold sorted_pair in E; simpl in E;
          destruct (Nat.ltb _ _);
          repeat (destruct E as [E|E];
                  [inversion E; subst;
                   destruct Hun as [Hun|Hun]; vm_compute in Hun;
                   discriminate Hun|]);
          destruct E).
Qed.

(** The heterozygous path: with two different characters of which one is
    not an allele of the trait, the phenotype is the first allele of the
    registry. *)
Lemma unrecognised_heterozygous_falls_back key gene a b :
  Obj.get GENE_TRAITS key = Some (qualitative gene) ->
  a <> b ->
  Obj.has (Gene.alleles gene) (Js.str1 a) = false
  \/ Obj.has (Gene.alleles gene) (Js.str1 b) = false ->
  resolve_qualitative gene (VStr (String a (String b "")))
  = Some (pheno_of (first_allele (Gene.alleles gene))).
Proof.
  intros H Hab Hun. unfold resolve_qualitative.
  cbn [Val.index Js.char_at String.get char_eqb].
  apply Ascii.eqb_neq in Hab. rewrite Hab.
  rewrite (no_blend_for_unrecognised key gene a b H Hun).
  cbn [key_of_char].
  destruct Hun as [Hun|Hun]; apply has_false_get in Hun; rewrite Hun;
    [reflexivity|].
  now destruct (Obj.get (Gene.alleles gene) (Js.str1 a)).
Qed.

(** C6.  With two different characters of which one is not an allele of
    the trait, the phenotype is the first allele of the registry (Red for
    Flower Color, Oval for Leaf Shape).  With the same unrecognised
    character twice the homozygous branch stores the failed lookup:
    the phenotype is [undefined]. *)
Theorem unrecognised_homozygous_is_undefined :
  resolve_qualitative Traits.FC (VStr "XX") = Some PhUndefined
  /\ resolve_qualitative Traits.LS (VStr "99") = Some PhUndefined
  /\ Obj.get (phenotype_of (parseGeneSequence "FC:XX")) "FC" = Some PhUndefined
  /\ first_allele (Gene.alleles Traits.FC) = Some (allele "Red" 2 "#FF5555")
  /\ resolve_qualitative Traits.FC (VStr "BX")
     = Some (PhAllele (allele "Red" 2 "#FF5555"))
  /\ resolve_qualitative Traits.FC (VStr "XB")
     = Some (PhAllele (allele "Red" 2 "#FF5555"))
  /\ resolve_qualitative Traits.LS (VStr "29")
     = Some (PhAllele (allele "Oval" 2 "oval")).
Proof. repeat split; vm_compute; reflexivity. Qed.

(** ** Inbreeding depression *)

Lemma yield_coinMultiplier value :
  exists cm,
    field (Some (resolve_quantitative Traits.YD value)) "coinMultiplier"
    = Some (Js.Fin cm).
Proof.
  destruct (numeric_value_shape Traits.YD value) as [q [Hq [H1 [H2 H3]]]];
    [apply (registry_ranges "YD"); reflexivity|].
  unfold resolve_quantitative. rewrite Hq.
  destruct H3 as [-> | [-> | [-> | [z ->]]]];
    [vm_compute; eexists; reflexivity
    |vm_compute; eexists; reflexivity
    |vm_compute; eexists; reflexivity
    |].
  assert (Hz : 1 <= z <= 5)
    by (unfold Qle in H1, H2; simpl in H1, H2; lia).
  assert (Hc : z = 1 \/ z = 2 \/ z = 3 \/ z = 4 \/ z = 5) by lia.
  destruct Hc as [-> | [-> | [-> | [-> | ->]]]];
    vm_compute; eexists; reflexivity.
Qed.

Lemma inbreeding_rule genes ph :
  calculatePhenotype genes = Some ph ->
  In "YD" (Obj.keys genes) ->
  exists cm e,
    field (Obj.get ph "YD") "coinMultiplier" = Some (Js.Fin cm)
    /\ field (Obj.get ph "YD") "effectiveCoinMultiplier" = Some (Js.Fin e)
    /\ (5 < equal_pairs genes ->
        (e == cm * (1 - inject_Z (equal_pairs genes - 5) * 0.1))%Q)
    /\ (equal_pairs genes <= 5 -> e = cm).
Proof.
  intros Hph Hin. unfold calculatePhenotype in Hph.
  destruct (fold_left resolve_gene genes (Some [])) as [ph0|] eqn:Hfold;
    [|discriminate].
  inversion Hph; subst ph; clear Hph.
  destruct (resolve_fold_quant genes _ _ "YD" Traits.YD Hfold eq_refl)
    as [[value [_ G]]|[N _]]; [|contradiction].
  destruct (yield_coinMultiplier value) as [cm Hcm].
  exists cm.
  rewrite interactions_keep_field by (simpl; intuition discriminate).
  rewrite G, Hcm.
  unfold calculateTraitInteractions.
  set (ph3 := growth_resistance (water_size (growth_size ph0))).
  assert (G3 : Obj.get ph3 "YD" = Some (resolve_quantitative Traits.YD value)).
  { unfold ph3.
    rewrite get_growth_resistance, get_water_size, get_growth_size
      by discriminate.
    exact G. }
  unfold inbreeding. rewrite homozygousCount_equal_pairs, G3.
  unfold inbreedingThreshold.
  change (pheno_truthy (Some (resolve_quantitative Traits.YD value))) with true.
  cbv iota.
  destruct (5 <? equal_pairs genes) eqn:E.
  - apply Z.ltb_lt in E.
    rewrite (field_set_field_same _ _ _ _ _ G3), Hcm. simpl.
    eexists. split; [reflexivity|]. split; [reflexivity|].
    split; [intros _ | lia].
    apply Qmult_comp; [reflexivity|].
    apply Qplus_comp; reflexivity.
  - apply Z.ltb_ge in E.
    rewrite (field_set_field_same _ _ _ _ _ G3).
    exists cm. repeat split; auto. lia.
Qed.

(** C7, as amended.  Let [c] be the number of genotype entries, those
    under unknown keys included, whose value is a two-character string
    with both characters equal.  The resolved Yield
    has a [coinMultiplier] [cm], and its [effectiveCoinMultiplier] is
    [cm * (1 - (c - 5) * 0.1)] when [c > 5] and [cm] itself otherwise.
    This holds for every genotype with a Yield entry whose resolution
    returns, and so for the genotype parsed from any sequence. *)
Theorem inbreeding_depression :
  (forall genes ph,
     calculatePhenotype genes = Some ph ->
     In "YD" (Obj.keys genes) ->
     exists cm e,
       field (Obj.get ph "YD") "coinMultiplier" = Some (Js.Fin cm)
       /\ field (Obj.get ph "YD") "effectiveCoinMultiplier" = Some (Js.Fin e)
       /\ (5 < equal_pairs genes ->
           (e == cm * (1 - inject_Z (equal_pairs genes - 5) * 0.1))%Q)
       /\ (equal_pairs genes <= 5 -> e = cm))
  /\ (forall sequence,
        let genes := parseGeneSequence sequence in
        exists ph cm e,
          calculatePhenotype genes = Some ph
          /\ field (Obj.get ph "YD") "coinMultiplier" = Some (Js.Fin cm)
          /\ field (Obj.get ph "YD") "effectiveCoinMultiplier"
             = Some (Js.Fin e)
          /\ (5 < equal_pairs genes ->
              (e == cm * (1 - inject_Z (equal_pairs genes - 5) * 0.1))%Q)
          /\ (equal_pairs genes <= 5 -> e = cm)).
Proof.
  split; [exact inbreeding_rule|].
  intros sequence genes.
  destruct (calculatePhenotype_parsed sequence) as [ph Hph].
  destruct (inbreeding_rule genes ph Hph) as [cm [e H]].
  - apply (parsed_has_registered sequence "YD" (quantitative Traits.YD)).
    reflexivity.
  - exists ph, cm, e. auto.
Qed.

Lemma inbreeding_depression_witness :
  let genes :=
    parseGeneSequence "FC:RR-SZ:33-LS:11-BP:11-GR:11-YD:44-RS:22-WN:22" in
  equal_pairs genes = 8
  /\ exists cm e,
       field (Obj.get (phenotype_of genes) "YD") "coinMultiplier"
       = Some (Js.Fin cm)
       /\ field (Obj.get (phenotype_of genes) "YD") "effectiveCoinMultiplier"
          = Some (Js.Fin e)
       /\ (5 < equal_pairs genes ->
           (e == cm * (1 - inject_Z (equal_pairs genes - 5) * 0.1))%Q)
       /\ (equal_pairs genes <= 5 -> e = cm).
Proof.
  intros genes. split; [vm_compute; reflexivity|].
  apply (proj1 inbreeding_depression genes (phenotype_of genes)).
  - vm_compute. reflexivity.
  - vm_compute. tauto.
Defined.

(** C7, counterexample.  With the count taken over the trait keys of the
    registry, as the claim has it: in the genotype parsed from the
    sequence below four trait keys are homozygous (Size, Branching
    Pattern, Yield and Resistance), which is not more than 5, so the claim
    leaves the Yield multiplier 1.2 unchanged.  The code also counts the
    two unknown keys, stored as ["00"], finds 6 and cuts the multiplier to
    1.08. *)
Lemma inbreeding_counts_unknown_keys :
  let genes :=
    parseGeneSequence
      "FC:RB-SZ:33-LS:12-BP:11-GR:10-YD:44-RS:22-WN:23-A:1-B:1" in
  homozygous_traits genes = 4
  /\ homozygousCount genes = 6
  /\ calculatePhenotype genes = Some (phenotype_of genes)
  /\ exists cm e,
       field (Obj.get (phenotype_of genes) "YD") "coinMultiplier"
       = Some (Js.Fin cm)
       /\ field (Obj.get (phenotype_of genes) "YD") "effectiveCoinMultiplier"
          = Some (Js.Fin e)
       /\ (cm == 1.2)%Q /\ (e == 1.08)%Q /\ ~ (e == cm)%Q.
Proof.
  intros genes.
  split; [vm_compute; reflexivity|].
  split; [vm_compute; reflexivity|].
  split; [vm_compute; reflexivity|].
  exists (12 # 10)%Q, (1080 # 1000)%Q.
  split; [vm_compute; reflexivity|].
  split; [vm_compute; reflexivity|].
  split; [reflexivity|]. split; [reflexivity|]. discriminate.
Qed.

(** ** Growth *)

(** C8.  On a plant that is already ready, [update] returns at once: the
    plant (progress, health, ready and watered included) and the random
    source are left as they were, for every water level, pest flag and
    weather event, and this holds for any number of calls in a row. *)
Theorem update_ready_noop p waterLevel pestPresent weatherEvent w :
  ready p = true ->
  update p waterLevel pestPresent weatherEvent w = (None, p, w)
  /\ forall n,
       update_n n p waterLevel pestPresent weatherEvent w = (p, w).
Proof.
  intros Hr.
  assert (H1 : update p waterLevel pestPresent weatherEvent w = (None, p, w))
    by (unfold update; rewrite Hr; reflexivity).
  split; [exact H1|].
  induction n as [|n IH]; [reflexivity|].
  cbn [update_n]. unfold bind. rewrite H1. exact IH.
Qed.

Lemma update_ready_noop_witness :
  let p :=
    fst (update_n 10
           (plant_of_sequence "FC:RB-SZ:33-LS:11-BP:11-GR:10-YD:33-RS:22-WN:22")
           (Some (Js.of_Z 100)) false None still_world) in
  ready p = true
  /\ update p (Some (Js.of_Z 3)) true (Some "storm") still_world
     = (None, p, still_world)
  /\ forall n,
       update_n n p (Some (Js.of_Z 3)) true (Some "storm") still_world
       = (p, still_world).
Proof.
  intros p. split; [vm_compute; reflexivity|].
  apply (update_ready_noop p (Some (Js.of_Z 3)) true (Some "storm") still_world).
  vm_compute. reflexivity.
Defined.

(** ** Harvest *)

(** What [harvest] does on any plant.  It never changes the plant.  On a
    plant that is not ready it fails ([success = false], no rewards)
    without touching the random source.  On a ready plant it draws once
    and then raises exactly when [getInfo] does; otherwise it succeeds,
    the coins are [round(10 * m)] for the multiplier [m] that
    [effectiveCoinMultiplier || 1.0] evaluates to, and the seeds are 0 or
    1. *)
Lemma harvest_cases p w :
  let '(r, p', w') := harvest p w in
  p' = p
  /\ if ready p then
       match r with
       | Thrown => getInfo p = None
       | Returned r =>
           getInfo p <> None
           /\ success r = true
           /\ exists rw,
                rewards r = Some rw
                /\ coins rw
                   = Js.round
                       (Js.mul (Js.of_Z 10)
                          (or_else (field (Obj.get (phenotype p) "YD")
                                          "effectiveCoinMultiplier") 1.0))
                /\ (seeds rw = 0 \/ seeds rw = 1)
       end
     else
       r = Returned (mkHarvestResult false None "Plant not ready for harvest")
       /\ w' = w.
Proof.
  unfold harvest. destruct (ready p); cbn [negb]; [|cbn; auto].
  unfold bind, random, ret.
  destruct (getInfo p) as [info|]; cbn [fst snd]; [|auto].
  split; [reflexivity|]. split; [discriminate|]. split; [reflexivity|].
  eexists. split; [reflexivity|]. cbn [coins seeds].
  split; [reflexivity|]. destruct (Js.lt _ _); auto.
Qed.

(** C4.  The failing input.  A plant built from a sequence with fifteen
    homozygous entries (the eight traits and seven unknown keys, each
    stored as ["00"]) and grown to readiness has an effective coin
    multiplier of exactly zero; its harvest succeeds and pays 10 coins,
    not [round(10 * 0) = 0]: the zero is taken for a missing multiplier.
    With one unknown key less the multiplier is 0.1 and the harvest pays
    1 coin, with one more it is -0.1 and the harvest pays -1. *)
Theorem harvest_zero_multiplier :
  let p14 :=
    grown "FC:RR-SZ:33-LS:11-BP:11-GR:11-YD:33-RS:22-WN:22-A:1-B:1-C:1-D:1-E:1-F:1" in
  let p15 :=
    grown "FC:RR-SZ:33-LS:11-BP:11-GR:11-YD:33-RS:22-WN:22-A:1-B:1-C:1-D:1-E:1-F:1-G:1" in
  let p16 :=
    grown "FC:RR-SZ:33-LS:11-BP:11-GR:11-YD:33-RS:22-WN:22-A:1-B:1-C:1-D:1-E:1-F:1-G:1-H:1" in
  constructed p15 /\ ready p15 = true
  /\ homozygousCount (genes p15) = 15
  /\ (exists e,
        field (Obj.get (phenotype p15) "YD") "effectiveCoinMultiplier"
        = Some (Js.Fin e)
        /\ (e == 0)%Q
        /\ Js.round (Js.mul (Js.of_Z 10) (Js.Fin e)) = Js.of_Z 0)
  /\ paid p15 = Some (Js.of_Z 10)
  /\ paid p15 <> Some (Js.of_Z 0)
  /\ ready p14 = true /\ paid p14 = Some (Js.of_Z 1)
  /\ ready p16 = true /\ paid p16 = Some (Js.of_Z (-1)).
Proof.
  intros p14 p15 p16.
  split.
  { exists "FC:RR-SZ:33-LS:11-BP:11-GR:11-YD:33-RS:22-WN:22-A:1-B:1-C:1-D:1-E:1-F:1-G:1".
    split; vm_compute; reflexivity. }
  split; [vm_compute; reflexivity|].
  split; [vm_compute; reflexivity|].
  split.
  { exists (0 # 1000)%Q. split; [vm_compute; reflexivity|].
    split; [reflexivity | vm_compute; reflexivity]. }
  split; [vm_compute; reflexivity|].
  split; [vm_compute; discriminate|].
  split; [vm_compute; reflexivity|].
  split; [vm_compute; reflexivity|].
  split; [vm_compute; reflexivity|].
  vm_compute. reflexivity.
Qed.

(** ** The keys of a parsed genotype *)

Lemma parse_segment_other genes segment k :
  k <> segment_key segment ->
  Obj.get (parse_segment genes segment) k = Obj.get genes k.
Proof.
  intros Hne. unfold parse_segment. fold (segment_key segment).
  destruct (lookup_trait (segment_key segment));
    [| destruct (String.eqb _ _) |];
    try reflexivity; now apply get_set_other.
Qed.

Lemma parse_segment_unknown genes segment :
  lookup_trait (segment_key segment) = Absent ->
  Obj.get (parse_segment genes segment) (segment_key segment)
  = Some (VStr "00").
Proof.
  intros H. unfold parse_segment. fold (segment_key segment).
  rewrite H. apply get_set_same.
Qed.

Lemma parse_segments_unknown segments : forall genes key,
  lookup_trait key = Absent ->
  In key (map segment_key segments) \/ Obj.get genes key = Some (VStr "00") ->
  Obj.get (fold_left parse_segment segments genes) key = Some (VStr "00").
Proof.
  induction segments as [|s segments IH]; intros genes key Hk H.
  - destruct H as [[]|H]. exact H.
  - cbn [fold_left]. apply IH; [exact Hk|].
    destruct (string_dec (segment_key s) key) as [E|N].
    + right. subst key. now apply parse_segment_unknown.
    + destruct H as [[E|I]|H]; [contradiction | now left |].
      right. rewrite parse_segment_other by congruence. exact H.
Qed.

Lemma fill_missing_other genes e k :
  k <> fst e -> Obj.get (fill_missing genes e) k = Obj.get genes k.
Proof.
  destruct e as [key trait]. simpl. intros Hne. unfold fill_missing.
  destruct (Val.truthy _); [reflexivity | now apply get_set_other].
Qed.

Lemma fill_all_other traits : forall genes k,
  ~ In k (Obj.keys traits) ->
  Obj.get (fold_left fill_missing traits genes) k = Obj.get genes k.
Proof.
  induction traits as [|e traits IH]; intros genes k Hk; [reflexivity|].
  cbn [fold_left]. rewrite IH by (intros I; apply Hk; now right).
  apply fill_missing_other. intros ->. apply Hk. now left.
Qed.

Lemma parse_segments_keys segments : forall genes k,
  In k (Obj.keys (fold_left parse_segment segments genes)) ->
  In k (map segment_key segments) \/ In k (Obj.keys genes).
Proof.
  induction segments as [|s segments IH]; intros genes k H; [now right|].
  cbn [fold_left] in H. apply IH in H. destruct H as [H|H]; [left; now right|].
  unfold parse_segment in H. fold (segment_key s) in H.
  destruct (lookup_trait (segment_key s));
    [| destruct (String.eqb _ _) |]; try (now right);
    apply keys_set in H; destruct H as [->|H]; auto; left; now left.
Qed.

Lemma fill_all_keys traits : forall genes k,
  In k (Obj.keys (fold_left fill_missing traits genes)) ->
  In k (Obj.keys traits) \/ In k (Obj.keys genes).
Proof.
  induction traits as [|[key trait] traits IH]; intros genes k H; [now right|].
  cbn [fold_left] in H. apply IH in H. destruct H as [H|H]; [left; now right|].
  unfold fill_missing in H. destruct (Val.truthy _); [now right|].
  apply keys_set in H. destruct H as [->|H]; auto. left. now left.
Qed.

(** C5, as amended.  In the genotype parsed from any sequence every
    registered trait key has a (truthy) entry.  A segment whose key is
    neither registered nor the name of an inherited object property is not
    dropped: its key is kept and mapped to ["00"].  The keys of the result
    are registered keys or keys of input segments. *)
Theorem parsed_keys sequence :
  (forall key t,
     Obj.get GENE_TRAITS key = Some t ->
     Val.truthy (gene_at (parseGeneSequence sequence) key) = true)
  /\ (forall key,
        In key (segment_keys sequence) -> lookup_trait key = Absent ->
        Obj.get (parseGeneSequence sequence) key = Some (VStr "00"))
  /\ (forall key,
        In key (Obj.keys (parseGeneSequence sequence)) ->
        Obj.has GENE_TRAITS key = true \/ In key (segment_keys sequence)).
Proof.
  split; [intros key t; apply parseGeneSequence_registered|].
  split.
  - intros key Hin Hk. unfold parseGeneSequence.
    rewrite fill_all_other.
    + apply parse_segments_unknown; [exact Hk | now left].
    + intros I. apply has_keys, has_get in I. destruct I as [t Ht].
      apply lookup_own in Ht. congruence.
  - intros key H. unfold parseGeneSequence in H.
    apply fill_all_keys in H. destruct H as [H|H].
    + left. now apply has_keys.
    + apply parse_segments_keys in H. destruct H as [H|[]]. now right.
Qed.

Lemma parsed_keys_witness :
  Val.truthy (gene_at (parseGeneSequence "FC:RB-XX:12") "FC") = true
  /\ Obj.get (parseGeneSequence "FC:RB-XX:12") "XX" = Some (VStr "00")
  /\ (Obj.has GENE_TRAITS "SZ" = true
      \/ In "SZ" (segment_keys "FC:RB-XX:12")).
Proof.
  destruct (parsed_keys "FC:RB-XX:12") as [H1 [H2 H3]].
  split; [apply (H1 "FC" (qualitative Traits.FC)); reflexivity|].
  split; [apply (H2 "XX"); [vm_compute; tauto | reflexivity]|].
  apply (H3 "SZ"). vm_compute. tauto.
Defined.

(** C5, counterexample.  The segment [XX:12] has an unregistered key; the
    parsed genotype contains the key [XX]. *)
Lemma unknown_key_is_kept :
  Obj.has GENE_TRAITS "XX" = false
  /\ In "XX" (Obj.keys (parseGeneSequence "FC:RB-XX:12"))
  /\ ~ (forall sequence key,
          In key (Obj.keys (parseGeneSequence sequence)) ->
          Obj.has GENE_TRAITS key = true).
Proof.
  split; [reflexivity|]. split; [vm_compute; tauto|].
  intros H. specialize (H "FC:RB-XX:12" "XX"). 
  assert (I : In "XX" (Obj.keys (parseGeneSequence "FC:RB-XX:12")))
    by (vm_compute; tauto).
  apply H in I. discriminate.
Qed.

(** ** Breeding *)

Lemma plus_defined a b : plus a b <> VUndef.
Proof. destruct a, b; discriminate. Qed.

Lemma mutateMutation_returns gene key w :
  gene <> VUndef ->
  exists v w', mutateMutation gene key w = (Returned v, w').
Proof.
  intros Hg. unfold mutateMutation.
  destruct (lookup_trait key) as [[g|g]| |];
    try (eexists; eexists; reflexivity).
  destruct (Nat.eqb _ _); [eexists; eexists; reflexivity|].
  destruct gene as [|s|n]; [congruence| |];
    cbn [length_of]; unfold bind, random, ret; cbn [fst snd];
    match goal with
    | |- context [if ?c then _ else _] =>
        destruct c; eexists; eexists; reflexivity
    end.
Qed.

Lemma cross_gene_returns genesA genesB key trait w :
  exists v w', cross_gene genesA genesB key trait w = (Returned v, w').
Proof.
  unfold cross_gene.
  destruct (_ || _)%bool; [eexists; eexists; reflexivity|].
  unfold bind at 1.
  destruct trait as [g|g].
  - unfold bind at 1.
    destruct (contribute (Gene.alleles g) (gene_at genesA key) w) as [a w1].
    unfold bind at 1.
    destruct (contribute (Gene.alleles g) (gene_at genesB key) w1) as [b' w2].
    unfold ret at 1. unfold bind at 1. unfold random at 1.
    destruct (Js.lt _ _).
    + apply mutateMutation_returns, plus_defined.
    + eexists; eexists; reflexivity.
  - unfold bind at 1. unfold random at 1. unfold ret at 1.
    unfold bind at 1. unfold random at 1.
    destruct (Js.lt _ _).
    + apply mutateMutation_returns. discriminate.
    + eexists; eexists; reflexivity.
Qed.

Lemma cross_genes_returns genesA genesB traits : forall offspringGenes w,
  exists og w',
    cross_genes genesA genesB traits offspringGenes w = (Returned og, w').
Proof.
  induction traits as [|[key trait] traits IH]; intros offspringGenes w.
  - eexists; eexists; reflexivity.
  - cbn [cross_genes]. unfold bind.
    destruct (cross_gene_returns genesA genesB key trait w) as [v [w1 ->]].
    apply IH.
Qed.

(** A cross of two present parents returns a plant and appends one
    record. *)
Lemma crossPlants_present b pA pB w :
  exists child r w',
    crossPlants b (Some pA) (Some pB) w
    = (Returned (Some child),
       mkPlantBreeder (crossingHistory b ++ [r]), w').
Proof.
  unfold crossPlants, bind.
  destruct (cross_genes_returns (genes pA) (genes pB) GENE_TRAITS [] w)
    as [og [w1 ->]].
  destruct (new_Plant_total (Some (toGeneSequence og))) as [child ->].
  unfold new_Date, ret. eauto.
Qed.

Lemma crossPlants_absent b plantA plantB w :
  both_present (plantA, plantB) = false ->
  crossPlants b plantA plantB w = (Returned None, b, w).
Proof. destruct plantA, plantB; simpl; intros H; try discriminate; reflexivity. Qed.

(** C9.  [crossPlants] returns [null] when either parent is absent and
    then leaves the history as it is; with both parents present it returns
    an offspring and appends exactly one record after the existing ones.
    So a run of calls extends the history by as many records as there were
    calls with both parents, the earlier records staying in place: from a
    new breeder, [n] successful crosses give a history of length [n]. *)
Theorem crossing_history :
  (forall b plantB w,
     crossPlants b None plantB w = (Returned None, b, w))
  /\ (forall b plantA w,
        crossPlants b plantA None w = (Returned None, b, w))
  /\ (forall b pA pB w,
        exists child r w',
          crossPlants b (Some pA) (Some pB) w
          = (Returned (Some child),
             mkPlantBreeder (crossingHistory b ++ [r]), w'))
  /\ (forall calls b w,
        exists added,
          crossingHistory (snd (fst (cross_all calls b w)))
          = crossingHistory b ++ added
          /\ List.length added = List.length (filter both_present calls))
  /\ (forall calls w,
        List.length
          (getCrossingHistory (snd (fst (cross_all calls new_PlantBreeder w))))
        = List.length (filter both_present calls)).
Proof.
  assert (Hrun : forall calls b w,
             exists added,
               crossingHistory (snd (fst (cross_all calls b w)))
               = crossingHistory b ++ added
               /\ List.length added = List.length (filter both_present calls)).
  { induction calls as [|[plantA plantB] calls IH]; intros b w.
    - exists []. split; [now rewrite app_nil_r | reflexivity].
    - cbn [cross_all filter]. unfold bind.
      destruct (both_present (plantA, plantB)) eqn:E.
      + destruct plantA as [pA|], plantB as [pB|]; try discriminate.
        destruct (crossPlants_present b pA pB w) as [child [r [w1 ->]]].
        cbn [fst snd].
        destruct (IH (mkPlantBreeder (crossingHistory b ++ [r])) w1)
          as [added [H1 H2]].
        destruct (cross_all calls _ w1) as [[rs b2] w2].
        cbn [fst snd ret crossingHistory] in *.
        exists (r :: added). split.
        * rewrite H1, <- app_assoc. reflexivity.
        * simpl. now rewrite H2.
      + rewrite (crossPlants_absent b plantA plantB w E). cbn [fst snd].
        destruct (IH b w) as [added [H1 H2]].
        destruct (cross_all calls b w) as [[rs b2] w2].
        cbn [fst snd ret] in *. exists added. auto. }
  split; [intros; now apply crossPlants_absent; destruct plantB|].
  split; [intros; apply crossPlants_absent; now destruct plantA|].
  split; [apply crossPlants_present|].
  split; [exact Hrun|].
  intros calls w. destruct (Hrun calls new_PlantBreeder w) as [added [H1 H2]].
  unfold getCrossingHistory. rewrite H1. exact H2.
Qed.

(** ** Splitting and joining *)

Lemma mentions_app c a b :
  mentions c (a ++ b)%string = (mentions c a || mentions c b)%bool.
Proof.
  induction a as [|c' a IH]; simpl; [reflexivity|].
  rewrite IH. now rewrite orb_assoc.
Qed.

Lemma split_clean sep s : mentions sep s = false -> Js.split sep s = [s].
Proof.
  induction s as [|c s IH]; simpl; intros H; [reflexivity|].
  apply orb_false_iff in H. destruct H as [Hc Hs].
  rewrite Hc, (IH Hs). reflexivity.
Qed.

Lemma split_app_sep sep a b :
  mentions sep a = false ->
  Js.split sep (a ++ String sep b)%string = a :: Js.split sep b.
Proof.
  induction a as [|c a IH]; simpl; intros H.
  - now rewrite Ascii.eqb_refl.
  - apply orb_false_iff in H. destruct H as [Hc Ha].
    rewrite Hc, (IH Ha). reflexivity.
Qed.

Lemma split_join sep l :
  l <> [] ->
  (forall s, In s l -> mentions sep s = false) ->
  Js.split sep (Js.join (String sep "") l) = l.
Proof.
  unfold Js.join. induction l as [|x l IH]; intros Hne Hl; [congruence|].
  destruct l as [|y l].
  - simpl. apply split_clean. apply Hl. now left.
  - change (String.concat (String sep "") (x :: y :: l))
      with (x ++ String sep (String.concat (String sep "") (y :: l)))%string.
    rewrite split_app_sep by (apply Hl; now left).
    f_equal. apply IH; [discriminate|].
    intros s I. apply Hl. now right.
Qed.

(** ** Round trip *)

Lemma registered_key_clean k t :
  Obj.get GENE_TRAITS k = Some t ->
  mentions ":" k = false /\ mentions "-" k = false
  /\ Obj.array_index k = None.
Proof.
  intros H. each_trait H ltac:(repeat split; reflexivity).
Qed.

Lemma digit_of_not_sep a d :
  Js.digit_of a = Some d -> a <> ":"%char /\ a <> "-"%char.
Proof. intros H. split; intros ->; vm_compute in H; discriminate. Qed.

Lemma allele_not_sep k g a :
  Obj.get GENE_TRAITS k = Some (qualitative g) ->
  Obj.has (Gene.alleles g) (Js.str1 a) = true ->
  a <> ":"%char /\ a <> "-"%char.
Proof.
  intros H Ha.
  each_trait H ltac:(split; intros ->; vm_compute in Ha; discriminate).
Qed.

(** A conforming value is a string of two characters, neither of them a
    separator of the sequence format. *)
Lemma value_conforms_chars k t v :
  Obj.get GENE_TRAITS k = Some t ->
  value_conforms t v = true ->
  exists a b, v = VStr (String a (String b ""))
              /\ a <> ":"%char /\ a <> "-"%char
              /\ b <> ":"%char /\ b <> "-"%char.
Proof.
  intros H Hv.
  destruct v as [|s|n]; try discriminate.
  destruct s as [|a [|b [|c s]]]; try discriminate.
  exists a, b. split; [reflexivity|]. simpl in Hv.
  destruct t as [g|g].
  - apply andb_true_iff in Hv. destruct Hv as [Ha Hb].
    destruct (allele_not_sep k g a H Ha), (allele_not_sep k g b H Hb). auto.
  - destruct (Js.digit_of a) as [d|] eqn:Hd; [|discriminate].
    apply andb_true_iff in Hv. destruct Hv as [Hv _].
    apply andb_true_iff in Hv. destruct Hv as [Hab _].
    apply Ascii.eqb_eq in Hab. subst b.
    destruct (digit_of_not_sep a d Hd). auto.
Qed.

Lemma mentions_pair c a b :
  a <> c -> b <> c -> mentions c (String a (String b "")) = false.
Proof.
  intros Ha Hb. simpl.
  apply Ascii.eqb_neq in Ha. apply Ascii.eqb_neq in Hb.
  now rewrite Ha, Hb.
Qed.

Lemma parse_registered_segment genes k t s :
  Obj.get GENE_TRAITS k = Some t ->
  mentions ":" s = false ->
  Obj.has genes k = false ->
  parse_segment genes (segment_of k (VStr s)) = genes ++ [(k, VStr s)].
Proof.
  intros H Hs Hk.
  destruct (registered_key_clean k t H) as [Hc [_ Hi]].
  unfold parse_segment, segment_of. cbn [Val.toString].
  change (k ++ ":" ++ s)%string with (k ++ String ":" s)%string.
  rewrite (split_app_sep ":" k s Hc), (split_clean ":" s Hs).
  apply lookup_own in H. rewrite H.
  unfold Obj.set. now rewrite Hk, Hi.
Qed.

Lemma parse_serialized l : forall acc,
  (forall k v, In (k, v) l ->
     exists t s, Obj.get GENE_TRAITS k = Some t /\ v = VStr s
                 /\ mentions ":" s = false) ->
  NoDup (Obj.keys acc ++ Obj.keys l) ->
  fold_left parse_segment (map (fun e => segment_of (fst e) (snd e)) l) acc
  = acc ++ l.
Proof.
  induction l as [|[k v] l IH]; intros acc Hl ND.
  - now rewrite app_nil_r.
  - cbn [map fold_left fst snd].
    destruct (Hl k v (or_introl eq_refl)) as [t [s [Hk [-> Hs]]]].
    assert (Hacc : Obj.has acc k = false).
    { apply has_false_get, get_None_keys. intros I.
      apply NoDup_remove_2 in ND. apply ND, in_or_app. now left. }
    rewrite (parse_registered_segment acc k t s Hk Hs Hacc).
    rewrite IH.
    + now rewrite <- app_assoc.
    + intros k' v' I. apply Hl. now right.
    + unfold Obj.keys in *. rewrite map_app, <- app_assoc. exact ND.
Qed.

Lemma distinct_NoDup l : distinct l = true -> NoDup l.
Proof.
  induction l as [|k l IH]; simpl; intros H; [constructor|].
  apply andb_true_iff in H. destruct H as [Hk Hl].
  constructor; [|auto].
  intros I. apply negb_true_iff in Hk.
  assert (E : existsb (String.eqb k) l = true)
    by (apply existsb_exists; exists k; split; [exact I | apply String.eqb_refl]).
  congruence.
Qed.

Lemma fill_all_noop traits : forall genes,
  (forall e, In e traits -> Val.truthy (gene_at genes (fst e)) = true) ->
  fold_left fill_missing traits genes = genes.
Proof.
  induction traits as [|[key trait] traits IH]; intros genes H; [reflexivity|].
  cbn [fold_left].
  assert (E : fill_missing genes (key, trait) = genes).
  { unfold fill_missing.
    now rewrite (H (key, trait) (or_introl eq_refl) : Val.truthy (gene_at genes key) = true). }
  rewrite E. apply IH. intros e I. apply H. now right.
Qed.

Lemma conforming_entry g k v :
  conforms g = true -> In (k, v) g ->
  exists t a b,
    Obj.get GENE_TRAITS k = Some t
    /\ v = VStr (String a (String b ""))
    /\ a <> ":"%char /\ a <> "-"%char /\ b <> ":"%char /\ b <> "-"%char.
Proof.
  unfold conforms. intros H I.
  apply andb_true_iff in H. destruct H as [_ H].
  rewrite forallb_forall in H. specialize (H (k, v) I).
  unfold entry_conforms in H. cbn [fst snd] in H.
  destruct (Obj.get GENE_TRAITS k) as [t|] eqn:E; [|discriminate].
  destruct (value_conforms_chars k t v E H) as [a [b Hab]].
  exists t, a, b. auto.
Qed.

(** C2, as amended.  Parsing the serialisation of a genotype that conforms
    to the registry gives the genotype back, entry for entry and in the
    same order.  Parsing the default gene sequence maps every registered
    key to the text of its registry default: the default itself for a
    qualitative trait, and for a quantitative trait the string of the
    default number (["3"] for 3, ["1"] for 1.0). *)
Theorem serialize_parse_roundtrip :
  (forall g, conforms g = true -> parseGeneSequence (toGeneSequence g) = g)
  /\ parseGeneSequence generateDefaultGeneSequence
     = map (fun e => (fst e, VStr (Val.toString (defaultValue (snd e)))))
           GENE_TRAITS.
Proof.
  split; [|vm_compute; reflexivity].
  intros g Hg.
  assert (Hc := Hg). unfold conforms in Hc.
  apply andb_true_iff in Hc. destruct Hc as [Hc _].
  apply andb_true_iff in Hc. destruct Hc as [Hd Hall].
  rewrite forallb_forall in Hall.
  assert (Hne : g <> []).
  { intros ->. specialize (Hall "FC" (or_introl eq_refl)). discriminate. }
  unfold parseGeneSequence, toGeneSequence.
  rewrite split_join.
  - rewrite parse_serialized.
    + cbn [app]. apply fill_all_noop. intros [key trait] I. cbn [fst].
      assert (Hk : Obj.has g key = true).
      { apply Hall. change key with (fst (key, trait)). now apply in_map. }
      apply has_get in Hk. destruct Hk as [v Hv].
      unfold gene_at. rewrite Hv. apply get_In in Hv.
      destruct (conforming_entry g key v Hg Hv) as [t [a [b [_ [-> _]]]]].
      reflexivity.
    + intros k v I.
      destruct (conforming_entry g k v Hg I)
        as [t [a [b [Ht [-> [Ha [_ [Hb _]]]]]]]].
      exists t, (String a (String b "")). repeat split; auto.
      now apply mentions_pair.
    + cbn [Obj.keys map app]. now apply distinct_NoDup.
  - destruct g; [congruence | discriminate].
  - intros s I. apply in_map_iff in I. destruct I as [[k v] [<- I]].
    destruct (conforming_entry g k v Hg I)
      as [t [a [b [Ht [-> [_ [Ha [_ Hb]]]]]]]].
    destruct (registered_key_clean k t Ht) as [_ [Hk _]].
    unfold segment_of. cbn [fst snd Val.toString].
    rewrite !mentions_app, Hk, (mentions_pair "-" a b Ha Hb). reflexivity.
Qed.

Lemma serialize_parse_roundtrip_witness :
  let g :=
    [("FC", VStr "RB"); ("SZ", VStr "33"); ("LS", VStr "12");
     ("BP", VStr "11"); ("GR", VStr "11"); ("YD", VStr "44");
     ("RS", VStr "22"); ("WN", VStr "22")] in
  conforms g = true /\ parseGeneSequence (toGeneSequence g) = g.
Proof.
  intros g. split; [reflexivity|].
  apply (proj1 serialize_parse_roundtrip g). reflexivity.
Defined.

(** C2, counterexample.  Parsing the default gene sequence gives Size the
    string ["3"], while the registry default of Size is the number 3. *)
Lemma default_sequence_parses_to_strings :
  gene_at (parseGeneSequence generateDefaultGeneSequence) "SZ" = VStr "3"
  /\ defaultValue (quantitative Traits.SZ) = VNum (Js.of_Z 3)
  /\ ~ (forall key t,
          Obj.get GENE_TRAITS key = Some t ->
          gene_at (parseGeneSequence generateDefaultGeneSequence) key
          = defaultValue t).
Proof.
  split; [reflexivity|]. split; [reflexivity|].
  intros H. specialize (H "SZ" (quantitative Traits.SZ) eq_refl).
  vm_compute in H. discriminate.
Qed.

(** * Further properties of the module *)

(** ** What a parsed genotype holds for a registered key *)

Lemma parse_segment_own genes segment t :
  lookup_trait (segment_key segment) = Own t ->
  parse_segment genes segment
  = Obj.set genes (segment_key segment) (segment_value segment).
Proof.
  intros H. unfold parse_segment, segment_value.
  fold (segment_key segment). now rewrite H.
Qed.

Lemma parse_segments_get_own segments : forall genes key t,
  lookup_trait key = Own t ->
  Obj.get (fold_left parse_segment segments genes) key
  = match last_assignment key segments with
    | Some v => Some v
    | None => Obj.get genes key
    end.
Proof.
  induction segments as [|s segments IH]; intros genes key t Hk;
    [reflexivity|].
  cbn [fold_left last_assignment]. rewrite (IH _ key t Hk).
  destruct (last_assignment key segments) as [v|]; [reflexivity|].
  destruct (String.eqb_spec (segment_key s) key) as [E|N].
  - subst key. rewrite (parse_segment_own genes s t Hk).
    apply get_set_same.
  - apply parse_segment_other. congruence.
Qed.

Lemma fill_all_get traits : forall genes key t,
  NoDup (Obj.keys traits) -> In (key, t) traits ->
  Obj.get (fold_left fill_missing traits genes) key
  = if Val.truthy (gene_at genes key) then Obj.get genes key
    else Some (defaultValue t).
Proof.
  induction traits as [|[k0 t0] traits IH]; intros genes key t ND I;
    [destruct I|].
  cbn [Obj.keys map fst] in ND. inversion ND as [|? ? Hnot ND']; subst.
  cbn [fold_left]. destruct I as [E|I].
  - inversion E; subst k0 t0. rewrite fill_all_other by exact Hnot.
    unfold fill_missing.
    destruct (Val.truthy (gene_at genes key)); [reflexivity|].
    apply get_set_same.
  - assert (Hne : key <> k0).
    { intros ->. apply Hnot. change (In (fst (k0, t)) (map fst traits)).
      now apply in_map. }
    rewrite (IH _ key t ND' I).
    unfold gene_at. now rewrite (fill_missing_other genes (k0, t0) key Hne).
Qed.

Lemma registry_keys_NoDup : NoDup (Obj.keys GENE_TRAITS).
Proof. repeat constructor; simpl; intuition discriminate. Qed.

(** X1.  For a registered key the parsed genotype holds the value of the
    last segment naming that key (the text between its first and second
    colon); when there is no such segment, or its value is missing or
    empty, it holds the registry default of the trait. *)
Theorem parsed_registered_value sequence key t :
  Obj.get GENE_TRAITS key = Some t ->
  gene_at (parseGeneSequence sequence) key
  = match last_assignment key (Js.split "-" sequence) with
    | Some v => if Val.truthy v then v else defaultValue t
    | None => defaultValue t
    end.
Proof.
  intros H. unfold parseGeneSequence, gene_at.
  rewrite (fill_all_get GENE_TRAITS _ key t registry_keys_NoDup (get_In _ _ _ H)).
  unfold gene_at.
  rewrite (parse_segments_get_own _ [] key t (proj2 (lookup_own key t) H)).
  destruct (last_assignment key (Js.split "-" sequence)) as [v|];
    [destruct (Val.truthy v)|]; reflexivity.
Qed.

Lemma parsed_registered_value_witness :
  gene_at (parseGeneSequence "SZ:22-FC:RB-SZ:44:9-LS:-BP") "SZ" = VStr "44"
  /\ gene_at (parseGeneSequence "SZ:22-FC:RB-SZ:44:9-LS:-BP") "LS" = VStr "11"
  /\ gene_at (parseGeneSequence "SZ:22-FC:RB-SZ:44:9-LS:-BP") "BP"
     = VNum (Js.Fin 1).
Proof.
  split; [|split].
  - rewrite (parsed_registered_value _ "SZ" (quantitative Traits.SZ) eq_refl).
    reflexivity.
  - rewrite (parsed_registered_value _ "LS" (qualitative Traits.LS) eq_refl).
    reflexivity.
  - rewrite (parsed_registered_value _ "BP" (quantitative Traits.BP) eq_refl).
    reflexivity.
Defined.

(** ** The order of keys *)

Lemma digits_nonneg s : forall acc z,
  match acc with Some a => 0 <= a | None => True end ->
  Js.digits acc s = Some z -> 0 <= z.
Proof.
  induction s as [|c s IH]; intros acc z Ha H; cbn [Js.digits] in H.
  - subst acc. exact Ha.
  - unfold Js.digit_of in H.
    destruct (Nat.leb 48 (nat_of_ascii c) && Nat.leb (nat_of_ascii c) 57)%bool
      eqn:E.
    + apply IH in H; [exact H|].
      apply andb_true_iff in E. destruct E as [E _].
      apply Nat.leb_le in E. cbv beta iota. destruct acc as [a|]; lia.
    + subst acc. exact Ha.
Qed.

Lemma array_index_canonical k n :
  Obj.array_index k = Some n -> k = Js.string_of_Z n /\ 0 <= n.
Proof.
  unfold Obj.array_index. intros H.
  destruct (Js.digits None k) as [m|] eqn:Hd; [|discriminate].
  destruct (String.eqb (Js.string_of_Z m) k && (m <? 4294967295))%bool eqn:E;
    [|discriminate].
  inversion H; subst m. apply andb_true_iff in E. destruct E as [E _].
  apply String.eqb_eq in E. split; [now symmetry|].
  now apply (digits_nonneg k None n I).
Qed.

Lemma array_index_inj k k' n :
  Obj.array_index k = Some n -> Obj.array_index k' = Some n -> k = k'.
Proof.
  intros H H'. apply array_index_canonical in H, H'.
  destruct H as [-> _], H' as [-> _]. reflexivity.
Qed.

Lemma ordered_drop_last l : forall lo k,
  ordered_from lo (l ++ [k]) = true -> ordered_from lo l = true.
Proof.
  induction l as [|k0 l IH]; intros lo k H; [reflexivity|].
  cbn [app ordered_from] in *.
  destruct (Obj.array_index k0) as [m|].
  - apply andb_true_iff in H. destruct H as [H1 H2].
    rewrite H1. cbn [andb]. now apply (IH m k).
  - rewrite forallb_app in H. apply andb_true_iff in H. tauto.
Qed.

Lemma ordered_last_gt l : forall lo k n,
  ordered_from lo (l ++ [k]) = true -> Obj.array_index k = Some n -> lo < n.
Proof.
  induction l as [|k0 l IH]; intros lo k n H Hk; cbn [app ordered_from] in H.
  - rewrite Hk in H. apply andb_true_iff in H. destruct H as [H _].
    now apply Z.ltb_lt.
  - destruct (Obj.array_index k0) as [m|].
    + apply andb_true_iff in H. destruct H as [H1 H2].
      apply Z.ltb_lt in H1. specialize (IH m k n H2 Hk). lia.
    + rewrite forallb_app in H. apply andb_true_iff in H. destruct H as [_ H].
      cbn in H. unfold is_index in H. rewrite Hk in H. discriminate.
Qed.

Section KeyOrder.
Context {A : Type}.
Implicit Types (o : Obj.t A) (k : string) (v : A).

Lemma insert_at_end o : forall lo n k v,
  ordered_from lo (Obj.keys o ++ [k]) = true ->
  Obj.array_index k = Some n ->
  Obj.insert_index n k v o = o ++ [(k, v)].
Proof.
  induction o as [|[k0 v0] o IH]; intros lo n k v H Hk; [reflexivity|].
  cbn [Obj.keys map fst app ordered_from] in H. cbn [Obj.insert_index app].
  destruct (Obj.array_index k0) as [m|].
  - apply andb_true_iff in H. destruct H as [_ H].
    pose proof (ordered_last_gt _ _ _ _ H Hk) as Hm.
    apply Z.ltb_lt in Hm. rewrite Hm. f_equal. now apply (IH m).
  - rewrite forallb_app in H. apply andb_true_iff in H. destruct H as [_ H].
    cbn in H. unfold is_index in H. rewrite Hk in H. discriminate.
Qed.

(** Setting a key that comes last in key order appends it. *)
Lemma set_appends o k v :
  ordered_from (-1) (Obj.keys o ++ [k]) = true ->
  ~ In k (Obj.keys o) ->
  Obj.set o k v = o ++ [(k, v)].
Proof.
  intros H Hk. unfold Obj.set.
  apply get_None_keys, has_false_get in Hk. rewrite Hk.
  destruct (Obj.array_index k) as [n|] eqn:E; [|reflexivity].
  now apply (insert_at_end o (-1)).
Qed.

Lemma ordered_insert_index o : forall lo n k v,
  Obj.array_index k = Some n -> lo < n -> ~ In k (Obj.keys o) ->
  ordered_from lo (Obj.keys o) = true ->
  ordered_from lo (Obj.keys (Obj.insert_index n k v o)) = true.
Proof.
  induction o as [|[k0 v0] o IH]; intros lo n k v Hk Hlo Hin H.
  - cbn. rewrite Hk. apply Z.ltb_lt in Hlo. now rewrite Hlo.
  - cbn [Obj.keys map fst ordered_from] in H. cbn [Obj.insert_index].
    assert (Hne : k <> k0) by (intros ->; apply Hin; now left).
    assert (Hin' : ~ In k (Obj.keys o)) by (intros I; apply Hin; now right).
    destruct (Obj.array_index k0) as [m|] eqn:E0.
    + apply andb_true_iff in H. destruct H as [H1 H2].
      destruct (m <? n) eqn:Emn.
      * cbn [Obj.keys map fst ordered_from]. rewrite E0, H1. cbn [andb].
        apply Z.ltb_lt in Emn. now apply IH.
      * cbn [Obj.keys map fst ordered_from]. rewrite Hk, E0.
        apply Z.ltb_ge in Emn.
        assert (n <> m) by (intros ->; apply Hne; eapply array_index_inj; eauto).
        assert (Hnm : (n <? m) = true) by (apply Z.ltb_lt; lia).
        apply Z.ltb_lt in Hlo. now rewrite Hlo, Hnm, H2.
    + cbn [Obj.keys map fst ordered_from]. rewrite Hk, E0.
      apply Z.ltb_lt in Hlo. rewrite Hlo. exact H.
Qed.

Lemma ordered_append_plain l : forall lo k,
  ordered_from lo l = true -> Obj.array_index k = None ->
  ordered_from lo (l ++ [k]) = true.
Proof.
  induction l as [|k0 l IH]; intros lo k H Hk; cbn [app ordered_from] in *.
  - now rewrite Hk.
  - destruct (Obj.array_index k0) as [m|].
    + apply andb_true_iff in H. destruct H as [H1 H2].
      rewrite H1. cbn [andb]. now apply IH.
    + rewrite forallb_app, H. cbn. unfold is_index. now rewrite Hk.
Qed.

Lemma ordered_set o k v :
  ordered_from (-1) (Obj.keys o) = true ->
  ordered_from (-1) (Obj.keys (Obj.set o k v)) = true.
Proof.
  intros H. unfold Obj.set. destruct (Obj.has o k) eqn:E.
  - now rewrite keys_replace.
  - apply has_false_get, get_None_keys in E.
    destruct (Obj.array_index k) as [n|] eqn:Ek.
    + apply ordered_insert_index; auto.
      destruct (array_index_canonical k n Ek). lia.
    + unfold Obj.keys. rewrite map_app. now apply ordered_append_plain.
Qed.

Lemma Forall_set (P : string * A -> Prop) o k v :
  Forall P o -> P (k, v) -> Forall P (Obj.set o k v).
Proof.
  intros Ho Hk. unfold Obj.set.
  destruct (Obj.has o k); [|destruct (Obj.array_index k) as [n|]].
  - induction Ho as [|[k0 v0] o H0 Ho IH]; cbn; [constructor|].
    destruct (String.eqb k k0); constructor; auto.
  - induction Ho as [|[k0 v0] o H0 Ho IH]; cbn; [now repeat constructor|].
    destruct (Obj.array_index k0) as [m|]; [destruct (m <? n)|];
      repeat constructor; auto.
  - apply Forall_app. split; [exact Ho | now repeat constructor].
Qed.

End KeyOrder.

(** ** The shape of a parsed genotype *)

Lemma split_parts_clean sep s :
  Forall (fun p => mentions sep p = false) (Js.split sep s).
Proof.
  induction s as [|c s IH]; cbn [Js.split]; [now repeat constructor|].
  destruct (Ascii.eqb c sep) eqn:E; [now constructor|].
  destruct (Js.split sep s) as [|h t].
  - repeat constructor. cbn. now rewrite E.
  - inversion IH; subst. constructor; [|assumption].
    cbn. now rewrite E.
Qed.

Lemma split_parts_keep c sep s :
  mentions c s = false ->
  Forall (fun p => mentions c p = false) (Js.split sep s).
Proof.
  induction s as [|c0 s IH]; cbn [Js.split mentions]; intros H;
    [now repeat constructor|].
  apply orb_false_iff in H. destruct H as [Hc Hs]. specialize (IH Hs).
  destruct (Ascii.eqb c0 sep); [now constructor|].
  destruct (Js.split sep s) as [|h t].
  - repeat constructor. cbn. now rewrite Hc.
  - inversion IH; subst. constructor; [|assumption].
    cbn. now rewrite Hc.
Qed.

Lemma clean_iff s :
  clean s = true <-> mentions ":" s = false /\ mentions "-" s = false.
Proof.
  unfold clean. rewrite andb_true_iff, !negb_true_iff. tauto.
Qed.

Lemma segment_clean segment :
  mentions "-" segment = false ->
  clean (segment_key segment) = true
  /\ clean (Val.toString (segment_value segment)) = true
  /\ (segment_value segment = VUndef
      \/ exists s, segment_value segment = VStr s).
Proof.
  intros H.
  pose proof (split_parts_clean ":" segment) as P1.
  pose proof (split_parts_keep "-" ":" segment H) as P2.
  unfold segment_key, segment_value.
  destruct (Js.split ":" segment) as [|k [|v r]].
  - repeat split; auto.
  - inversion P1; inversion P2; subst.
    repeat split; auto. apply clean_iff. auto.
  - inversion P1 as [|? ? Hk1 P1']; inversion P2 as [|? ? Hk2 P2']; subst.
    inversion P1'; inversion P2'; subst.
    repeat split; eauto; apply clean_iff; auto.
Qed.

Lemma parse_segment_shape genes segment :
  mentions "-" segment = false ->
  Forall shape_ok genes -> Forall shape_ok (parse_segment genes segment).
Proof.
  intros H Hg. destruct (segment_clean segment H) as [Hk [Hv Hs]].
  unfold parse_segment. fold (segment_key segment) (segment_value segment).
  destruct (lookup_trait (segment_key segment)) as [t| |] eqn:L.
  - apply Forall_set; [exact Hg|]. unfold shape_ok. cbn [fst snd].
    rewrite L. repeat split; auto.
    + intros E. rewrite E in L. discriminate.
    + destruct Hs as [Hs|Hs]; auto.
  - destruct (String.eqb_spec (segment_key segment) "__proto__") as [E|N];
      [exact Hg|].
    apply Forall_set; [exact Hg|]. unfold shape_ok. cbn [fst snd].
    rewrite L. repeat split; auto.
  - apply Forall_set; [exact Hg|]. unfold shape_ok. cbn [fst snd].
    rewrite L. repeat split; auto.
    intros E. rewrite E in L. discriminate.
Qed.

Lemma parse_segment_ordered genes segment :
  ordered_from (-1) (Obj.keys genes) = true ->
  ordered_from (-1) (Obj.keys (parse_segment genes segment)) = true.
Proof.
  intros H. unfold parse_segment.
  destruct (lookup_trait _); [| destruct (String.eqb _ _) |];
    auto using ordered_set.
Qed.

Lemma parse_segments_shape segments : forall genes,
  Forall (fun s => mentions "-" s = false) segments ->
  ordered_from (-1) (Obj.keys genes) = true /\ Forall shape_ok genes ->
  ordered_from (-1) (Obj.keys (fold_left parse_segment segments genes)) = true
  /\ Forall shape_ok (fold_left parse_segment segments genes).
Proof.
  induction segments as [|s segments IH]; intros genes Hs [Ho Hg];
    [now split|].
  inversion Hs; subst. cbn [fold_left]. apply IH; [assumption|].
  split; [now apply parse_segment_ordered | now apply parse_segment_shape].
Qed.

Lemma registry_entry_shape e :
  In e GENE_TRAITS -> shape_ok (fst e, defaultValue (snd e)).
Proof.
  intros H. simpl in H.
  repeat (destruct H as [H|H];
          [subst e; unfold shape_ok; cbn [fst snd];
           repeat split; try reflexivity; try discriminate;
           right; right; reflexivity|]).
  destruct H.
Qed.

Lemma fill_all_shape traits : forall genes,
  (forall e, In e traits -> In e GENE_TRAITS) ->
  ordered_from (-1) (Obj.keys genes) = true /\ Forall shape_ok genes ->
  ordered_from (-1) (Obj.keys (fold_left fill_missing traits genes)) = true
  /\ Forall shape_ok (fold_left fill_missing traits genes).
Proof.
  induction traits as [|[key trait] traits IH]; intros genes Hin [Ho Hg];
    [now split|].
  cbn [fold_left]. apply IH; [intros e I; apply Hin; now right|].
  unfold fill_missing. destruct (Val.truthy _); [now split|].
  split; [now apply ordered_set|].
  apply Forall_set; [exact Hg|].
  apply (registry_entry_shape (key, trait)). apply Hin. now left.
Qed.

(** Every parsed genotype is well formed. *)
Lemma parsed_well_formed sequence : well_formed (parseGeneSequence sequence).
Proof.
  unfold well_formed.
  split; [apply parseGeneSequence_NoDup|].
  assert (H : ordered_from (-1) (Obj.keys (parseGeneSequence sequence)) = true
              /\ Forall shape_ok (parseGeneSequence sequence)).
  { unfold parseGeneSequence. apply fill_all_shape; [auto|].
    apply parse_segments_shape; [apply split_parts_clean|].
    split; [reflexivity | constructor]. }
  destruct H as [H1 H2]. repeat split; auto.
  intros k t. apply parseGeneSequence_registered.
Qed.

(** ** Serialising and parsing again *)

Lemma keys_stringify g : Obj.keys (stringify g) = Obj.keys g.
Proof. unfold stringify, Obj.keys. rewrite map_map. reflexivity. Qed.

Lemma get_stringify g k :
  Obj.get (stringify g) k
  = option_map (fun v => VStr (Val.toString v)) (Obj.get g k).
Proof.
  induction g as [|[k0 v0] g IH]; cbn; [reflexivity|].
  destruct (String.eqb k k0); [reflexivity | exact IH].
Qed.

Lemma toGeneSequence_stringify g :
  toGeneSequence (stringify g) = toGeneSequence g.
Proof. unfold toGeneSequence, stringify. now rewrite map_map. Qed.

Lemma segment_of_split k v :
  clean k = true -> clean (Val.toString v) = true ->
  Js.split ":" (segment_of k v) = [k; Val.toString v].
Proof.
  intros Hk Hv. apply clean_iff in Hk, Hv.
  unfold segment_of.
  change (k ++ ":" ++ Val.toString v)%string
    with (k ++ String ":" (Val.toString v))%string.
  rewrite split_app_sep by tauto. now rewrite split_clean by tauto.
Qed.

Lemma parse_own_segment acc k v :
  shape_ok (k, v) ->
  parse_segment acc (segment_of k v) = Obj.set acc k (VStr (Val.toString v)).
Proof.
  unfold shape_ok. cbn [fst snd]. intros [Hk [Hv [Hp Hl]]].
  unfold parse_segment. rewrite (segment_of_split k v Hk Hv).
  destruct (lookup_trait k).
  - reflexivity.
  - apply String.eqb_neq in Hp. now rewrite Hp.
  - now rewrite Hl.
Qed.

Lemma reparse_segments g :
  NoDup (Obj.keys g) -> ordered_from (-1) (Obj.keys g) = true ->
  Forall shape_ok g ->
  fold_left parse_segment (map (fun e => segment_of (fst e) (snd e)) g) []
  = stringify g.
Proof.
  induction g as [|[k v] g IH] using rev_ind; intros ND Ho Hs; [reflexivity|].
  unfold Obj.keys in ND, Ho. rewrite map_app in ND, Ho. cbn [map fst] in ND, Ho.
  apply Forall_app in Hs. destruct Hs as [Hg Hk]. inversion Hk; subst.
  rewrite map_app, fold_left_app. cbn [map fold_left fst snd].
  rewrite IH; auto.
  - rewrite parse_own_segment by assumption.
    rewrite set_appends.
    + unfold stringify. now rewrite map_app.
    + now rewrite keys_stringify.
    + rewrite keys_stringify. apply NoDup_remove_2 in ND.
      now rewrite app_nil_r in ND.
  - apply NoDup_remove_1 in ND. now rewrite app_nil_r in ND.
  - now apply ordered_drop_last in Ho.
Qed.

Lemma registry_defaults_print key t :
  Obj.get GENE_TRAITS key = Some t ->
  Val.truthy (VStr (Val.toString (defaultValue t))) = true.
Proof. intros H. each_trait H ltac:(reflexivity). Qed.

Lemma stringify_truthy g k t :
  well_formed g -> Obj.get GENE_TRAITS k = Some t ->
  Val.truthy (gene_at (stringify g) k) = true.
Proof.
  intros [ND [_ [Hs Ht]]] Hk. specialize (Ht k t Hk).
  unfold gene_at in *. rewrite get_stringify.
  destruct (Obj.get g k) as [v|] eqn:E; [|discriminate]. cbn [option_map].
  apply get_In in E. rewrite Forall_forall in Hs. specialize (Hs _ E).
  unfold shape_ok in Hs. cbn [fst snd] in Hs. destruct Hs as [_ [_ [_ Hl]]].
  apply lookup_own in Hk. rewrite Hk in Hl.
  destruct Hl as [-> | [[s ->] | ->]].
  - discriminate.
  - exact Ht.
  - apply (registry_defaults_print k). now apply lookup_own.
Qed.

Lemma segment_of_no_dash k v :
  clean k = true -> clean (Val.toString v) = true ->
  mentions "-" (segment_of k v) = false.
Proof.
  intros Hk Hv. apply clean_iff in Hk, Hv. unfold segment_of.
  rewrite !mentions_app. destruct Hk as [_ ->], Hv as [_ ->]. reflexivity.
Qed.

Lemma well_formed_nonempty g : well_formed g -> g <> [].
Proof.
  intros [_ [_ [_ Ht]]] ->.
  specialize (Ht "FC" (qualitative Traits.FC) eq_refl). discriminate.
Qed.

(** Parsing the serialisation of a well-formed genotype gives the same
    entries with every value as text. *)
Lemma reparse_well_formed g :
  well_formed g -> parseGeneSequence (toGeneSequence g) = stringify g.
Proof.
  intros W. pose proof (well_formed_nonempty g W) as Hne.
  destruct W as [ND [Ho [Hs Ht]]].
  unfold parseGeneSequence, toGeneSequence.
  rewrite split_join.
  - rewrite reparse_segments by assumption.
    apply fill_all_noop. intros [key trait] I. cbn [fst].
    apply (stringify_truthy g key trait); [repeat split; auto|].
    apply In_get; [apply registry_keys_NoDup | exact I].
  - destruct g; [congruence | discriminate].
  - intros s I. apply in_map_iff in I. destruct I as [[k v] [<- I]].
    rewrite Forall_forall in Hs. specialize (Hs _ I).
    destruct Hs as [Hk [Hv _]]. now apply segment_of_no_dash.
Qed.

(** X2.  Serialising a parsed genotype and parsing the result keeps the
    keys and their order and replaces every value by its text (a numeric
    default 3 by ["3"], [undefined] by ["undefined"]); serialising once
    more gives the same sequence again. *)
Theorem serialize_parsed_is_stable sequence :
  let g := parseGeneSequence sequence in
  parseGeneSequence (toGeneSequence g) = stringify g
  /\ toGeneSequence (parseGeneSequence (toGeneSequence g)) = toGeneSequence g.
Proof.
  intros g.
  assert (H : parseGeneSequence (toGeneSequence g) = stringify g)
    by apply reparse_well_formed, parsed_well_formed.
  split; [exact H|]. rewrite H. apply toGeneSequence_stringify.
Qed.

(** ** The phenotype of a re-parsed genotype *)

Lemma default_value_text key t :
  Obj.get GENE_TRAITS key = Some t ->
  match t with
  | qualitative g =>
      resolve_qualitative g (VStr (Val.toString (defaultValue t)))
      = resolve_qualitative g (defaultValue t)
  | quantitative g =>
      resolve_quantitative g (VStr (Val.toString (defaultValue t)))
      = resolve_quantitative g (defaultValue t)
  end
  /\ is_homozygous (VStr (Val.toString (defaultValue t)))
     = is_homozygous (defaultValue t).
Proof. intros H. each_trait H ltac:(split; vm_compute; reflexivity). Qed.

Lemma resolve_gene_stringify acc k v :
  shape_ok (k, v) ->
  (forall t, lookup_trait k = Own t -> Val.truthy v = true) ->
  resolve_gene acc (k, VStr (Val.toString v)) = resolve_gene acc (k, v).
Proof.
  intros [_ [_ [_ Hl]]] Ht. cbn [fst snd] in Hl.
  destruct acc as [ph|]; [|reflexivity]. unfold resolve_gene.
  destruct (lookup_trait k) as [t| |] eqn:L; try reflexivity.
  specialize (Ht t eq_refl).
  destruct Hl as [-> | [[s ->] | ->]]; [discriminate | reflexivity |].
  apply lookup_own in L. destruct (default_value_text k t L) as [H _].
  destruct t as [g|g]; now rewrite H.
Qed.

Lemma is_homozygous_stringify k v :
  shape_ok (k, v) -> is_homozygous (VStr (Val.toString v)) = is_homozygous v.
Proof.
  intros [_ [_ [_ Hl]]]. cbn [fst snd] in Hl.
  destruct (lookup_trait k) as [t| |] eqn:L.
  - destruct Hl as [-> | [[s ->] | ->]]; try reflexivity.
    apply lookup_own in L. now destruct (default_value_text k t L).
  - destruct Hl as [-> | [s ->]]; reflexivity.
  - now rewrite Hl.
Qed.

Lemma well_formed_entry g k v t :
  well_formed g -> In (k, v) g -> lookup_trait k = Own t ->
  Val.truthy v = true.
Proof.
  intros [ND [_ [_ Ht]]] I L. apply lookup_own in L.
  specialize (Ht k t L). unfold gene_at in Ht.
  now rewrite (In_get g k v ND I) in Ht.
Qed.

Lemma resolve_fold_stringify g : forall l acc,
  well_formed g -> (forall e, In e l -> In e g) ->
  fold_left resolve_gene (stringify l) acc = fold_left resolve_gene l acc.
Proof.
  intros l. induction l as [|[k v] l IH]; intros acc W Hl; [reflexivity|].
  cbn [stringify map fold_left fst snd].
  assert (I : In (k, v) g) by (apply Hl; now left).
  rewrite resolve_gene_stringify.
  - apply IH; [exact W | intros e Ie; apply Hl; now right].
  - destruct W as [_ [_ [Hs _]]]. rewrite Forall_forall in Hs. now apply Hs.
  - intros t L. eapply well_formed_entry; eauto.
Qed.

Lemma homozygousCount_stringify g :
  Forall shape_ok g -> homozygousCount (stringify g) = homozygousCount g.
Proof.
  unfold homozygousCount, stringify. intros H. f_equal.
  induction H as [|[k v] g Hk Hg IH]; [reflexivity|].
  cbn [map filter fst snd].
  rewrite (is_homozygous_stringify k v Hk).
  destruct (is_homozygous v); cbn [length]; now rewrite IH.
Qed.

Lemma calculatePhenotype_stringify g :
  well_formed g -> calculatePhenotype (stringify g) = calculatePhenotype g.
Proof.
  intros W. unfold calculatePhenotype.
  rewrite (resolve_fold_stringify g g _ W) by auto.
  destruct (fold_left resolve_gene g (Some [])) as [ph|]; [|reflexivity].
  unfold calculateTraitInteractions, inbreeding.
  rewrite homozygousCount_stringify; [reflexivity|].
  now destruct W as [_ [_ [Hs _]]].
Qed.

Lemma append_nonempty a c b : (a ++ String c b)%string <> "".
Proof. destruct a; discriminate. Qed.

Lemma append_nonempty_l a b : a <> "" -> (a ++ b)%string <> "".
Proof. destruct a; [congruence | discriminate]. Qed.

Lemma toGeneSequence_nonempty g :
  g <> [] -> String.eqb (toGeneSequence g) "" = false.
Proof.
  intros Hne. apply String.eqb_neq.
  destruct g as [|[k v] g]; [congruence|].
  unfold toGeneSequence, Js.join. cbn [map String.concat fst snd].
  unfold segment_of.
  change (k ++ ":" ++ Val.toString v)%string
    with (k ++ String ":" (Val.toString v))%string.
  destruct (map _ g).
  - apply append_nonempty.
  - apply append_nonempty_l, append_nonempty.
Qed.

(** ** The numbers a trait can resolve to *)

Lemma numeric_value_candidate gene value :
  (Gene.min gene <= Gene.max gene)%Q ->
  In (numeric_value gene value) (candidates gene).
Proof.
  intros Hr.
  destruct (numeric_value_shape gene value Hr) as [q [-> [H1 [H2 H3]]]].
  unfold candidates.
  destruct H3 as [-> | [-> | [-> | [z ->]]]];
    [now left | right; now left | right; right; now left |].
  right. right. right.
  apply Qceiling_resp_le in H1. rewrite Qceiling_Z in H1.
  apply Qfloor_resp_le in H2. rewrite Qfloor_Z in H2.
  apply in_map_iff. exists (Z.to_nat (z - Qceiling (Gene.min gene))).
  split.
  - unfold Js.of_Z. do 2 f_equal. lia.
  - apply in_seq. lia.
Qed.

Lemma resolve_quantitative_object gene value :
  resolve_quantitative gene value
  = quant_object gene (numeric_value gene value).
Proof. reflexivity. Qed.

(** ** Locality of the interactions *)

Lemma get_set_field ph key f v k :
  Obj.get (set_field ph key f v) k
  = if String.eqb k key then
      match Obj.get ph key with
      | Some (PhQuant o) => Some (PhQuant (Obj.set o f v))
      | x => x
      end
    else Obj.get ph k.
Proof.
  destruct (String.eqb_spec k key) as [->|Hne].
  - unfold set_field.
    destruct (Obj.get ph key) as [[| |o]|] eqn:E; rewrite ?E; try reflexivity.
    apply get_set_same.
  - now apply get_set_field_other.
Qed.

Lemma get_inbreeding genes ph k :
  k <> "YD" -> Obj.get (inbreeding genes ph) k = Obj.get ph k.
Proof.
  intros Hk. unfold inbreeding.
  destruct (_ <? _); destruct (pheno_truthy _); try reflexivity;
    now rewrite get_set_field_other.
Qed.

Section Locality.
Variables ph ph' : Phenotype.
Hypothesis agree : forall k, In k interacting -> Obj.get ph k = Obj.get ph' k.

Let agree_GR : Obj.get ph "GR" = Obj.get ph' "GR".
Proof. apply agree. simpl. tauto. Qed.
Let agree_SZ : Obj.get ph "SZ" = Obj.get ph' "SZ".
Proof. apply agree. simpl. tauto. Qed.
Let agree_WN : Obj.get ph "WN" = Obj.get ph' "WN".
Proof. apply agree. simpl. tauto. Qed.
Let agree_RS : Obj.get ph "RS" = Obj.get ph' "RS".
Proof. apply agree. simpl. tauto. Qed.

Lemma growth_size_local k :
  In k interacting ->
  Obj.get (growth_size ph) k = Obj.get (growth_size ph') k.
Proof.
  intros Hk. unfold growth_size. cbv zeta.
  rewrite !agree_GR, !agree_SZ.
  destruct (_ && _)%bool; [|now apply agree].
  rewrite !get_set_field, !agree_GR, (agree k Hk). reflexivity.
Qed.

Lemma water_size_local k :
  In k interacting ->
  Obj.get (water_size ph) k = Obj.get (water_size ph') k.
Proof.
  intros Hk. unfold water_size. cbv zeta.
  rewrite !agree_WN, !agree_SZ.
  destruct (_ && _)%bool; [|now apply agree].
  rewrite !get_set_field, !agree_WN, (agree k Hk). reflexivity.
Qed.

Lemma growth_resistance_local k :
  In k interacting ->
  Obj.get (growth_resistance ph) k = Obj.get (growth_resistance ph') k.
Proof.
  intros Hk. unfold growth_resistance. cbv zeta.
  rewrite !agree_GR, !agree_RS.
  destruct (_ && _)%bool; [|destruct (pheno_truthy _); [|now apply agree]].
  - rewrite !get_set_field. cbn [String.eqb Ascii.eqb Bool.eqb].
    rewrite !agree_RS, (agree k Hk). reflexivity.
  - rewrite !get_set_field, !agree_RS, (agree k Hk). reflexivity.
Qed.

End Locality.

Lemma parsed_base sequence ph0 key gene :
  fold_left resolve_gene (parseGeneSequence sequence) (Some []) = Some ph0 ->
  Obj.get GENE_TRAITS key = Some (quantitative gene) ->
  exists n, In n (candidates gene)
            /\ Obj.get ph0 key = Some (quant_object gene n).
Proof.
  intros Hfold Hkey.
  destruct (resolve_fold_quant _ _ _ key gene Hfold Hkey)
    as [[value [_ G]]|[N _]].
  - exists (numeric_value gene value). split; [|exact G].
    apply numeric_value_candidate. eapply registry_ranges; eauto.
  - exfalso. apply N. eapply parsed_has_registered; eauto.
Qed.

Lemma derived4_agrees genes ph0 gr sz wn rs :
  Obj.get ph0 "GR" = Some gr -> Obj.get ph0 "SZ" = Some sz ->
  Obj.get ph0 "WN" = Some wn -> Obj.get ph0 "RS" = Some rs ->
  forall k, In k interacting ->
    Obj.get (calculateTraitInteractions genes ph0) k
    = Obj.get (derived4 gr sz wn rs) k.
Proof.
  intros H1 H2 H3 H4 k Hk. unfold calculateTraitInteractions, derived4.
  rewrite get_inbreeding
    by (intros ->; simpl in Hk; intuition discriminate).
  apply growth_resistance_local; [|exact Hk].
  intros k1 Hk1. apply water_size_local; [|exact Hk1].
  intros k2 Hk2. apply growth_size_local; [|exact Hk2].
  intros k3 Hk3. simpl in Hk3.
  destruct Hk3 as [<-|[<-|[<-|[<-|[]]]]]; cbn; assumption.
Qed.

(** A property of the four interacting traits that holds on every
    combination of candidate numbers holds on the phenotype of every parsed
    genotype. *)
Lemma parsed_phenotype_check P sequence ph :
  check4 P = true ->
  calculatePhenotype (parseGeneSequence sequence) = Some ph ->
  P (Obj.get ph "GR") (Obj.get ph "SZ") (Obj.get ph "WN") (Obj.get ph "RS")
  = true.
Proof.
  intros Hc Hph. unfold calculatePhenotype in Hph.
  destruct (fold_left resolve_gene (parseGeneSequence sequence) (Some []))
    as [ph0|] eqn:Hfold; [|discriminate].
  inversion Hph; subst ph; clear Hph.
  destruct (parsed_base sequence ph0 "GR" Traits.GR Hfold eq_refl)
    as [n1 [I1 G1]].
  destruct (parsed_base sequence ph0 "SZ" Traits.SZ Hfold eq_refl)
    as [n2 [I2 G2]].
  destruct (parsed_base sequence ph0 "WN" Traits.WN Hfold eq_refl)
    as [n3 [I3 G3]].
  destruct (parsed_base sequence ph0 "RS" Traits.RS Hfold eq_refl)
    as [n4 [I4 G4]].
  pose proof (derived4_agrees (parseGeneSequence sequence) ph0 _ _ _ _
                G1 G2 G3 G4) as Ha.
  rewrite (Ha "GR"), (Ha "SZ"), (Ha "WN"), (Ha "RS") by (simpl; tauto).
  unfold check4 in Hc.
  rewrite forallb_forall in Hc. specialize (Hc n1 I1).
  rewrite forallb_forall in Hc. specialize (Hc n2 I2).
  rewrite forallb_forall in Hc. specialize (Hc n3 I3).
  rewrite forallb_forall in Hc. exact (Hc n4 I4).
Qed.

(** ** Derived traits of a constructed plant *)

Lemma fin_Some x q : fin x = Some q -> x = Some (Js.Fin q).
Proof. destruct x as [[|q']|]; simpl; intros H; inversion H; reflexivity. Qed.

Lemma growth_check_all : check4 growth_check = true.
Proof. vm_compute. reflexivity. Qed.

Lemma water_check_all : check4 water_check = true.
Proof. vm_compute. reflexivity. Qed.

Lemma pest_check_all : check4 pest_check = true.
Proof. vm_compute. reflexivity. Qed.

Lemma weather_check_all : check4 weather_check = true.
Proof. vm_compute. reflexivity. Qed.

Ltac unpack_check H :=
  repeat match type of H with
         | match fin ?x with _ => _ end = true =>
             let q := fresh "q" in
             let E := fresh "E" in
             destruct (fin x) as [q|] eqn:E;
             [apply fin_Some in E | discriminate H]
         end;
  repeat match type of H with
         | (_ && _)%bool = true =>
             let H' := fresh "H" in
             apply andb_true_iff in H; destruct H as [H H']
         end.

Lemma growth_facts sequence ph :
  calculatePhenotype (parseGeneSequence sequence) = Some ph ->
  exists v m e d,
    field (Obj.get ph "GR") "value" = Some (Js.Fin v)
    /\ field (Obj.get ph "SZ") "growthModifier" = Some (Js.Fin m)
    /\ field (Obj.get ph "GR") "effectiveValue" = Some (Js.Fin e)
    /\ field (Obj.get ph "GR") "daysToMature" = Some (Js.Fin d)
    /\ pheno_truthy (Obj.get ph "GR") = true
    /\ (e == v * m)%Q /\ (0.4 <= e <= 1.8)%Q /\ (5 <= d <= 19)%Q.
Proof.
  intros Hph.
  pose proof (parsed_phenotype_check growth_check sequence ph
                growth_check_all Hph) as H.
  unfold growth_check in H. unpack_check H.
  exists q, q0, q1, q2.
  repeat match goal with
         | X : Qle_bool _ _ = true |- _ => apply Qle_bool_iff in X
         | X : Qeq_bool _ _ = true |- _ => apply Qeq_bool_iff in X
         end.
  repeat split; assumption.
Qed.

Lemma water_facts sequence ph :
  calculatePhenotype (parseGeneSequence sequence) = Some ph ->
  exists b m w,
    field (Obj.get ph "WN") "waterPerDay" = Some (Js.Fin b)
    /\ field (Obj.get ph "SZ") "waterModifier" = Some (Js.Fin m)
    /\ field (Obj.get ph "WN") "effectiveWaterPerDay" = Some (Js.Fin w)
    /\ pheno_truthy (Obj.get ph "WN") = true
    /\ (w == inject_Z (Qfloor (b * m + (1 # 2))))%Q
    /\ (8 <= w <= 36)%Q.
Proof.
  intros Hph.
  pose proof (parsed_phenotype_check water_check sequence ph
                water_check_all Hph) as H.
  unfold water_check in H. unpack_check H.
  exists q, q0, q1.
  repeat match goal with
         | X : Qle_bool _ _ = true |- _ => apply Qle_bool_iff in X
         | X : Qeq_bool _ _ = true |- _ => apply Qeq_bool_iff in X
         end.
  repeat split; assumption.
Qed.

Lemma pest_facts sequence ph :
  calculatePhenotype (parseGeneSequence sequence) = Some ph ->
  exists v c e,
    field (Obj.get ph "GR") "value" = Some (Js.Fin v)
    /\ field (Obj.get ph "RS") "pestDamageChance" = Some (Js.Fin c)
    /\ field (Obj.get ph "RS") "effectivePestDamageChance" = Some (Js.Fin e)
    /\ pheno_truthy (Obj.get ph "RS") = true
    /\ ((v <= 1.2 /\ e == c) \/ (v == 1.5 /\ e == c * 1.25))%Q
    /\ (0.05 <= e <= 0.625)%Q.
Proof.
  intros Hph.
  pose proof (parsed_phenotype_check pest_check sequence ph
                pest_check_all Hph) as H.
  unfold pest_check in H. unpack_check H.
  exists q, q0, q1.
  repeat match goal with
         | X : Qle_bool _ _ = true |- _ => apply Qle_bool_iff in X
         end.
  repeat split; try assumption.
  match goal with
  | X : (if ?c then _ else _) = true |- _ =>
      destruct c eqn:E2;
      [ left; apply Qle_bool_iff in E2; apply Qeq_bool_iff in X; now split
      | right; apply andb_true_iff in X; destruct X as [Ha Hb];
        apply Qeq_bool_iff in Ha, Hb; now split ]
  end.
Qed.

Lemma weather_facts sequence ph :
  calculatePhenotype (parseGeneSequence sequence) = Some ph ->
  exists c r s,
    field (Obj.get ph "RS") "weatherDamageChance" = Some (Js.Fin c)
    /\ field (Obj.get ph "WN") "droughtResistance" = Some (Js.Fin r)
    /\ field (Obj.get ph "SZ") "value" = Some (Js.Fin s)
    /\ (0.05 <= c <= 0.4)%Q /\ (0.3 <= r <= 0.7)%Q /\ (1 <= s <= 5)%Q.
Proof.
  intros Hph.
  pose proof (parsed_phenotype_check weather_check sequence ph
                weather_check_all Hph) as H.
  unfold weather_check in H. unpack_check H.
  exists q, q0, q1.
  repeat match goal with
         | X : Qle_bool _ _ = true |- _ => apply Qle_bool_iff in X
         end.
  repeat split; assumption.
Qed.

(** X5.  Water and size.  For the plant built from any sequence the
    effective water need per day is the rounded product of the water need
    and the water modifier of the size, and lies between 8 and 36. *)
Theorem water_and_size sequence :
  exists ph b m w,
    calculatePhenotype (parseGeneSequence sequence) = Some ph
    /\ field (Obj.get ph "WN") "waterPerDay" = Some (Js.Fin b)
    /\ field (Obj.get ph "SZ") "waterModifier" = Some (Js.Fin m)
    /\ field (Obj.get ph "WN") "effectiveWaterPerDay" = Some (Js.Fin w)
    /\ (w == inject_Z (Qfloor (b * m + (1 # 2))))%Q
    /\ (8 <= w <= 36)%Q.
Proof.
  destruct (calculatePhenotype_parsed sequence) as [ph Hph].
  destruct (water_facts sequence ph Hph)
    as [b [m [w [H1 [H2 [H3 [_ [H4 H5]]]]]]]].
  exists ph, b, m, w. auto 10.
Qed.

(** X6.  Growth and resistance.  For the plant built from any sequence the
    effective pest damage chance equals the base chance of the resistance
    level unless the growth rate is 1.5, where it is the base chance times
    1.25; it always lies between 0.05 and 0.625, so the cap at 1.0 never
    takes effect. *)
Theorem growth_and_resistance sequence :
  exists ph v c e,
    calculatePhenotype (parseGeneSequence sequence) = Some ph
    /\ field (Obj.get ph "GR") "value" = Some (Js.Fin v)
    /\ field (Obj.get ph "RS") "pestDamageChance" = Some (Js.Fin c)
    /\ field (Obj.get ph "RS") "effectivePestDamageChance" = Some (Js.Fin e)
    /\ ((v <= 1.2 /\ e == c) \/ (v == 1.5 /\ e == c * 1.25))%Q
    /\ (0.05 <= e <= 0.625)%Q.
Proof.
  destruct (calculatePhenotype_parsed sequence) as [ph Hph].
  destruct (pest_facts sequence ph Hph)
    as [v [c [e [H1 [H2 [H3 [_ [H4 H5]]]]]]]].
  exists ph, v, c, e. auto 10.
Qed.

(** ** The growth rates a sequence can give *)

Lemma clamp_cases lo hi x :
  (lo <= hi)%Q ->
  exists q, Js.max (Js.Fin lo) (Js.min (Js.Fin hi) (Js.Fin x)) = Js.Fin q
            /\ (lo <= q <= hi)%Q
            /\ ((x < lo /\ q = lo) \/ (hi <= x /\ q = hi)
                \/ (lo <= x /\ x < hi /\ q = x))%Q.
Proof.
  intros Hr. cbn [Js.max Js.min].
  destruct (Qle_bool hi x) eqn:E1.
  - apply Qle_bool_iff in E1.
    assert (E2 : Qle_bool lo hi = true) by now apply Qle_bool_iff.
    rewrite E2. exists hi. split; [reflexivity|]. split; [lra|].
    right. left. auto.
  - apply Qle_bool_false in E1.
    destruct (Qle_bool lo x) eqn:E2.
    + apply Qle_bool_iff in E2. exists x.
      split; [reflexivity|]. split; [lra|]. right. right. auto.
    + apply Qle_bool_false in E2. exists lo.
      split; [reflexivity|]. split; [lra|]. left. auto.
Qed.

Lemma skip_space_clean c s :
  mentions c s = false -> mentions c (Js.skip_space s) = false.
Proof.
  induction s as [|a s IH]; intros H; [reflexivity|].
  cbn [Js.skip_space]. destruct (Js.is_space a); [|exact H].
  apply IH. cbn [mentions] in H. apply orb_false_iff in H. tauto.
Qed.

(** Without a minus sign [parseInt] gives no negative number. *)
Lemma parseInt_nonneg s :
  mentions "-" s = false ->
  Js.parseInt s = Js.NaN \/ exists z, 0 <= z /\ Js.parseInt s = Js.of_Z z.
Proof.
  intros H. apply skip_space_clean in H. unfold Js.parseInt.
  destruct (Js.skip_space s) as [|c r] eqn:E.
  - left. reflexivity.
  - destruct (Ascii.eqb_spec c "-") as [->|Hm].
    { cbn in H. discriminate. }
    assert (Hd : forall t, match Js.digits None t with
                           | Some z => Js.of_Z z
                           | None => Js.NaN
                           end = Js.NaN
                           \/ exists z, 0 <= z
                                /\ match Js.digits None t with
                                   | Some z => Js.of_Z z
                                   | None => Js.NaN
                                   end = Js.of_Z z).
    { intros t. destruct (Js.digits None t) as [z|] eqn:D; [|now left].
      right. exists z. split; [|reflexivity].
      eapply digits_nonneg; [|exact D]. exact I. }
    destruct (Ascii.eqb_spec c "+") as [->|Hp]; [apply Hd|].
    assert (Hc : match c with
                 | "-"%char => (true, r)
                 | "+"%char => (false, r)
                 | _ => (false, String c r)
                 end = (false, String c r)).
    { destruct c as [[] [] [] [] [] [] [] []]; try reflexivity; congruence. }
    rewrite Hc. apply Hd.
Qed.

Lemma or_at_least t lo :
  mentions "-" t = false -> (lo <= 1)%Q ->
  exists a, Js.or (Js.parseInt t) (Js.Fin lo) = Js.Fin a /\ (lo <= a)%Q.
Proof.
  intros H Hlo. destruct (parseInt_nonneg t H) as [->|[z [Hz ->]]].
  - exists lo. split; [reflexivity | lra].
  - unfold Js.or, Js.truthy, Js.of_Z.
    destruct (Qeq_bool (inject_Z z) 0) eqn:E; cbn [negb].
    + exists lo. split; [reflexivity | lra].
    + exists (inject_Z z). split; [reflexivity|].
      assert (Hz1 : 1 <= z).
      { destruct (Z.eq_dec z 0) as [->|]; [discriminate E | lia]. }
      rewrite Zle_Qle in Hz1. change (inject_Z 1) with 1%Q in Hz1. lra.
Qed.

Lemma char_clean s i :
  mentions "-" s = false ->
  mentions "-" (key_of_char (Val.index (VStr s) i)) = false.
Proof.
  cbn [Val.index]. unfold Js.char_at. revert i.
  induction s as [|a s IH]; intros i H.
  - destruct i; reflexivity.
  - cbn [mentions] in H. apply orb_false_iff in H. destruct H as [H1 H2].
    destruct i as [|i]; cbn [String.get].
    + cbn. rewrite H1. reflexivity.
    + apply IH, H2.
Qed.

(** A gene value without a minus sign never resolves to a growth rate
    below 1. *)
Lemma growth_value_at_least_one value :
  value = defaultValue (quantitative Traits.GR)
  \/ (exists s, value = VStr s /\ mentions "-" s = false) ->
  exists q, numeric_value Traits.GR value = Js.Fin q /\ (1 <= q <= 1.5)%Q.
Proof.
  intros H.
  assert (Hx : exists x,
             (if Val.is_string_of_length value 2 then
                Js.round
                  (Js.div
                     (Js.add
                        (Js.or (Js.parseInt (key_of_char (Val.index value 0)))
                               (Js.Fin (Gene.min Traits.GR)))
                        (Js.or (Js.parseInt (key_of_char (Val.index value 1)))
                               (Js.Fin (Gene.min Traits.GR))))
                     (Js.of_Z 2))
              else Js.or (Js.parseInt (Val.toString value))
                         (Js.Fin (Gene.quant_default Traits.GR)))
             = Js.Fin x /\ (1 <= x)%Q).
  { destruct H as [->|[s [-> Hs]]].
    - exists 1%Q. split; [vm_compute; reflexivity | lra].
    - destruct (Val.is_string_of_length (VStr s) 2).
      + destruct (or_at_least _ (Gene.min Traits.GR) (char_clean s 0 Hs))
          as [a1 [-> B1]]; [cbn; lra|].
        destruct (or_at_least _ (Gene.min Traits.GR) (char_clean s 1 Hs))
          as [a2 [-> B2]]; [cbn; lra|].
        cbn [Js.add Js.div Js.lift2 Js.of_Z Js.round].
        eexists. split; [reflexivity|].
        cbn [Gene.min Traits.GR] in B1, B2.
        change 1%Q with (inject_Z 1). rewrite <- Zle_Qle.
        apply (Z.le_trans _ (Qfloor 1)); [vm_compute; discriminate|].
        apply Qfloor_resp_le.
        unfold Qdiv. change (/ inject_Z 2)%Q with (1 # 2)%Q. lra.
      + cbn [Val.toString].
        destruct (or_at_least s (Gene.quant_default Traits.GR) Hs)
          as [a [-> Ba]]; [cbn; lra|].
        exists a. split; [reflexivity|].
        cbn [Gene.quant_default Traits.GR] in Ba. lra. }
  destruct Hx as [x [Hx Bx]].
  unfold numeric_value. rewrite Hx.
  destruct (clamp_cases (Gene.min Traits.GR) (Gene.max Traits.GR) x)
    as [q [-> [Bq Hq]]]; [cbn; lra|].
  exists q. split; [reflexivity|].
  cbn [Gene.min Gene.max Traits.GR] in *.
  destruct Hq as [[? ->] | [[? ->] | [? [? ->]]]]; lra.
Qed.

Lemma growth_rate_value sequence ph :
  calculatePhenotype (parseGeneSequence sequence) = Some ph ->
  exists v, field (Obj.get ph "GR") "value" = Some (Js.Fin v)
            /\ (v == 1 \/ v == 1.5)%Q.
Proof.
  intros Hph. unfold calculatePhenotype in Hph.
  destruct (fold_left resolve_gene (parseGeneSequence sequence) (Some []))
    as [ph0|] eqn:Hfold; [|discriminate].
  inversion Hph; subst ph; clear Hph.
  rewrite interactions_keep_field by (simpl; intuition discriminate).
  destruct (resolve_fold_quant _ _ _ "GR" Traits.GR Hfold eq_refl)
    as [[value [Hin G]]|[N _]];
    [|exfalso; apply N; eapply parsed_has_registered; reflexivity].
  rewrite G, (resolve_quantitative_value "GR") by reflexivity.
  destruct (parsed_well_formed sequence) as [_ [_ [Hs _]]].
  rewrite Forall_forall in Hs. specialize (Hs _ Hin).
  destruct Hs as [_ [Hv [_ Ht]]]. cbn [fst snd] in Hv, Ht.
  change (lookup_trait "GR") with (Own (quantitative Traits.GR)) in Ht.
  assert (Hq : exists q, numeric_value Traits.GR value = Js.Fin q
                         /\ (1 <= q <= 1.5)%Q).
  { destruct Ht as [-> | [[s ->] | ->]].
    - exists 1.0%Q. split; [vm_compute; reflexivity | lra].
    - apply growth_value_at_least_one. right. exists s. split; [reflexivity|].
      unfold clean in Hv. cbn [Val.toString] in Hv.
      apply andb_true_iff in Hv. destruct Hv as [_ Hv].
      now apply negb_true_iff in Hv.
    - apply growth_value_at_least_one. now left. }
  destruct Hq as [q [Hq Bq]].
  pose proof (numeric_value_candidate Traits.GR value ltac:(cbn; lra)) as Hc.
  rewrite Hq in *. exists q. split; [reflexivity|].
  cbn in Hc.
  destruct Hc as [E | [E | [E | [E | []]]]]; inversion E; subst q;
    unfold inject_Z; first [exfalso; lra | left; lra | right; lra].
Qed.

Lemma growth_tight_check_all : check4 growth_tight_check = true.
Proof. vm_compute. reflexivity. Qed.

Lemma growth_tight_facts sequence ph :
  calculatePhenotype (parseGeneSequence sequence) = Some ph ->
  exists v m e d,
    field (Obj.get ph "GR") "value" = Some (Js.Fin v)
    /\ field (Obj.get ph "SZ") "growthModifier" = Some (Js.Fin m)
    /\ field (Obj.get ph "GR") "effectiveValue" = Some (Js.Fin e)
    /\ field (Obj.get ph "GR") "daysToMature" = Some (Js.Fin d)
    /\ (v == 1 \/ v == 1.5)%Q /\ (0.8 <= m <= 1.2)%Q
    /\ (e == v * m)%Q /\ (0.8 <= e <= 1.8)%Q /\ (5 <= d <= 13)%Q.
Proof.
  intros Hph.
  destruct (growth_facts sequence ph Hph)
    as [v [m [e [d [H1 [H2 [H3 [H4 [_ [H5 [H6 H7]]]]]]]]]]].
  destruct (growth_rate_value sequence ph Hph) as [v' [H1' Hv]].
  rewrite H1 in H1'. inversion H1'; subst v'; clear H1'.
  pose proof (parsed_phenotype_check growth_tight_check sequence ph
                growth_tight_check_all Hph) as H.
  unfold growth_tight_check in H. rewrite H1, H2, H3, H4 in H.
  cbn [fin] in H.
  apply andb_true_iff in H. destruct H as [H Hi].
  apply andb_true_iff in H. destruct H as [Hm1 Hm2].
  apply Qle_bool_iff in Hm1, Hm2.
  assert (Hv1 : Qle_bool 1 v = true)
    by (apply Qle_bool_iff; destruct Hv; lra).
  rewrite Hv1 in Hi. cbn [implb] in Hi.
  apply andb_true_iff in Hi. destruct Hi as [He Hd].
  apply Qle_bool_iff in He, Hd.
  exists v, m, e, d. repeat split; try assumption; lra.
Qed.

(** X13.  No sequence gives the slow growth rate: the Growth Rate of the
    plant built from any sequence is 1 or 1.5, never the minimum 0.5 of
    the trait ([parseInt] yields no negative number on a segment, a zero
    falls back to the minimum 0.5 for a digit and to the default 1
    otherwise, and the mean of two digits is rounded up to 1). *)
Theorem slow_growth_unreachable sequence :
  exists ph v,
    calculatePhenotype (parseGeneSequence sequence) = Some ph
    /\ field (Obj.get ph "GR") "value" = Some (Js.Fin v)
    /\ (v == 1 \/ v == 1.5)%Q.
Proof.
  destruct (calculatePhenotype_parsed sequence) as [ph Hph].
  destruct (growth_rate_value sequence ph Hph) as [v [H1 H2]].
  exists ph, v. auto.
Qed.

(** X4.  Growth and size.  For the plant built from any sequence the
    effective growth rate is the growth rate times the growth modifier of
    the size; the modifier lies between 0.8 and 1.2, the effective growth
    rate between 0.8 and 1.8 and the days to mature between 5 and 13. *)
Theorem growth_and_size sequence :
  exists ph v m e d,
    calculatePhenotype (parseGeneSequence sequence) = Some ph
    /\ field (Obj.get ph "GR") "value" = Some (Js.Fin v)
    /\ field (Obj.get ph "SZ") "growthModifier" = Some (Js.Fin m)
    /\ field (Obj.get ph "GR") "effectiveValue" = Some (Js.Fin e)
    /\ field (Obj.get ph "GR") "daysToMature" = Some (Js.Fin d)
    /\ (e == v * m)%Q /\ (0.8 <= m <= 1.2)%Q
    /\ (0.8 <= e <= 1.8)%Q /\ (5 <= d <= 13)%Q.
Proof.
  destruct (calculatePhenotype_parsed sequence) as [ph Hph].
  destruct (growth_tight_facts sequence ph Hph)
    as [v [m [e [d [H1 [H2 [H3 [H4 [_ [H5 [H6 [H7 H8]]]]]]]]]]]].
  exists ph, v, m, e, d. auto 10.
Qed.

(** ** One update *)

Lemma pest_step_shrinks ph pestPresent g h w :
  (0 <= g)%Q ->
  exists g' h' w',
    pest_step ph pestPresent (Js.Fin g, Js.Fin h) w
    = ((Js.Fin g', Js.Fin h'), w')
    /\ (0 <= g' <= g)%Q /\ (h - 10 <= h' <= h)%Q
    /\ (pestPresent = false -> g' = g /\ h' = h /\ w' = w).
Proof.
  intros Hg. unfold pest_step.
  destruct pestPresent.
  - unfold bind, random, ret.
    destruct (Js.lt _ _); eexists; eexists; eexists;
      (split; [reflexivity|]); (repeat split; try discriminate);
      unfold inject_Z; lra.
  - unfold ret. exists g, h, w. repeat split; auto; lra.
Qed.

Lemma weather_step_shrinks ph weatherEvent g h w :
  (0 <= g)%Q ->
  exists g' h' w',
    weather_step ph weatherEvent (Js.Fin g, Js.Fin h) w
    = ((Js.Fin g', Js.Fin h'), w')
    /\ (0 <= g' <= g)%Q /\ (h - 20 <= h' <= h)%Q
    /\ (truthy_string weatherEvent = false -> g' = g /\ h' = h /\ w' = w).
Proof.
  intros Hg. unfold weather_step.
  destruct (truthy_string weatherEvent);
    [|exists g, h, w; unfold ret; repeat split; auto; lra].
  destruct (is_event weatherEvent "drought");
    [|destruct (is_event weatherEvent "storm")];
    unfold bind, random, ret;
    try (exists g, h, w; repeat split; try discriminate; lra);
    match goal with
    | |- context [if ?c then _ else _] => destruct c
    end;
    eexists; eexists; eexists;
    (split; [reflexivity|]); (repeat split; try discriminate);
      unfold inject_Z; lra.
Qed.

Lemma update_step p wl pest we w e wn x h :
  ready p = false ->
  pheno_truthy (Obj.get (phenotype p) "GR") = true ->
  field (Obj.get (phenotype p) "GR") "effectiveValue" = Some (Js.Fin e) ->
  (0.4 <= e <= 1.8)%Q ->
  field (Obj.get (phenotype p) "WN") "effectiveWaterPerDay" = Some (Js.Fin wn) ->
  (8 <= wn <= 36)%Q ->
  progress p = Js.Fin x -> health p = Js.Fin h -> water_ok wl ->
  exists ev p' w' g h',
    update p wl pest we w = (Some ev, p', w')
    /\ genes p' = genes p /\ phenotype p' = phenotype p
    /\ (0 <= g <= 10 * e)%Q
    /\ progress p' = (if Qle_bool 100 (x + g) then Js.of_Z 100 else Js.Fin (x + g))
    /\ ready p' = Qle_bool 100 (x + g)
    /\ health p' = Js.Fin h' /\ (0 <= h' <= 100)%Q
    /\ ((0 <= h)%Q -> (h' <= h)%Q)
    /\ ev = (if Qle_bool h' 0 then died
             else if Qle_bool 100 (x + g) then matured else growing)
    /\ (unhindered wl pest we ->
        (g == 10 * e)%Q /\ w' = w /\ ((0 < h <= 100)%Q -> (h' == h)%Q)).
Proof.
  intros Hr Hgr Hev He Hwn Hw Hx Hh Hwl.
  unfold update. rewrite Hr, Hgr, Hev, Hwn, Hx, Hh.
  assert (E0 : Qeq_bool e 0 = false).
  { destruct (Qeq_bool e 0) eqn:E; [|reflexivity]. apply Qeq_bool_iff in E. lra. }
  assert (W0 : Qeq_bool wn 0 = false).
  { destruct (Qeq_bool wn 0) eqn:E; [|reflexivity]. apply Qeq_bool_iff in E. lra. }
  unfold or_else, to_num, Js.or, Js.truthy. rewrite E0, W0. cbn [negb].
  match goal with
  | |- context [if Js.lt ?A (Js.Fin wn) then ?X else ?Y] =>
      set (T := if Js.lt A (Js.Fin wn) then X else Y)
  end.
  assert (HT : exists g1 h1 wt,
             T = (Js.Fin g1, Js.Fin h1, wt)
             /\ (0 <= g1 <= 10 * e)%Q /\ (h - 5 <= h1 <= h)%Q
             /\ (match wl with Some (Js.Fin xw) => (36 <= xw)%Q | _ => True end
                 -> g1 = (inject_Z 10 * e)%Q /\ h1 = h)).
  { subst T. destruct wl as [[|xw]|].
    - cbn. exists (inject_Z 10 * e)%Q, h, true.
      repeat split; auto; unfold inject_Z; lra.
    - cbn [Js.lt]. destruct (Qle_bool wn xw) eqn:Ew; cbn [negb].
      + exists (inject_Z 10 * e)%Q, h, true.
        repeat split; auto; unfold inject_Z; lra.
      + apply Qle_bool_false in Ew. cbn in Hwl.
        assert (R0 : (0 <= xw / wn)%Q)
          by (apply Qle_shift_div_l; lra).
        assert (R1 : (xw / wn <= 1)%Q)
          by (apply Qle_shift_div_r; lra).
        cbn [Js.div Js.mul Js.sub Js.lift2 Js.of_Z Js.lt].
        destruct (Qle_bool 0.5 (xw / wn)); cbn [negb];
          eexists; eexists; eexists; (split; [reflexivity|]);
          (repeat split; try (intros; exfalso; lra));
          unfold inject_Z; try lra; try nra.
    - cbn [Js.lt Js.of_Z].
      assert (Ew : Qle_bool wn (inject_Z 100) = true)
        by (apply Qle_bool_iff; unfold inject_Z; lra).
      rewrite Ew. cbn [negb]. exists (inject_Z 10 * e)%Q, h, true.
      repeat split; auto; unfold inject_Z; lra. }
  destruct HT as [g1 [h1 [wt [-> [Hg1 [Hh1 Hun1]]]]]].
  unfold bind.
  destruct (pest_step_shrinks (phenotype p) pest g1 h1 w (proj1 Hg1))
    as [g2 [h2 [w2 [-> [Hg2 [Hh2 Hun2]]]]]].
  assert (Hg2' : (0 <= g2)%Q) by lra.
  destruct (weather_step_shrinks (phenotype p) we g2 h2 w2 Hg2')
    as [g3 [h3 [w3 [-> [Hg3 [Hh3 Hun3]]]]]].
  destruct (clamp_cases 0 100 h3 ltac:(lra)) as [q [Hq [[Hq0 Hq1] Hqc]]].
  change (Js.max (Js.of_Z 0) (Js.min (Js.of_Z 100) (Js.Fin h3)))
    with (Js.max (Js.Fin 0) (Js.min (Js.Fin 100) (Js.Fin h3))).
  rewrite Hq.
  change (Js.ge (Js.add (Js.Fin x) (Js.Fin g3)) (Js.of_Z 100))
    with (Qle_bool 100 (x + g3)).
  change (Js.le (Js.Fin q) (Js.of_Z 0)) with (Qle_bool q 0).
  assert (Hun : unhindered wl pest we ->
                (g3 == 10 * e)%Q /\ w3 = w /\ ((0 < h <= 100)%Q -> (q == h)%Q)).
  { intros [U1 [U2 U3]]. destruct (Hun1 U1) as [-> E1].
    destruct (Hun2 U2) as [-> [E2 ->]]. destruct (Hun3 U3) as [-> [E3 ->]].
    split; [unfold inject_Z; lra|]. split; [reflexivity|].
    intros Hh'. subst h3 h2 h1.
    destruct Hqc as [[? ->] | [[? ->] | [? [? ->]]]]; lra. }
  assert (Hdec : ((0 <= h)%Q -> (q <= h)%Q)).
  { intros H0. destruct Hqc as [[? ->] | [[? ->] | [? [? ->]]]]; lra. }
  assert (Z0 : Qle_bool (inject_Z 0) 0 = true) by reflexivity.
  destruct (Qle_bool q 0) eqn:Eq;
    [apply Qle_bool_iff in Eq | pose proof Eq as Eq'; apply Qle_bool_false in Eq];
    destruct (Qle_bool 100 (x + g3)) eqn:Ep;
    unfold ret; cbn [fst snd];
    eexists; eexists; eexists; exists g3;
    [exists (inject_Z 0) | exists (inject_Z 0) | exists q | exists q];
    (split; [reflexivity|]); cbn [genes phenotype progress ready health];
    rewrite ?Ep, ?Z0, ?Eq';
    repeat split; try reflexivity; try lra; auto; try tauto;
    try (intros; unfold inject_Z; lra);
    try (intros Hh';
         match goal with
         | U : unhindered _ _ _ |- _ => destruct (Hun U) as [_ [_ Hq']]
         end;
         specialize (Hq' Hh'); unfold inject_Z; lra).
Qed.


Lemma days_check_all : check4 days_check = true.
Proof. vm_compute. reflexivity. Qed.

Lemma days_facts sequence ph :
  calculatePhenotype (parseGeneSequence sequence) = Some ph ->
  exists e d,
    field (Obj.get ph "GR") "effectiveValue" = Some (Js.Fin e)
    /\ field (Obj.get ph "GR") "daysToMature" = Some (Js.Fin d)
    /\ (d == inject_Z (Qfloor d))%Q /\ ((d - 1) * (10 * e) < 100)%Q.
Proof.
  intros Hph.
  pose proof (parsed_phenotype_check days_check sequence ph
                days_check_all Hph) as H.
  unfold days_check in H. unpack_check H.
  exists q, q0.
  repeat match goal with
         | X : Qeq_bool _ _ = true |- _ => apply Qeq_bool_iff in X
         | X : negb _ = true |- _ => apply negb_true_iff in X
         | X : Qle_bool _ _ = false |- _ => apply Qle_bool_false in X
         end.
  repeat split; assumption.
Qed.

(** What one update needs to know of a constructed plant. *)
Lemma constructed_rates p :
  constructed p ->
  exists e wn,
    pheno_truthy (Obj.get (phenotype p) "GR") = true
    /\ field (Obj.get (phenotype p) "GR") "effectiveValue" = Some (Js.Fin e)
    /\ (0.8 <= e <= 1.8)%Q
    /\ field (Obj.get (phenotype p) "WN") "effectiveWaterPerDay"
       = Some (Js.Fin wn)
    /\ (8 <= wn <= 36)%Q.
Proof.
  intros [sequence [Hg Hph]]. rewrite Hg in Hph.
  destruct (growth_facts sequence _ Hph)
    as [v [m [e [d [_ [_ [H3 [_ [H5 _]]]]]]]]].
  destruct (growth_tight_facts sequence _ Hph)
    as [v' [m' [e' [d' [_ [_ [H3' [_ [_ [_ [_ [H6 _]]]]]]]]]]]].
  rewrite H3 in H3'. inversion H3'; subst e'; clear H3'.
  destruct (water_facts sequence _ Hph)
    as [b [m'' [wn [_ [_ [H3' [_ [_ H5']]]]]]]].
  exists e, wn. auto.
Qed.

Lemma Qle_bool_ext a b c d :
  ((a <= b)%Q <-> (c <= d)%Q) -> Qle_bool a b = Qle_bool c d.
Proof.
  intros H.
  destruct (Qle_bool a b) eqn:E1; destruct (Qle_bool c d) eqn:E2; auto.
  - apply Qle_bool_iff in E1. apply H in E1. apply Qle_bool_iff in E1.
    congruence.
  - apply Qle_bool_iff in E2. apply H in E2. apply Qle_bool_iff in E2.
    congruence.
Qed.

Lemma constructed_step p p' :
  genes p' = genes p -> phenotype p' = phenotype p ->
  constructed p -> constructed p'.
Proof.
  intros Hg Hp [sequence [H1 H2]]. exists sequence.
  rewrite Hg, Hp. auto.
Qed.

(** One update of a constructed plant that is not ready. *)
Lemma update_fair p wl pest we w e x h :
  constructed p -> ready p = false ->
  field (Obj.get (phenotype p) "GR") "effectiveValue" = Some (Js.Fin e) ->
  progress p = Js.Fin x -> health p = Js.Fin h ->
  (0 <= x < 100)%Q -> (0 <= h <= 100)%Q -> water_ok wl ->
  exists ev p' w' x' h',
    update p wl pest we w = (Some ev, p', w')
    /\ constructed p' /\ genes p' = genes p /\ phenotype p' = phenotype p
    /\ progress p' = Js.Fin x' /\ health p' = Js.Fin h'
    /\ (x <= x' <= 100)%Q /\ (x' <= x + 10 * e)%Q /\ (0 <= h' <= h)%Q
    /\ ready p' = Qle_bool 100 x'
    /\ ev = (if Qle_bool h' 0 then died
             else if ready p' then matured else growing)
    /\ (unhindered wl pest we ->
        w' = w /\ ((0 < h)%Q -> (h' == h)%Q)
        /\ ((x' == x + 10 * e)%Q
            \/ (x' == 100 /\ 100 <= x + 10 * e)%Q)).
Proof.
  intros Hc Hr He Hx Hh Bx Bh Hwl.
  destruct (constructed_rates p Hc) as [e' [wn [T1 [T2 [T3 [T4 T5]]]]]].
  rewrite He in T2. inversion T2; subst e'; clear T2.
  destruct (update_step p wl pest we w e wn x h Hr T1 He ltac:(lra) T4 T5
              Hx Hh Hwl)
    as [ev [p' [w' [g [h' [U [G1 [G2 [Bg [Pp [Rp [Hp [Bh' [Dh [Ev Un]]]]]]]]]]]]]]].
  exists ev, p', w'.
  exists (if Qle_bool 100 (x + g) then inject_Z 100 else (x + g)%Q), h'.
  split; [exact U|].
  split; [exact (constructed_step p p' G1 G2 Hc)|].
  split; [exact G1|]. split; [exact G2|].
  split; [rewrite Pp; destruct (Qle_bool 100 (x + g)); reflexivity|].
  split; [exact Hp|].
  assert (Dh' : (h' <= h)%Q) by (apply Dh; lra).
  destruct (Qle_bool 100 (x + g)) eqn:Ep.
  - apply Qle_bool_iff in Ep.
    split; [unfold inject_Z; lra|]. split; [unfold inject_Z; lra|].
    split; [lra|]. split; [rewrite Rp; reflexivity|].
    split; [rewrite Rp; exact Ev|].
    intros Hu. destruct (Un Hu) as [Eg [Ew Eh]].
    split; [exact Ew|]. split; [intros; apply Eh; lra|].
    right. split; [unfold inject_Z; lra | lra].
  - pose proof Ep as Ep'. apply Qle_bool_false in Ep.
    split; [lra|]. split; [lra|].
    split; [lra|]. split; [rewrite Rp; symmetry; exact Ep'|].
    split; [rewrite Rp; exact Ev|].
    intros Hu. destruct (Un Hu) as [Eg [Ew Eh]].
    split; [exact Ew|]. split; [intros; apply Eh; lra|].
    left. lra.
Qed.

Lemma in_bounds_not_ready p :
  in_bounds p -> ready p = false ->
  exists x h, progress p = Js.Fin x /\ health p = Js.Fin h
              /\ (0 <= x < 100)%Q /\ (0 <= h <= 100)%Q.
Proof.
  intros [x [h [Hx [Hh [Bx [Bh Hr]]]]]] Hn. exists x, h.
  rewrite Hn in Hr. symmetry in Hr. apply Qle_bool_false in Hr.
  repeat split; try assumption; lra.
Qed.

Lemma later_refl p : in_bounds p -> later p p.
Proof.
  intros [x [h [Hx [Hh _]]]]. split; [reflexivity|]. split; [reflexivity|].
  exists x, x, h, h. repeat split; try assumption; lra.
Qed.

Lemma later_trans p q r : later p q -> later q r -> later p r.
Proof.
  intros [G1 [P1 [x [x' [h [h' [A1 [A2 [A3 [A4 [A5 A6]]]]]]]]]]]
         [G2 [P2 [y [y' [k [k' [B1 [B2 [B3 [B4 [B5 B6]]]]]]]]]]].
  rewrite A2 in B1. inversion B1; subst y.
  rewrite A4 in B3. inversion B3; subst k.
  split; [congruence|]. split; [congruence|].
  exists x, y', h, k'. repeat split; try assumption; lra.
Qed.

(** One update under a water level that is not negative keeps a
    constructed plant constructed and within bounds. *)
Lemma update_keeps p wl pest we w :
  constructed p -> in_bounds p -> water_ok wl ->
  let p' := snd (fst (update p wl pest we w)) in
  constructed p' /\ in_bounds p' /\ later p p'.
Proof.
  intros Hc Hb Hwl. destruct (ready p) eqn:Hr.
  - unfold update. rewrite Hr. cbn.
    split; [exact Hc|]. split; [exact Hb|]. apply later_refl, Hb.
  - destruct (in_bounds_not_ready p Hb Hr) as [x [h [Hx [Hh [Bx Bh]]]]].
    destruct (constructed_rates p Hc) as [e [wn [_ [He _]]]].
    destruct (update_fair p wl pest we w e x h Hc Hr He Hx Hh Bx Bh Hwl)
      as [ev [p' [w' [x' [h' [U [C' [G1 [G2 [Px [Ph [B1 [B2 [B3 [R' _]]]]]]]]]]]]]]].
    rewrite U. cbn [fst snd].
    split; [exact C'|]. split.
    + exists x', h'. repeat split; try assumption; lra.
    + split; [exact G1|]. split; [exact G2|].
      exists x, x', h, h'. repeat split; try assumption; lra.
Qed.

Lemma run_keeps days : forall p w,
  constructed p -> in_bounds p -> Forall fair days ->
  let p' := fst (run days p w) in
  constructed p' /\ in_bounds p' /\ later p p'.
Proof.
  induction days as [|c days IH]; intros p w Hc Hb Hf.
  - cbn. split; [exact Hc|]. split; [exact Hb|]. apply later_refl, Hb.
  - inversion Hf as [|c' days' Hfc Hfd]; subst.
    cbn [run]. unfold bind.
    pose proof (update_keeps p (water c) (pest c) (weather c) w Hc Hb Hfc)
      as [C1 [B1 L1]].
    destruct (update p (water c) (pest c) (weather c) w) as [[ev p1] w1].
    cbn [fst snd] in *.
    destruct (IH p1 w1 C1 B1 Hfd) as [C2 [B2 L2]].
    split; [exact C2|]. split; [exact B2|].
    exact (later_trans _ _ _ L1 L2).
Qed.

Lemma new_plant_constructed sequence :
  constructed (plant_of_sequence sequence)
  /\ progress (plant_of_sequence sequence) = Js.of_Z 0
  /\ health (plant_of_sequence sequence) = Js.of_Z 100
  /\ ready (plant_of_sequence sequence) = false.
Proof.
  unfold plant_of_sequence, new_Plant.
  set (s := if String.eqb sequence "" then generateDefaultGeneSequence
            else sequence).
  destruct (calculatePhenotype_parsed s) as [ph Hph]. rewrite Hph.
  cbn [genes phenotype progress health ready].
  split; [|split; [|split]]; try reflexivity.
  exists s. split; [reflexivity | exact Hph].
Qed.

Lemma new_plant_in_bounds sequence : in_bounds (plant_of_sequence sequence).
Proof.
  destruct (new_plant_constructed sequence) as [_ [Hp [Hh Hr]]].
  exists (inject_Z 0), (inject_Z 100).
  split; [exact Hp|]. split; [exact Hh|].
  split; [unfold inject_Z; lra|]. split; [unfold inject_Z; lra|].
  rewrite Hr. reflexivity.
Qed.

(** X7.  One update of a plant that is not ready.  For a constructed
    plant within bounds and a water level that is not negative, [update]
    returns an event, leaves the genotype and the phenotype alone, keeps
    progress and health between 0 and 100, never lowers the progress and
    never raises the health.  The event is [died] exactly when the health
    after the call is zero, and otherwise [matured] or [growing] as the
    plant is ready or not.  With a water level of at least 36 (or none,
    or one that is not a number), no pest and no weather event nothing is
    drawn from the random source. *)
Theorem update_outcome p wl pest we w :
  constructed p -> in_bounds p -> ready p = false -> water_ok wl ->
  exists ev p' w' h',
    update p wl pest we w = (Some ev, p', w')
    /\ constructed p' /\ in_bounds p' /\ later p p'
    /\ health p' = Js.Fin h'
    /\ (ev = died <-> (h' == 0)%Q)
    /\ (ev = matured <-> (0 < h')%Q /\ ready p' = true)
    /\ (ev = growing <-> (0 < h')%Q /\ ready p' = false)
    /\ (unhindered wl pest we -> w' = w).
Proof.
  intros Hc Hb Hr Hwl.
  pose proof (update_keeps p wl pest we w Hc Hb Hwl) as K.
  destruct (in_bounds_not_ready p Hb Hr) as [x [h [Hx [Hh [Bx Bh]]]]].
  destruct (constructed_rates p Hc) as [e [wn [_ [He _]]]].
  destruct (update_fair p wl pest we w e x h Hc Hr He Hx Hh Bx Bh Hwl)
    as [ev [p' [w' [x' [h' [U [C' [G1 [G2 [Px [Ph [B1 [B2 [B3 [R' [Ev Un]]]]]]]]]]]]]]]].
  rewrite U in K. cbn [fst snd] in K. destruct K as [_ [K2 K3]].
  exists ev, p', w', h'.
  split; [exact U|]. split; [exact C'|]. split; [exact K2|].
  split; [exact K3|]. split; [exact Ph|].
  assert (Hd : Qle_bool h' 0 = true <-> (h' == 0)%Q).
  { rewrite Qle_bool_iff. split; intros; lra. }
  assert (Hn : Qle_bool h' 0 = false <-> (0 < h')%Q).
  { split; [apply Qle_bool_false|].
    intros H. destruct (Qle_bool h' 0) eqn:E; [|reflexivity].
    apply Qle_bool_iff in E. lra. }
  destruct (Qle_bool h' 0) eqn:E1; destruct (ready p') eqn:E2; subst ev;
    repeat split; try discriminate; try reflexivity;
    try (apply Hd; reflexivity); try (apply Hn; reflexivity);
    try (intros H; apply Hd in H; discriminate);
    try (intros [H _]; apply Hn in H; discriminate);
    try (intros [_ H]; discriminate);
    try (intros _; apply Hd; reflexivity);
    try (intros Hu; apply (Un Hu)).
Qed.

Lemma update_outcome_witness :
  let p := plant_of_sequence "FC:RB-SZ:33-LS:11-BP:11-GR:10-YD:33-RS:22-WN:22" in
  exists ev p' w' h',
    update p (Some (Js.of_Z 3)) true (Some "storm") still_world
    = (Some ev, p', w')
    /\ constructed p' /\ in_bounds p' /\ later p p'
    /\ health p' = Js.Fin h'
    /\ (ev = died <-> (h' == 0)%Q)
    /\ (ev = matured <-> (0 < h')%Q /\ ready p' = true)
    /\ (ev = growing <-> (0 < h')%Q /\ ready p' = false)
    /\ (unhindered (Some (Js.of_Z 3)) true (Some "storm") -> w' = still_world).
Proof.
  intros p.
  apply (update_outcome p (Some (Js.of_Z 3)) true (Some "storm") still_world).
  - exists "FC:RB-SZ:33-LS:11-BP:11-GR:10-YD:33-RS:22-WN:22".
    split; vm_compute; reflexivity.
  - exists 0%Q, 100%Q. repeat split; try reflexivity; lra.
  - reflexivity.
  - cbn. unfold inject_Z. lra.
Defined.

(** X8.  Any number of updates, each under its own conditions with a
    water level that is not negative, keeps a constructed plant within
    bounds: progress and health stay between 0 and 100, the plant is ready
    exactly when its progress is 100, progress has not fallen, health has
    not risen, and genotype and phenotype are unchanged. *)
Theorem run_keeps_bounds days p w :
  constructed p -> in_bounds p -> Forall fair days ->
  constructed (fst (run days p w))
  /\ in_bounds (fst (run days p w))
  /\ later p (fst (run days p w)).
Proof.
  intros Hc Hb Hf. exact (run_keeps days p w Hc Hb Hf).
Qed.

Lemma run_keeps_bounds_witness :
  let p := plant_of_sequence "FC:RB-SZ:33-LS:11-BP:11-GR:10-YD:33-RS:22-WN:22" in
  let days := [ mkConditions (Some (Js.of_Z 3)) true (Some "storm");
                mkConditions None false (Some "drought");
                mkConditions (Some Js.NaN) true None ] in
  Forall fair days
  /\ constructed (fst (run days p still_world))
  /\ in_bounds (fst (run days p still_world))
  /\ later p (fst (run days p still_world)).
Proof.
  intros p days.
  assert (Hf : Forall fair days).
  { repeat constructor. cbn. unfold inject_Z. lra. }
  split; [exact Hf|].
  apply (run_keeps_bounds days p still_world).
  - exists "FC:RB-SZ:33-LS:11-BP:11-GR:10-YD:33-RS:22-WN:22".
    split; vm_compute; reflexivity.
  - exists 0%Q, 100%Q. repeat split; try reflexivity; lra.
  - exact Hf.
Defined.

Lemma count_succ n :
  (inject_Z (Z.of_nat (S n)) == inject_Z (Z.of_nat n) + 1)%Q.
Proof.
  rewrite Nat2Z.inj_succ. unfold Z.succ. rewrite inject_Z_plus. reflexivity.
Qed.

Lemma count_nonneg n : (0 <= inject_Z (Z.of_nat n))%Q.
Proof.
  change 0%Q with (inject_Z 0). rewrite <- Zle_Qle. lia.
Qed.

Lemma run_ready days : forall p w,
  ready p = true -> run days p w = (p, w).
Proof.
  induction days as [|c days IH]; intros p w Hr; [reflexivity|].
  cbn [run]. unfold bind, update. rewrite Hr. cbn. apply IH, Hr.
Qed.

Lemma calm_fair c : calm c -> fair c.
Proof.
  unfold calm, fair, unhindered, water_ok. intros [H _].
  destruct (water c) as [[|x]|]; auto. lra.
Qed.

(** Under calm conditions every update adds ten times the effective
    growth rate, health stays as it is and nothing is drawn. *)
Lemma calm_run days : forall p w e x h,
  constructed p ->
  field (Obj.get (phenotype p) "GR") "effectiveValue" = Some (Js.Fin e) ->
  progress p = Js.Fin x -> health p = Js.Fin h ->
  (0 <= x <= 100)%Q -> (0 < h <= 100)%Q -> ready p = Qle_bool 100 x ->
  Forall calm days ->
  exists p' h',
    run days p w = (p', w)
    /\ ready p'
       = Qle_bool 100 (x + inject_Z (Z.of_nat (length days)) * (10 * e))
    /\ health p' = Js.Fin h' /\ (h' == h)%Q.
Proof.
  induction days as [|c days IH]; intros p w e x h Hc He Hx Hh Bx Bh Hr Hf.
  - exists p, h. split; [reflexivity|]. split.
    + rewrite Hr. apply Qle_bool_ext. cbn [length Z.of_nat].
      unfold inject_Z. split; intros; lra.
    + split; [exact Hh | reflexivity].
  - inversion Hf as [|c' days' Hfc Hfd]; subst.
    destruct (constructed_rates p Hc) as [e' [wn [_ [He' [Be _]]]]].
    rewrite He in He'. inversion He'; subst e'; clear He'.
    pose proof (count_nonneg (length days)) as Hn.
    pose proof (count_succ (length days)) as Hs.
    cbn [length].
    set (n := inject_Z (Z.of_nat (length days))) in *.
    set (n' := inject_Z (Z.of_nat (S (length days)))) in *.
    destruct (ready p) eqn:Hrp.
    + rewrite run_ready by exact Hrp. exists p, h.
      split; [reflexivity|]. split.
      * rewrite Hrp. symmetry. apply Qle_bool_iff.
        symmetry in Hr. apply Qle_bool_iff in Hr. nra.
      * split; [exact Hh | reflexivity].
    + symmetry in Hr. apply Qle_bool_false in Hr.
      destruct (update_fair p (water c) (pest c) (weather c) w e x h
                  Hc Hrp He Hx Hh ltac:(lra) ltac:(lra) (calm_fair c Hfc))
        as [ev [p1 [w1 [x1 [h1 [U [C1 [G1 [G2 [Px [Ph [B1 [B2 [B3 [R1 [_ Un]]]]]]]]]]]]]]]].
      destruct (Un Hfc) as [-> [Eh Ex]].
      specialize (Eh ltac:(lra)).
      rewrite <- G2 in He.
      destruct (IH p1 w e x1 h1 C1 He Px Ph ltac:(lra) ltac:(lra) R1 Hfd)
        as [p' [h' [Hrun [Hre [Hhe Hhq]]]]].
      exists p', h'. cbn [run]. unfold bind. rewrite U. cbn [fst snd].
      split; [exact Hrun|]. split.
      * rewrite Hre. apply Qle_bool_ext. fold n.
        destruct Ex as [Ex | [Ex1 Ex2]]; split; intros; nra.
      * split; [exact Hhe | lra].
Qed.

(** X9.  Growth under calm conditions.  When every update has a water
    level of at least 36 (or none, or one that is not a number), no pest
    and no weather event, the plant built from any sequence
    is ready after [n] updates exactly when [n] times ten times its
    effective growth rate reaches 100; so it is always ready after 13
    updates and never after 5 or fewer.  Its health is still 100 and the
    random source is untouched. *)
Theorem calm_growth sequence days w :
  Forall calm days ->
  exists e p' h',
    field (Obj.get (phenotype (plant_of_sequence sequence)) "GR")
          "effectiveValue" = Some (Js.Fin e)
    /\ run days (plant_of_sequence sequence) w = (p', w)
    /\ ready p'
       = Qle_bool 100 (inject_Z (Z.of_nat (length days)) * (10 * e))
    /\ ((13 <= length days)%nat -> ready p' = true)
    /\ ((length days <= 5)%nat -> ready p' = false)
    /\ health p' = Js.Fin h' /\ (h' == 100)%Q.
Proof.
  intros Hf.
  destruct (new_plant_constructed sequence) as [Hc [Hp [Hh Hr]]].
  destruct (constructed_rates _ Hc) as [e [wn [_ [He [Be _]]]]].
  destruct (calm_run days (plant_of_sequence sequence) w e
              (inject_Z 0) (inject_Z 100) Hc He Hp Hh
              ltac:(unfold inject_Z; lra) ltac:(unfold inject_Z; lra)
              ltac:(rewrite Hr; reflexivity) Hf)
    as [p' [h' [Hrun [Hre [Hhe Hhq]]]]].
  exists e, p', h'.
  split; [exact He|]. split; [exact Hrun|].
  assert (Hre' : ready p'
                 = Qle_bool 100 (inject_Z (Z.of_nat (length days)) * (10 * e))).
  { rewrite Hre. apply Qle_bool_ext. unfold inject_Z at 1.
    split; intros; lra. }
  split; [exact Hre'|].
  split; [|split].
  - intros Hn. rewrite Hre'. apply Qle_bool_iff.
    assert (H13 : (13 <= inject_Z (Z.of_nat (length days)))%Q).
    { change 13%Q with (inject_Z 13). rewrite <- Zle_Qle. lia. }
    nra.
  - intros Hn. rewrite Hre'. apply not_true_is_false. intros E.
    apply Qle_bool_iff in E.
    assert (H5 : (inject_Z (Z.of_nat (length days)) <= 5)%Q).
    { change 5%Q with (inject_Z 5). rewrite <- Zle_Qle. lia. }
    pose proof (count_nonneg (length days)). nra.
  - split; [exact Hhe|]. unfold inject_Z in Hhq. lra.
Qed.

Lemma calm_growth_witness :
  let days := repeat (mkConditions (Some (Js.of_Z 40)) false None) 12 in
  Forall calm days
  /\ exists e p' h',
       field (Obj.get (phenotype (plant_of_sequence "GR:10-SZ:55")) "GR")
             "effectiveValue" = Some (Js.Fin e)
       /\ run days (plant_of_sequence "GR:10-SZ:55") still_world
          = (p', still_world)
       /\ ready p'
          = Qle_bool 100 (inject_Z (Z.of_nat (length days)) * (10 * e))
       /\ ((13 <= length days)%nat -> ready p' = true)
       /\ ((length days <= 5)%nat -> ready p' = false)
       /\ health p' = Js.Fin h' /\ (h' == 100)%Q.
Proof.
  intros days.
  assert (Hf : Forall calm days).
  { repeat constructor; cbn; unfold inject_Z; lra. }
  split; [exact Hf|].
  exact (calm_growth "GR:10-SZ:55" days still_world Hf).
Defined.

(** Under any fair conditions no update adds more than ten times the
    effective growth rate. *)
Lemma fair_run_bound days : forall p w e x,
  constructed p -> in_bounds p ->
  field (Obj.get (phenotype p) "GR") "effectiveValue" = Some (Js.Fin e) ->
  progress p = Js.Fin x -> Forall fair days ->
  (x + inject_Z (Z.of_nat (length days)) * (10 * e) < 100)%Q ->
  ready (fst (run days p w)) = false.
Proof.
  induction days as [|c days IH]; intros p w e x Hc Hb He Hx Hf Hlt.
  - cbn. destruct Hb as [x0 [h0 [Hx0 [_ [_ [_ Hr]]]]]].
    rewrite Hx in Hx0. inversion Hx0; subst x0. rewrite Hr.
    apply not_true_is_false. intros E. apply Qle_bool_iff in E.
    cbn in Hlt. unfold inject_Z in Hlt. lra.
  - inversion Hf as [|c' days' Hfc Hfd]; subst.
    destruct (constructed_rates p Hc) as [e' [wn [_ [He' [Be _]]]]].
    rewrite He in He'. inversion He'; subst e'; clear He'.
    pose proof (count_nonneg (length days)) as Hn.
    pose proof (count_succ (length days)) as Hs.
    cbn [length] in Hlt.
    set (n := inject_Z (Z.of_nat (length days))) in *.
    set (n' := inject_Z (Z.of_nat (S (length days)))) in *.
    assert (Hrp : ready p = false).
    { destruct Hb as [x0 [h0 [Hx0 [_ [_ [_ Hr]]]]]].
      rewrite Hx in Hx0. inversion Hx0; subst x0. rewrite Hr.
      apply not_true_is_false. intros E. apply Qle_bool_iff in E. nra. }
    destruct (in_bounds_not_ready p Hb Hrp) as [x0 [h [Hx0 [Hh [Bx Bh]]]]].
    rewrite Hx in Hx0. inversion Hx0; subst x0.
    destruct (update_fair p (water c) (pest c) (weather c) w e x h
                Hc Hrp He Hx Hh Bx Bh Hfc)
      as [ev [p1 [w1 [x1 [h1 [U [C1 [G1 [G2 [Px [Ph [B1 [B2 [B3 [R1 _]]]]]]]]]]]]]]].
    cbn [run]. unfold bind. rewrite U. cbn [fst snd].
    rewrite <- G2 in He.
    apply (IH p1 w1 e x1 C1); try assumption.
    + exists x1, h1. repeat split; try assumption; lra.
    + fold n. nra.
Qed.

(** X10.  The displayed days to mature are never too many: whatever the
    pests and the weather, and for any water levels that are not negative,
    the plant built from any sequence is not ready after fewer updates
    than the [daysToMature] of its Growth Rate. *)
Theorem no_maturity_before_displayed_days sequence days w d :
  field (Obj.get (phenotype (plant_of_sequence sequence)) "GR")
        "daysToMature" = Some (Js.Fin d) ->
  Forall fair days ->
  (inject_Z (Z.of_nat (length days)) < d)%Q ->
  ready (fst (run days (plant_of_sequence sequence) w)) = false.
Proof.
  intros Hd Hf Hlt.
  destruct (new_plant_constructed sequence) as [Hc [Hp [Hh Hr]]].
  pose proof (new_plant_in_bounds sequence) as Hb.
  destruct Hc as [s [Hg Hph]]. pose proof Hph as Hph'. rewrite Hg in Hph'.
  destruct (days_facts s _ Hph') as [e [d' [He [Hd' [Hi Hlim]]]]].
  rewrite Hd in Hd'. inversion Hd'; subst d'; clear Hd'.
  destruct (growth_facts s _ Hph')
    as [v [m [e' [d' [_ [_ [He' [_ [_ [_ [Be _]]]]]]]]]]].
  rewrite He in He'. inversion He'; subst e'; clear He'.
  apply (fair_run_bound days _ w e (inject_Z 0)); try assumption.
  - exists s. auto.
  - assert (Hle : (inject_Z (Z.of_nat (length days)) <= d - 1)%Q).
    { assert (Hz : (Z.of_nat (length days) < Qfloor d)%Z)
        by (rewrite Zlt_Qlt; lra).
      assert (Hz' : (inject_Z (Z.of_nat (length days))
                     <= inject_Z (Qfloor d + -1))%Q)
        by (rewrite <- Zle_Qle; lia).
      rewrite inject_Z_plus in Hz'. change (inject_Z (-1)) with (-1)%Q in Hz'.
      lra. }
    pose proof (count_nonneg (length days)).
    set (n := inject_Z (Z.of_nat (length days))) in *.
    unfold inject_Z. nra.
Qed.

Lemma no_maturity_before_displayed_days_witness :
  let days := repeat (mkConditions None false None) 9 in
  field (Obj.get (phenotype (plant_of_sequence "GR:10-SZ:33")) "GR")
        "daysToMature" = Some (Js.Fin 10)
  /\ ready (fst (run days (plant_of_sequence "GR:10-SZ:33") still_world))
     = false.
Proof.
  intros days.
  assert (Hd : field (Obj.get (phenotype (plant_of_sequence "GR:10-SZ:33"))
                        "GR") "daysToMature" = Some (Js.Fin 10))
    by (vm_compute; reflexivity).
  split; [exact Hd|].
  apply (no_maturity_before_displayed_days "GR:10-SZ:33" days still_world 10 Hd).
  - repeat constructor.
  - cbn. unfold inject_Z. lra.
Defined.

(** ** Display *)

Lemma resolve_fold_qual genes : forall ph0 ph key gene,
  fold_left resolve_gene genes (Some ph0) = Some ph ->
  Obj.get GENE_TRAITS key = Some (qualitative gene) ->
  (exists value x, In (key, value) genes
                   /\ resolve_qualitative gene value = Some x
                   /\ Obj.get ph key = Some x)
  \/ (~ In key (Obj.keys genes) /\ Obj.get ph key = Obj.get ph0 key).
Proof.
  induction genes as [|[k v] genes IH]; intros ph0 ph key gene Hf Hk.
  - right. cbn in Hf. split; [intros [] | congruence].
  - cbn [fold_left] in Hf.
    destruct (resolve_gene (Some ph0) (k, v)) as [ph1|] eqn:E1;
      [|rewrite resolve_fold_None in Hf; discriminate].
    destruct (IH ph1 ph key gene Hf Hk) as [[value [x [I [R G]]]]|[N G]].
    + left. exists value, x. split; [now right | auto].
    + unfold resolve_gene in E1.
      destruct (String.eqb_spec k key) as [->|Hne].
      * left. apply lookup_own in Hk. rewrite Hk in E1.
        destruct (resolve_qualitative gene v) as [x|] eqn:R; [|discriminate].
        exists v, x. split; [now left|]. split; [exact R|].
        inversion E1; subst. rewrite G. apply get_set_same.
      * right. split; [intros [?|?]; [cbn in *; congruence | tauto]|].
        rewrite G.
        destruct (lookup_trait k) as [[g|g]| |];
          [destruct (resolve_qualitative g v)| | |];
          inversion E1; subst; try reflexivity;
          apply get_set_other; congruence.
Qed.

Lemma resolve_qualitative_outcome gene value x :
  resolve_qualitative gene value = Some x -> In x (outcomes gene).
Proof.
  assert (Ha : forall k, In (pheno_of (Obj.get (Gene.alleles gene) k))
                            (outcomes gene)).
  { intros k. destruct (Obj.get (Gene.alleles gene) k) as [a|] eqn:E.
    - right. apply in_or_app. left.
      apply get_In in E. apply (in_map (fun e => PhAllele (snd e))) in E.
      exact E.
    - left. reflexivity. }
  assert (Hg : forall k a, Obj.get (Gene.alleles gene) k = Some a ->
                           In (PhAllele a) (outcomes gene)).
  { intros k a E. specialize (Ha k). rewrite E in Ha. exact Ha. }
  assert (Hf : In (pheno_of (first_allele (Gene.alleles gene)))
                  (outcomes gene)).
  { unfold outcomes. destruct (Gene.alleles gene) as [|[k a] r].
    - left. reflexivity.
    - right. left. reflexivity. }
  unfold resolve_qualitative.
  assert (H : forall v0 v1 : option ascii,
             (if char_eqb v0 v1
              then Some (pheno_of (Obj.get (Gene.alleles gene) (key_of_char v0)))
              else
               match
                 match Gene.blendMap gene with
                 | Some bm => Obj.get bm (sorted_pair v0 v1)
                 | None => None
                 end
               with
               | Some b => Some (PhAllele b)
               | None =>
                   match Obj.get (Gene.alleles gene) (key_of_char v0),
                         Obj.get (Gene.alleles gene) (key_of_char v1) with
                   | Some allele1, Some allele2 =>
                       if dominance_gt allele1 allele2
                       then Some (PhAllele allele1)
                       else if dominance_gt allele2 allele1
                            then Some (PhAllele allele2)
                            else Some (PhAllele allele1)
                   | _, _ => Some (pheno_of (first_allele (Gene.alleles gene)))
                   end
               end) = Some x -> In x (outcomes gene)).
  { intros v0 v1. destruct (char_eqb v0 v1).
    - intros E. inversion E. apply Ha.
    - destruct (Gene.blendMap gene) as [bm|] eqn:Eb.
      + destruct (Obj.get bm (sorted_pair v0 v1)) as [b|] eqn:E.
        * intros E'. inversion E'. right. apply in_or_app. right.
          rewrite Eb. apply get_In in E.
          apply (in_map (fun e => PhAllele (snd e))) in E. exact E.
        * destruct (Obj.get (Gene.alleles gene) (key_of_char v0)) eqn:E0;
            destruct (Obj.get (Gene.alleles gene) (key_of_char v1)) eqn:E1;
            try (intros E'; inversion E'; exact Hf).
          destruct (dominance_gt a a0); [|destruct (dominance_gt a0 a)];
            intros E'; inversion E'; eauto.
      + destruct (Obj.get (Gene.alleles gene) (key_of_char v0)) eqn:E0;
          destruct (Obj.get (Gene.alleles gene) (key_of_char v1)) eqn:E1;
          try (intros E'; inversion E'; exact Hf).
        destruct (dominance_gt a a0); [|destruct (dominance_gt a0 a)];
          intros E'; inversion E'; eauto. }
  destruct value; [discriminate | apply H | apply H].
Qed.

Lemma get_interactions genes ph k :
  k <> "GR" -> k <> "WN" -> k <> "RS" -> k <> "YD" ->
  Obj.get (calculateTraitInteractions genes ph) k = Obj.get ph k.
Proof.
  intros H1 H2 H3 H4. unfold calculateTraitInteractions.
  rewrite get_inbreeding, get_growth_resistance, get_water_size,
    get_growth_size by assumption.
  reflexivity.
Qed.

(** The flower colour and the leaf shape of a constructed plant. *)
Lemma constructed_qualitative p key gene :
  constructed p ->
  Obj.get GENE_TRAITS key = Some (qualitative gene) ->
  exists x, Obj.get (phenotype p) key = Some x /\ In x (outcomes gene).
Proof.
  intros [sequence [Hg Hph]] Hk. rewrite Hg in Hph.
  unfold calculatePhenotype in Hph.
  destruct (fold_left resolve_gene (parseGeneSequence sequence) (Some []))
    as [ph0|] eqn:Hfold; [|discriminate].
  inversion Hph as [Hp]; clear Hph.
  assert (Hne : key <> "GR" /\ key <> "WN" /\ key <> "RS" /\ key <> "YD").
  { repeat split; intros ->; vm_compute in Hk; discriminate. }
  destruct Hne as [N1 [N2 [N3 N4]]].
  rewrite get_interactions by assumption.
  destruct (resolve_fold_qual _ _ _ key gene Hfold Hk)
    as [[value [x [_ [R G]]]]|[N _]].
  - exists x. split; [exact G|]. eapply resolve_qualitative_outcome; eauto.
  - exfalso. apply N. eapply parsed_has_registered; eauto.
Qed.

Lemma emoji_total p :
  constructed p -> exists g, getEmoji p = Some (Glyph g).
Proof.
  intros Hc.
  destruct (constructed_qualitative p "FC" Traits.FC Hc eq_refl)
    as [x [Hx Hin]].
  unfold getEmoji. rewrite Hx. cbn in Hin.
  repeat (destruct Hin as [<- | Hin];
          [eexists; vm_compute; reflexivity|]).
  destruct Hin.
Qed.

Lemma getInfo_constructed p :
  constructed p -> exists i, getInfo p = Some i.
Proof.
  intros Hc. destruct (emoji_total p Hc) as [g Hg].
  unfold getInfo. rewrite Hg. eauto.
Qed.

(** X11.  [getEmoji] never raises on a constructed plant and returns a
    glyph.  The seedling is returned exactly when the flower colour is
    undefined: every colour name the registry can resolve to, allele or
    blend, has an entry of its own in the map under its lower-case
    name. *)
Theorem emoji_of_constructed p :
  constructed p ->
  exists g,
    getEmoji p = Some (Glyph g)
    /\ (g = "🌱" <-> pheno_truthy (Obj.get (phenotype p) "FC") = false).
Proof.
  intros Hc.
  destruct (constructed_qualitative p "FC" Traits.FC Hc eq_refl)
    as [x [Hx Hin]].
  unfold getEmoji. rewrite Hx.
  cbn in Hin.
  repeat (destruct Hin as [<- | Hin];
          [eexists; split; [vm_compute; reflexivity|];
           split; [intros E; try discriminate E; reflexivity
                  | intros E; try discriminate E; reflexivity] |]).
  destruct Hin.
Qed.

Lemma or_else_nonzero q d : ~ (q == 0)%Q -> or_else (Some (Js.Fin q)) d = Js.Fin q.
Proof.
  intros H. unfold or_else, to_num, Js.or, Js.truthy.
  destruct (Qeq_bool q 0) eqn:E; [|reflexivity].
  apply Qeq_bool_iff in E. contradiction.
Qed.

Lemma round_bounds x lo hi :
  (inject_Z lo <= x + (1 # 2))%Q -> (x + (1 # 2) < inject_Z (hi + 1))%Q ->
  exists r, Js.round (Js.Fin x) = Js.Fin r
            /\ (inject_Z lo <= r <= inject_Z hi)%Q.
Proof.
  intros H1 H2. exists (inject_Z (Qfloor (x + (1 # 2)))).
  split; [reflexivity|].
  pose proof (Qfloor_le (x + (1 # 2))) as F1.
  pose proof (Qlt_floor (x + (1 # 2))) as F2.
  split; rewrite <- Zle_Qle.
  - apply Z.lt_succ_r. rewrite Zlt_Qlt. unfold Z.succ. lra.
  - apply Z.lt_succ_r. rewrite Zlt_Qlt. unfold Z.succ. lra.
Qed.

(** X3.  The harvest of a constructed, ready plant returns, and the gene
    sequence it returns rebuilds the plant: a new
    plant constructed from it has the same keys in the same order, every
    value as text, the same phenotype as the harvested plant, and
    serialises to the same sequence. *)
Theorem rebuilt_from_harvest p w :
  constructed p -> ready p = true ->
  exists r rw p',
    fst (fst (harvest p w)) = Returned r
    /\ rewards r = Some rw
    /\ geneSequence rw = toGeneSequence (genes p)
    /\ new_Plant (Some (geneSequence rw)) = Some p'
    /\ genes p' = stringify (genes p)
    /\ phenotype p' = phenotype p
    /\ toGeneSequence (genes p') = geneSequence rw.
Proof.
  intros Hc Hr. destruct (getInfo_constructed p Hc) as [i Hi].
  destruct Hc as [sequence [Hg Hph]].
  pose proof (parsed_well_formed sequence) as W. rewrite <- Hg in W.
  unfold harvest. rewrite Hr, Hi. cbn [negb]. unfold bind, random, ret.
  cbn [fst snd]. eexists. eexists. eexists.
  split; [reflexivity|]. cbn [rewards]. split; [reflexivity|].
  cbn [geneSequence]. split; [reflexivity|].
  unfold new_Plant.
  rewrite (toGeneSequence_nonempty _ (well_formed_nonempty _ W)).
  rewrite (reparse_well_formed _ W), (calculatePhenotype_stringify _ W), Hph.
  split; [reflexivity|]. cbn [genes phenotype].
  repeat split. apply toGeneSequence_stringify.
Qed.

Lemma rebuilt_from_harvest_witness :
  let p :=
    fst (update_n 10
           (plant_of_sequence "FC:RB-SZ-LS:11-GR:10-YD:33-RS:22-WN:22-XX:7")
           (Some (Js.of_Z 100)) false None still_world) in
  exists r rw p',
    fst (fst (harvest p still_world)) = Returned r
    /\ rewards r = Some rw
    /\ geneSequence rw = toGeneSequence (genes p)
    /\ new_Plant (Some (geneSequence rw)) = Some p'
    /\ genes p' = stringify (genes p)
    /\ phenotype p' = phenotype p
    /\ toGeneSequence (genes p') = geneSequence rw.
Proof.
  intros p. apply (rebuilt_from_harvest p still_world).
  - exists "FC:RB-SZ-LS:11-GR:10-YD:33-RS:22-WN:22-XX:7".
    split; vm_compute; reflexivity.
  - vm_compute. reflexivity.
Defined.

(** X12.  [getInfo] never raises on a constructed plant and shows the
    plant's own numbers, none of the fallbacks: the days to mature
    (between 5 and 13), the effective water need (between 8 and 36), the
    size (between 1 and 5) and a resistance between 38 and 95.  On a ready
    plant [harvest] pays exactly the sell price shown. *)
Theorem info_of_constructed p :
  constructed p ->
  exists i d wn s r,
    getInfo p = Some i
    /\ field (Obj.get (phenotype p) "GR") "daysToMature" = Some (Js.Fin d)
    /\ Info.growthDays i = Js.Fin d /\ (5 <= d <= 13)%Q
    /\ field (Obj.get (phenotype p) "WN") "effectiveWaterPerDay"
       = Some (Js.Fin wn)
    /\ Info.waterNeeds i = Js.Fin wn /\ (8 <= wn <= 36)%Q
    /\ field (Obj.get (phenotype p) "SZ") "value" = Some (Js.Fin s)
    /\ Info.size i = Js.Fin s /\ (1 <= s <= 5)%Q
    /\ Info.resistance i = Js.Fin r /\ (38 <= r <= 95)%Q
    /\ (ready p = true ->
        forall w,
          exists res,
            fst (fst (harvest p w)) = Returned res
            /\ option_map coins (rewards res) = Some (Info.sellPrice i)).
Proof.
  intros Hc.
  destruct (emoji_total p Hc) as [g Hg].
  destruct Hc as [sequence [Hgen Hph]]. rewrite Hgen in Hph.
  destruct (growth_tight_facts sequence _ Hph)
    as [v [m [e [d [_ [_ [_ [Hd [_ [_ [_ [_ Bd]]]]]]]]]]]].
  destruct (water_facts sequence _ Hph)
    as [b [m' [wn [_ [_ [Hwn [_ [_ Bwn]]]]]]]].
  destruct (weather_facts sequence _ Hph)
    as [c [rr [s [_ [_ [Hs [_ [_ Bs]]]]]]]].
  destruct (pest_facts sequence _ Hph)
    as [v' [c' [pe [_ [_ [Hpe [_ [_ Bpe]]]]]]]].
  destruct (round_bounds ((1 - pe) * 100) 38 95) as [r [Hr Br]];
    [unfold inject_Z; lra | unfold inject_Z; cbn; lra |].
  pose proof (eq_refl (getInfo p)) as Hi. unfold getInfo at 1 in Hi.
  rewrite Hg, Hd, Hwn, Hs, Hpe in Hi.
  rewrite !or_else_nonzero in Hi by lra.
  rewrite <- Hi.
  eexists. exists d, wn, s, r.
  split; [reflexivity|]. cbn [Info.growthDays Info.waterNeeds Info.size
                              Info.resistance Info.sellPrice].
  split; [exact Hd|]. split; [reflexivity|]. split; [exact Bd|].
  split; [exact Hwn|]. split; [reflexivity|]. split; [exact Bwn|].
  split; [exact Hs|]. split; [reflexivity|]. split; [exact Bs|].
  split; [exact Hr|]. split; [unfold inject_Z in Br; exact Br|].
  intros Hrd w. unfold harvest. rewrite Hrd, <- Hi. cbn [negb].
  unfold bind, random, ret. cbn [fst snd].
  eexists. split; reflexivity.
Qed.

Lemma emoji_of_constructed_witness :
  exists g,
    getEmoji (plant_of_sequence "FC:ZZ-SZ:22") = Some (Glyph g)
    /\ (g = "🌱"
        <-> pheno_truthy
              (Obj.get (phenotype (plant_of_sequence "FC:ZZ-SZ:22")) "FC")
            = false).
Proof.
  apply (emoji_of_constructed (plant_of_sequence "FC:ZZ-SZ:22")).
  exists "FC:ZZ-SZ:22". split; vm_compute; reflexivity.
Defined.

Lemma info_of_constructed_witness :
  let p :=
    fst (run (repeat (mkConditions None false None) 10)
             (plant_of_sequence "FC:RY-SZ:22-LS:33-BP:11-GR:12-YD:44-RS:22-WN:22")
             still_world) in
  ready p = true
  /\ exists i d wn s r,
       getInfo p = Some i
       /\ field (Obj.get (phenotype p) "GR") "daysToMature" = Some (Js.Fin d)
       /\ Info.growthDays i = Js.Fin d /\ (5 <= d <= 13)%Q
       /\ field (Obj.get (phenotype p) "WN") "effectiveWaterPerDay"
          = Some (Js.Fin wn)
       /\ Info.waterNeeds i = Js.Fin wn /\ (8 <= wn <= 36)%Q
       /\ field (Obj.get (phenotype p) "SZ") "value" = Some (Js.Fin s)
       /\ Info.size i = Js.Fin s /\ (1 <= s <= 5)%Q
       /\ Info.resistance i = Js.Fin r /\ (38 <= r <= 95)%Q
       /\ (ready p = true ->
           forall w,
             exists res,
               fst (fst (harvest p w)) = Returned res
               /\ option_map coins (rewards res) = Some (Info.sellPrice i)).
Proof.
  intros p. split; [vm_compute; reflexivity|].
  apply (info_of_constructed p).
  exists "FC:RY-SZ:22-LS:33-BP:11-GR:12-YD:44-RS:22-WN:22".
  split; vm_compute; reflexivity.
Defined.

(** ** Genotypes built by the module *)

Ltac unpack_values H :=
  unfold GENE_TRAITS in H; cbn [map snd] in H;
  repeat match goal with
         | X : Forall2 _ (_ :: _) _ |- _ => inversion X; clear X; subst
         | X : Forall2 _ [] _ |- _ => inversion X; clear X; subst
         end.

Lemma plain_clean t v key :
  Obj.get GENE_TRAITS key = Some t -> plain t v ->
  clean (Val.toString v) = true /\ Val.truthy v = true
  /\ (v = VUndef \/ (exists s, v = VStr s) \/ v = defaultValue t).
Proof.
  intros Hk [[s [-> [Hc Hs]]] | ->].
  - split; [exact Hc|]. split; [|right; left; eauto].
    cbn. apply negb_true_iff. now apply String.eqb_neq.
  - split; [|split; [|right; right; reflexivity]];
      each_trait Hk ltac:(reflexivity).
Qed.

Lemma built_well_formed vs :
  Forall2 plain (map snd GENE_TRAITS) vs -> well_formed (genotype_of vs).
Proof.
  intros H. unpack_values H.
  unfold well_formed, genotype_of.
  cbn [Obj.keys GENE_TRAITS map fst combine].
  split; [apply registry_keys_NoDup|]. split; [reflexivity|]. split.
  - repeat (apply Forall_cons;
            [match goal with
             | |- shape_ok (?k, ?v) =>
                 match goal with
                 | X : plain ?t v |- _ =>
                     destruct (plain_clean t v k eq_refl X) as [C [_ S]];
                     unfold shape_ok; cbn [fst snd];
                     rewrite (proj2 (lookup_own k t) eq_refl);
                     repeat split; [exact C | discriminate | exact S]
                 end
             end|]).
    apply Forall_nil.
  - intros k t Hk.
    each_trait Hk
      ltac:(idtac;
            match goal with
            | |- Val.truthy (gene_at _ ?key) = true =>
                cbn [gene_at Obj.get String.eqb Ascii.eqb Bool.eqb fst snd];
                match goal with
                | |- Val.truthy ?v = true =>
                    match goal with
                    | X : plain ?t v |- _ =>
                        exact (proj1 (proj2 (plain_clean t v key eq_refl X)))
                    end
                end
            end).
Qed.

Lemma built_keys (P : Trait -> Value -> Prop) vs :
  Forall2 P (map snd GENE_TRAITS) vs ->
  Obj.keys (genotype_of vs) = Obj.keys GENE_TRAITS.
Proof. intros H. unpack_values H. reflexivity. Qed.

(** The plant constructed from the serialisation of a well-formed
    genotype. *)
Lemma plant_of_well_formed og :
  well_formed og ->
  exists child,
    new_Plant (Some (toGeneSequence og)) = Some child
    /\ genes child = stringify og
    /\ calculatePhenotype og = Some (phenotype child)
    /\ constructed child
    /\ progress child = Js.of_Z 0 /\ health child = Js.of_Z 100
    /\ ready child = false.
Proof.
  intros W.
  destruct (calculatePhenotype_parsed (toGeneSequence og)) as [ph Hph].
  pose proof Hph as Hph'.
  rewrite (reparse_well_formed _ W), (calculatePhenotype_stringify _ W) in Hph'.
  unfold new_Plant.
  rewrite (toGeneSequence_nonempty _ (well_formed_nonempty _ W)), Hph.
  eexists. split; [reflexivity|]. cbn [genes phenotype progress health ready].
  split; [apply reparse_well_formed, W|]. split; [exact Hph'|].
  split; [|auto].
  exists (toGeneSequence og). cbn [genes phenotype]. auto.
Qed.

(** The number a quantitative trait resolves to is read off the one
    value the genotype holds for it. *)
Lemma resolved_value_of genes ph key gene v :
  calculatePhenotype genes = Some ph ->
  Obj.get GENE_TRAITS key = Some (quantitative gene) ->
  NoDup (Obj.keys genes) -> In (key, v) genes ->
  field (Obj.get ph key) "value" = Some (numeric_value gene v).
Proof.
  intros Hph Hkey ND Hin. unfold calculatePhenotype in Hph.
  destruct (fold_left resolve_gene genes (Some [])) as [ph0|] eqn:Hfold;
    [|discriminate].
  inversion Hph; subst ph; clear Hph.
  rewrite interactions_keep_field by (simpl; intuition discriminate).
  destruct (resolve_fold_quant genes _ _ key gene Hfold Hkey)
    as [[value [I G]]|[N _]].
  - rewrite G, (resolve_quantitative_value key) by exact Hkey.
    apply (In_get _ _ _ ND) in I. apply (In_get _ _ _ ND) in Hin.
    congruence.
  - exfalso. apply N. apply (in_map fst) in Hin. exact Hin.
Qed.

(** ** Random plants *)

Lemma draw_range d : (0 <= draw_value d < 1)%Q.
Proof.
  unfold draw_value. destruct d as [n p]. cbn [fst snd].
  pose proof (Z.mod_pos_bound n (Z.pos p) ltac:(lia)) as [H1 H2].
  unfold Qle, Qlt. cbn. lia.
Qed.

Lemma floor_scaled r c n :
  (0 <= r < 1)%Q -> (0 < c)%Q -> (c <= inject_Z n)%Q ->
  0 <= Qfloor (r * c) < n.
Proof.
  intros Hr Hc Hn. split.
  - apply (Z.le_trans _ (Qfloor 0)); [vm_compute; discriminate|].
    apply Qfloor_resp_le. nra.
  - rewrite Zlt_Qlt. pose proof (Qfloor_le (r * c)). nra.
Qed.

Lemma as_index_of_Z z : 0 <= z -> as_index (Js.of_Z z) = Some (Z.to_nat z).
Proof.
  intros Hz. unfold as_index, Js.of_Z. rewrite Qfloor_Z.
  assert (E : Qeq_bool (inject_Z z) (inject_Z z) = true)
    by (apply Qeq_bool_iff; reflexivity).
  rewrite E. apply Z.leb_le in Hz. rewrite Hz. reflexivity.
Qed.

(** An index drawn for a non-empty list picks one of its entries. *)
Lemma pick_in (l : list string) r :
  l <> [] -> (0 <= r < 1)%Q ->
  exists a,
    array_at l (Js.floor (Js.mul (Js.Fin r)
                                 (Js.of_Z (Z.of_nat (List.length l)))))
    = Some a /\ In a l.
Proof.
  intros Hl Hr. cbn [Js.mul Js.lift2 Js.of_Z Js.floor].
  assert (Hn : (0 < Z.of_nat (List.length l))%Z)
    by (destruct l; [congruence | cbn [List.length]; lia]).
  destruct (floor_scaled r (inject_Z (Z.of_nat (List.length l)))
              (Z.of_nat (List.length l)) Hr) as [Z1 Z2].
  { change 0%Q with (inject_Z 0). now rewrite <- Zlt_Qlt. }
  { apply Qle_refl. }
  unfold array_at.
  change (Js.Fin (inject_Z ?z)) with (Js.of_Z z).
  rewrite as_index_of_Z by exact Z1.
  destruct (nth_error l (Z.to_nat _)) as [a|] eqn:E.
  - exists a. split; [reflexivity|]. eapply nth_error_In; eauto.
  - apply nth_error_None in E. lia.
Qed.

Lemma random_gene_drawn key t w :
  Obj.get GENE_TRAITS key = Some t ->
  exists v w', random_gene t w = (v, w') /\ In v (drawn t).
Proof.
  intros Hk. destruct t as [g|g]; unfold random_gene.
  - assert (Hne : Obj.keys (Gene.alleles g) <> [])
      by (each_trait Hk ltac:(idtac; cbn; discriminate)).
    unfold bind, random, ret.
    destruct (pick_in _ _ Hne (draw_range (draws w (cursor w))))
      as [a [-> Ia]].
    match goal with
    | |- context [draw_value ?d] =>
        match d with
        | draws w (cursor w) => fail 1
        | _ => destruct (pick_in _ _ Hne (draw_range d)) as [b [-> Ib]]
        end
    end.
    eexists. eexists. split; [reflexivity|].
    cbn [plus drawn]. apply in_flat_map. exists a. split; [exact Ia|].
    apply in_map_iff. exists b. auto.
  - unfold bind, random, ret. eexists. eexists. split; [reflexivity|].
    cbn [drawn]. apply in_map. unfold drawable.
    pose proof (registry_ranges key g Hk) as Hr.
    set (c := (Gene.max g - Gene.min g + inject_Z 1)%Q).
    destruct (floor_scaled (draw_value (draws w (cursor w))) c (Qceiling c)
                (draw_range _)) as [Z1 Z2].
    { subst c. unfold inject_Z. lra. }
    { apply Qle_ceiling. }
    apply in_map_iff. exists (Z.to_nat (Qfloor (draw_value (draws w (cursor w)) * c))).
    split.
    + rewrite Z2Nat.id by exact Z1. reflexivity.
    + apply in_seq. lia.
Qed.

Lemma drawn_check_all : forallb drawn_check GENE_TRAITS = true.
Proof. vm_compute. reflexivity. Qed.

Lemma drawn_facts key t v :
  Obj.get GENE_TRAITS key = Some t -> In v (drawn t) ->
  (exists s, v = VStr s) /\ plain t v
  /\ (key <> "GR" -> value_conforms t v = true)
  /\ (key = "GR" ->
      (v = VStr "0.50.5" \/ v = VStr "1.51.5") /\ growth_one v = true).
Proof.
  intros Hk Hv.
  pose proof drawn_check_all as H. rewrite forallb_forall in H.
  specialize (H (key, t) (get_In _ _ _ Hk)).
  unfold drawn_check in H. rewrite forallb_forall in H.
  specialize (H v Hv). cbn [fst snd] in H.
  apply andb_true_iff in H. destruct H as [Hp H].
  destruct v as [|s|n]; try discriminate.
  split; [eauto|]. split.
  { left. cbn in Hp. apply andb_true_iff in Hp. destruct Hp as [Hc Hs].
    exists s. split; [reflexivity|]. split; [exact Hc|].
    apply negb_true_iff in Hs. now apply String.eqb_neq. }
  destruct (String.eqb_spec key "GR") as [->|Hne].
  - split; [congruence|]. intros _.
    apply andb_true_iff in H. destruct H as [He Hg]. split; [|exact Hg].
    cbn in He.
    destruct (String.eqb_spec s "0.50.5") as [->|]; [now left|].
    destruct (String.eqb_spec s "1.51.5") as [->|]; [now right|].
    discriminate.
  - split; [intros _; exact H | congruence].
Qed.

Lemma random_genes_values traits : forall genes w,
  (forall e, In e traits -> In e GENE_TRAITS) ->
  exists vs w',
    random_genes traits genes w
    = (fold_left (fun o kv => Obj.set o (fst kv) (snd kv))
                 (combine (map fst traits) vs) genes, w')
    /\ Forall2 (fun t v => In v (drawn t)) (map snd traits) vs.
Proof.
  induction traits as [|[key t] traits IH]; intros genes w Hin.
  - exists [], w. split; [reflexivity | constructor].
  - cbn [random_genes]. unfold bind.
    assert (Hk : Obj.get GENE_TRAITS key = Some t).
    { apply In_get; [apply registry_keys_NoDup|]. apply Hin. now left. }
    destruct (random_gene_drawn key t w Hk) as [v [w1 [-> Hv]]].
    destruct (IH (Obj.set genes key v) w1) as [vs [w2 [-> Hvs]]].
    { intros e He. apply Hin. now right. }
    exists (v :: vs), w2. split; [reflexivity|].
    cbn [map snd]. constructor; assumption.
Qed.

Lemma set_registry_values vs :
  fold_left (fun o kv => Obj.set o (fst kv) (snd kv))
            (combine (map fst GENE_TRAITS) vs) []
  = genotype_of vs.
Proof.
  unfold genotype_of.
  do 8 (destruct vs as [|? vs]; [reflexivity|]). reflexivity.
Qed.

Lemma entry_conforms_registered key t v :
  Obj.get GENE_TRAITS key = Some t ->
  entry_conforms (key, v) = value_conforms t v.
Proof.
  intros H. unfold entry_conforms. cbn [fst snd]. now rewrite H.
Qed.

(** The eight values of a random genotype. *)
Lemma drawn_all vs :
  Forall2 (fun t v => In v (drawn t)) (map snd GENE_TRAITS) vs ->
  Forall2 plain (map snd GENE_TRAITS) vs
  /\ stringify (genotype_of vs) = genotype_of vs
  /\ (forall e, In e (genotype_of vs) -> fst e <> "GR" ->
      entry_conforms e = true)
  /\ exists v,
       In ("GR", v) (genotype_of vs)
       /\ (v = VStr "0.50.5" \/ v = VStr "1.51.5")
       /\ growth_one v = true.
Proof.
  intros H. unpack_values H.
  repeat match goal with
         | X : In ?v (drawn (qualitative Traits.FC)) |- _ =>
             pose proof (drawn_facts "FC" _ v eq_refl X); clear X
         | X : In ?v (drawn (quantitative Traits.SZ)) |- _ =>
             pose proof (drawn_facts "SZ" _ v eq_refl X); clear X
         | X : In ?v (drawn (qualitative Traits.LS)) |- _ =>
             pose proof (drawn_facts "LS" _ v eq_refl X); clear X
         | X : In ?v (drawn (quantitative Traits.BP)) |- _ =>
             pose proof (drawn_facts "BP" _ v eq_refl X); clear X
         | X : In ?v (drawn (quantitative Traits.GR)) |- _ =>
             pose proof (drawn_facts "GR" _ v eq_refl X); clear X
         | X : In ?v (drawn (quantitative Traits.YD)) |- _ =>
             pose proof (drawn_facts "YD" _ v eq_refl X); clear X
         | X : In ?v (drawn (quantitative Traits.RS)) |- _ =>
             pose proof (drawn_facts "RS" _ v eq_refl X); clear X
         | X : In ?v (drawn (quantitative Traits.WN)) |- _ =>
             pose proof (drawn_facts "WN" _ v eq_refl X); clear X
         end.
  repeat match goal with
         | X : (exists s, _ = VStr s) /\ _ |- _ =>
             let s := fresh "s" in
             let P := fresh "P" in
             let C := fresh "C" in
             let G := fresh "G" in
             destruct X as [[s ->] [P [C G]]]
         end.
  split; [repeat (apply Forall2_cons; [assumption|]); apply Forall2_nil|].
  split; [reflexivity|].
  split.
  { unfold genotype_of. cbn [Obj.keys GENE_TRAITS map fst combine].
    intros e He Hne.
    repeat (destruct He as [<- | He];
            [first [ exfalso; apply Hne; reflexivity
                   | erewrite entry_conforms_registered by reflexivity;
                     auto using String.eqb_neq; fail ] |]).
    destruct He. }
  match goal with
  | X : "GR" = "GR" -> (?v = _ \/ _) /\ _ |- _ =>
      exists v; split; [|exact (X eq_refl)]
  end.
  unfold genotype_of. cbn [Obj.keys GENE_TRAITS map fst combine].
  do 4 right. left. reflexivity.
Qed.

(** X14.  [createRandomPlant] never raises, whatever the draws.  The
    plant has exactly the registry keys, in registry order; every gene but
    the Growth Rate conforms to the data model (two allele characters of
    the trait, or the same digit twice within the range).  The Growth Rate
    gene is the six-character text ["0.50.5"] or ["1.51.5"], never a pair
    of digits, and resolves to the growth rate 1: no random plant grows
    fast or slowly. *)
Theorem random_plant w :
  exists p w',
    createRandomPlant w = (Some p, w')
    /\ constructed p
    /\ Obj.keys (genes p) = Obj.keys GENE_TRAITS
    /\ (forall e, In e (genes p) -> fst e <> "GR" -> entry_conforms e = true)
    /\ (gene_at (genes p) "GR" = VStr "0.50.5"
        \/ gene_at (genes p) "GR" = VStr "1.51.5")
    /\ exists v,
         field (Obj.get (phenotype p) "GR") "value" = Some (Js.Fin v)
         /\ (v == 1)%Q.
Proof.
  unfold createRandomPlant, bind, ret.
  destruct (random_genes_values GENE_TRAITS [] w ltac:(auto))
    as [vs [w' [-> Hvs]]].
  rewrite set_registry_values.
  destruct (drawn_all vs Hvs) as [Hp [Hs [Hc [v [Hin [Hv Hg]]]]]].
  pose proof (built_well_formed vs Hp) as W.
  destruct (plant_of_well_formed _ W)
    as [p [Hnew [Hgen [Hph [Hcon _]]]]].
  rewrite Hs in Hgen.
  exists p, w'. rewrite Hnew. split; [reflexivity|]. split; [exact Hcon|].
  rewrite Hgen. split; [exact (built_keys _ vs Hp)|]. split; [exact Hc|].
  assert (ND : NoDup (Obj.keys (genotype_of vs))) by apply W.
  split.
  - unfold gene_at. rewrite (In_get _ _ _ ND Hin). exact Hv.
  - rewrite (resolved_value_of _ _ "GR" Traits.GR v Hph eq_refl ND Hin).
    unfold growth_one in Hg.
    destruct (numeric_value Traits.GR v) as [|q]; [discriminate|].
    exists q. split; [reflexivity|]. now apply Qeq_bool_iff.
Qed.

(** ** Offspring *)

Lemma bred_check_all : forallb bred_check GENE_TRAITS = true.
Proof. vm_compute. reflexivity. Qed.

Lemma allele_key_single key g k :
  Obj.get GENE_TRAITS key = Some (qualitative g) ->
  In k (Obj.keys (Gene.alleles g)) ->
  exists c, k = Js.str1 c /\ clean k = true.
Proof.
  intros Hk Hin.
  pose proof bred_check_all as H. rewrite forallb_forall in H.
  specialize (H _ (get_In _ _ _ Hk)). unfold bred_check in H.
  cbn [snd] in H. rewrite forallb_forall in H. specialize (H k Hin).
  destruct k as [|c [|c' k]]; try discriminate.
  exists c. split; [reflexivity | exact H].
Qed.

Lemma candidate_facts key g n :
  Obj.get GENE_TRAITS key = Some (quantitative g) ->
  In n (candidates g) ->
  plain (quantitative g) (doubled n)
  /\ (key <> "GR" -> value_conforms (quantitative g) (doubled n) = true)
  /\ (key = "GR" -> growth_one (doubled n) = true).
Proof.
  intros Hk Hin.
  pose proof bred_check_all as H. rewrite forallb_forall in H.
  specialize (H _ (get_In _ _ _ Hk)). unfold bred_check in H.
  cbn [fst snd] in H. rewrite forallb_forall in H. specialize (H n Hin).
  apply andb_true_iff in H. destruct H as [Hp H].
  split.
  { left. unfold doubled in *. cbn in Hp.
    apply andb_true_iff in Hp. destruct Hp as [Hc Hs].
    eexists. split; [reflexivity|]. split; [exact Hc|].
    apply negb_true_iff in Hs. now apply String.eqb_neq. }
  destruct (String.eqb_spec key "GR") as [->|Hne].
  - split; [congruence | intros _; exact H].
  - split; [intros _; exact H | congruence].
Qed.

(** Clamping an integer gives one of the numbers of the trait. *)
Lemma clamp_candidate g z :
  (Gene.min g <= Gene.max g)%Q ->
  In (clamp g (Js.of_Z z)) (candidates g).
Proof.
  intros Hr. unfold clamp, Js.of_Z.
  destruct (clamp_range _ _ (inject_Z z) Hr) as [q [-> [H1 [H2 H3]]]].
  unfold candidates.
  destruct H3 as [-> | [-> | ->]];
    [now left | right; now left |].
  right. right. right.
  apply Qceiling_resp_le in H1. rewrite Qceiling_Z in H1.
  apply Qfloor_resp_le in H2. rewrite Qfloor_Z in H2.
  apply in_map_iff. exists (Z.to_nat (z - Qceiling (Gene.min g))).
  split.
  - unfold Js.of_Z. do 2 f_equal. lia.
  - apply in_seq. lia.
Qed.

Lemma or_default_Fin x d : exists q, or_default x d = Js.Fin q.
Proof. destruct x; cbn; eauto. Qed.

Lemma mutate_quantitative key g gene w :
  Obj.get GENE_TRAITS key = Some (quantitative g) ->
  exists n w',
    mutateMutation gene key w = (Returned (doubled n), w')
    /\ In n (candidates g).
Proof.
  intros Hk. unfold mutateMutation.
  rewrite (proj2 (lookup_own key _) Hk).
  destruct (or_default_Fin (diploid_mean gene) (Gene.quant_default g))
    as [q ->].
  unfold bind, random, ret.
  destruct (Js.lt _ _); cbn [Js.add Js.lift2 Js.of_Z Js.round];
    eexists; eexists; (split; [reflexivity|]);
    apply (clamp_candidate g), (registry_ranges key g Hk).
Qed.

Lemma get_chars s : forall n c,
  String.get n s = Some c -> In (Js.str1 c) (chars_of (VStr s)).
Proof.
  induction s as [|a s IH]; intros n c H; [destruct n; discriminate|].
  destruct n as [|n]; cbn [String.get] in H.
  - inversion H; subst. left. reflexivity.
  - right. exact (IH n c H).
Qed.

Lemma get_Some s : forall n,
  (n < String.length s)%nat -> exists c, String.get n s = Some c.
Proof.
  induction s as [|a s IH]; intros n H; cbn [String.length] in H; [lia|].
  destruct n as [|n]; cbn [String.get]; [eauto|].
  apply IH. lia.
Qed.

(** What one parent contributes to a qualitative gene. *)
Lemma contribute_from key g parent w :
  Obj.get GENE_TRAITS key = Some (qualitative g) ->
  Val.truthy parent = true ->
  exists c w',
    contribute (Gene.alleles g) parent w = (Some (Js.str1 c), w')
    /\ allele_from g parent (Js.str1 c).
Proof.
  intros Hk Ht.
  assert (Hfirst : exists c,
             nth_error (Obj.keys (Gene.alleles g)) 0 = Some (Js.str1 c)
             /\ allele_from g parent (Js.str1 c)).
  { destruct (Obj.keys (Gene.alleles g)) as [|k r] eqn:E.
    - exfalso. revert E. each_trait Hk ltac:(idtac; cbn; discriminate).
    - destruct (allele_key_single key g k Hk) as [c [-> _]];
        [rewrite E; now left|].
      exists c. split; [reflexivity|]. right. rewrite E. now left. }
  unfold contribute. destruct parent as [|s|n]; [discriminate| |].
  - assert (Hs : s <> "")
      by (cbn in Ht; apply negb_true_iff in Ht; now apply String.eqb_neq).
    assert (Hl : (0 < String.length s)%nat)
      by (destruct s; [congruence | cbn; lia]).
    assert (E : (1 <=? String.length s)%nat = true) by (apply Nat.leb_le; lia).
    rewrite E. unfold bind, random, ret.
    cbn [Js.mul Js.lift2 Js.of_Z Js.floor].
    destruct (floor_scaled (draw_value (draws w (cursor w)))
                (inject_Z (Z.of_nat (String.length s)))
                (Z.of_nat (String.length s)) (draw_range _)) as [Z1 Z2].
    { change 0%Q with (inject_Z 0). rewrite <- Zlt_Qlt. lia. }
    { apply Qle_refl. }
    unfold string_at.
    change (Js.Fin (inject_Z ?z)) with (Js.of_Z z).
    rewrite as_index_of_Z by exact Z1. unfold Js.char_at.
    destruct (get_Some s (Z.to_nat
                (Qfloor (draw_value (draws w (cursor w))
                         * inject_Z (Z.of_nat (String.length s))))))
      as [c Hc]; [lia|].
    rewrite Hc. exists c. eexists. split; [reflexivity|].
    left. eapply get_chars; eauto.
  - destruct Hfirst as [c [-> Hc]]. unfold ret. eauto.
Qed.

Lemma mutate_qualitative key g cx cy w :
  Obj.get GENE_TRAITS key = Some (qualitative g) ->
  exists k v w',
    mutateMutation (VStr (Js.str1 cx ++ Js.str1 cy)) key w = (Returned v, w')
    /\ In k (Obj.keys (Gene.alleles g))
    /\ (v = VStr (k ++ Js.str1 cy) \/ v = VStr (Js.str1 cx ++ k)).
Proof.
  intros Hk. unfold mutateMutation.
  rewrite (proj2 (lookup_own key _) Hk).
  assert (Hne : Obj.keys (Gene.alleles g) <> [])
    by (each_trait Hk ltac:(idtac; cbn; discriminate)).
  assert (E : Nat.eqb (List.length (Obj.keys (Gene.alleles g))) 0 = false).
  { destruct (Obj.keys (Gene.alleles g)); [congruence | reflexivity]. }
  rewrite E. cbn [length_of]. unfold bind, random, ret.
  match goal with
  | |- context [array_at _ (Js.floor (Js.mul (Js.Fin (draw_value ?d)) _))] =>
      destruct (pick_in _ _ Hne (draw_range d)) as [k [-> Ik]]
  end.
  exists k.
  match goal with
  | |- context [if ?c then _ else _] => destruct c
  end; eexists; eexists; (split; [reflexivity|]); (split; [exact Ik|]);
    [left | right]; reflexivity.
Qed.

(** On an [undefined] gene and a qualitative trait the call raises when
    it reads the length of the gene, after its first draw. *)
Lemma mutate_undefined key g w :
  Obj.get GENE_TRAITS key = Some (qualitative g) ->
  mutateMutation VUndef key w
  = (Thrown, mkWorld (draws w) (S (cursor w)) (clock w)).
Proof.
  intros Hk. unfold mutateMutation.
  rewrite (proj2 (lookup_own key _) Hk).
  assert (Hne : Obj.keys (Gene.alleles g) <> [])
    by (each_trait Hk ltac:(idtac; cbn; discriminate)).
  assert (E : Nat.eqb (List.length (Obj.keys (Gene.alleles g))) 0 = false).
  { destruct (Obj.keys (Gene.alleles g)); [congruence | reflexivity]. }
  rewrite E. reflexivity.
Qed.

(** The offspring's value for a trait both parents have a gene for. *)
Lemma cross_gene_bred key t genesA genesB w :
  Obj.get GENE_TRAITS key = Some t ->
  Val.truthy (gene_at genesA key) = true ->
  Val.truthy (gene_at genesB key) = true ->
  exists v w',
    cross_gene genesA genesB key t w = (Returned v, w')
    /\ bred t (gene_at genesA key) (gene_at genesB key) v.
Proof.
  intros Hk Ha Hb. unfold cross_gene. rewrite Ha, Hb. cbn [negb orb].
  destruct t as [g|g]; unfold bind at 1.
  - unfold bind at 1.
    destruct (contribute_from key g _ w Hk Ha) as [cx [w1 [-> Hx]]].
    unfold bind at 1.
    destruct (contribute_from key g _ w1 Hk Hb) as [cy [w2 [-> Hy]]].
    unfold ret at 1. cbn [plus]. unfold bind, random.
    destruct (Js.lt _ _).
    + destruct (mutate_qualitative key g cx cy
                  (mkWorld (draws w2) (S (cursor w2)) (clock w2)) Hk)
        as [k [v [w3 [-> [Ik Hv]]]]].
      exists v, w3. split; [reflexivity|]. cbn [bred].
      destruct Hv as [-> | ->].
      * exists k, (Js.str1 cy). split; [reflexivity|].
        split; [right; exact Ik | exact Hy].
      * exists (Js.str1 cx), k. split; [reflexivity|].
        split; [exact Hx | right; exact Ik].
    + unfold ret. eexists. eexists. split; [reflexivity|]. cbn [bred].
      exists (Js.str1 cx), (Js.str1 cy). auto.
  - destruct (or_default_Fin (diploid_mean (gene_at genesA key))
                (Gene.quant_default g)) as [qa ->].
    destruct (or_default_Fin (diploid_mean (gene_at genesB key))
                (Gene.quant_default g)) as [qb ->].
    unfold bind, random, ret.
    cbn [Js.add Js.sub Js.mul Js.div Js.lift2 Js.of_Z Js.round].
    match goal with
    | |- context [if ?c then _ else _] => destruct c
    end.
    + match goal with
      | |- context [mutateMutation ?gene key ?w0] =>
          destruct (mutate_quantitative key g gene w0 Hk)
            as [n [w3 [-> Hn]]]
      end.
      exists (doubled n), w3. split; [reflexivity|]. exists n. auto.
    + eexists. eexists. split; [reflexivity|]. cbn [bred].
      eexists. split; [|reflexivity].
      apply (clamp_candidate g), (registry_ranges key g Hk).
Qed.

Lemma cross_genes_values genesA genesB traits : forall og w,
  (forall e, In e traits -> In e GENE_TRAITS) ->
  (forall e, In e traits ->
     Val.truthy (gene_at genesA (fst e)) = true
     /\ Val.truthy (gene_at genesB (fst e)) = true) ->
  exists vs w',
    cross_genes genesA genesB traits og w
    = (Returned (fold_left (fun o kv => Obj.set o (fst kv) (snd kv))
                           (combine (map fst traits) vs) og), w')
    /\ Forall2 (fun e v => bred (snd e) (gene_at genesA (fst e))
                                (gene_at genesB (fst e)) v)
               traits vs.
Proof.
  induction traits as [|[key t] traits IH]; intros og w Hin Ht.
  - exists [], w. split; [reflexivity | constructor].
  - cbn [cross_genes]. unfold bind.
    assert (Hk : Obj.get GENE_TRAITS key = Some t).
    { apply In_get; [apply registry_keys_NoDup|]. apply Hin. now left. }
    destruct (Ht (key, t) ltac:(now left)) as [Ha Hb]. cbn [fst] in Ha, Hb.
    destruct (cross_gene_bred key t genesA genesB w Hk Ha Hb)
      as [v [w1 [-> Hv]]].
    destruct (IH (Obj.set og key v) w1) as [vs [w2 [-> Hvs]]].
    { intros e He. apply Hin. now right. }
    { intros e He. apply Ht. now right. }
    exists (v :: vs), w2. split; [reflexivity|].
    constructor; assumption.
Qed.

Section Registry_values.

Variable R : string * Trait -> Value -> Prop.

Lemma Forall2_get (l : list (string * Trait)) vs :
  Forall2 R l vs -> NoDup (map fst l) ->
  forall k t, In (k, t) l ->
    exists v, In (k, v) (combine (map fst l) vs) /\ R (k, t) v.
Proof.
  induction 1 as [|[k0 t0] v0 l vs Hr Hf IH]; intros ND k t Hin;
    [destruct Hin|].
  cbn [map fst combine]. inversion ND; subst.
  destruct Hin as [E|Hin].
  - inversion E; subst. exists v0. split; [now left | exact Hr].
  - destruct (IH H2 k t Hin) as [v [Iv Rv]]. exists v.
    split; [now right | exact Rv].
Qed.

Lemma Forall2_snd (P : Trait -> Value -> Prop) (l : list (string * Trait)) vs :
  (forall e v, In e l -> R e v -> P (snd e) v) ->
  Forall2 R l vs -> Forall2 P (map snd l) vs.
Proof.
  intros HP H. induction H as [|e v l vs Hr Hf IH]; [constructor|].
  cbn [map]. constructor.
  - apply HP; [now left | exact Hr].
  - apply IH. intros e' v' He'. apply HP. now right.
Qed.

Lemma Forall2_texts (l : list (string * Trait)) vs :
  (forall e v, In e l -> R e v -> exists s, v = VStr s) ->
  Forall2 R l vs ->
  stringify (combine (map fst l) vs) = combine (map fst l) vs.
Proof.
  intros HP H. induction H as [|e v l vs Hr Hf IH]; [reflexivity|].
  cbn [map combine stringify fst snd].
  destruct (HP e v ltac:(now left) Hr) as [s ->].
  cbn [Val.toString]. f_equal.
  apply IH. intros e' v' He'. apply HP. now right.
Qed.

End Registry_values.

Lemma clean_app a b : clean (a ++ b) = (clean a && clean b)%bool.
Proof.
  unfold clean. rewrite !mentions_app.
  destruct (mentions ":" a), (mentions ":" b), (mentions "-" a),
    (mentions "-" b); reflexivity.
Qed.

Lemma clean_char s x :
  clean s = true -> In x (chars_of (VStr s)) ->
  exists c, x = Js.str1 c /\ clean x = true.
Proof.
  induction s as [|a s IH]; intros Hc Hin; [destruct Hin|].
  change (String a s) with (Js.str1 a ++ s)%string in Hc.
  rewrite clean_app in Hc. apply andb_true_iff in Hc. destruct Hc as [H1 H2].
  destruct Hin as [<- | Hin]; [eauto | exact (IH H2 Hin)].
Qed.

Lemma allele_single key g parent x :
  Obj.get GENE_TRAITS key = Some (qualitative g) ->
  clean (Val.toString parent) = true ->
  allele_from g parent x ->
  exists c, x = Js.str1 c /\ clean x = true.
Proof.
  intros Hk Hc [Hx | Hx].
  - destruct parent as [|s|n]; try destruct Hx.
    eapply clean_char; eauto.
  - eapply allele_key_single; eauto.
Qed.

Lemma bred_plain key t a b v :
  Obj.get GENE_TRAITS key = Some t ->
  clean (Val.toString a) = true -> clean (Val.toString b) = true ->
  bred t a b v ->
  plain t v /\ exists s, v = VStr s.
Proof.
  intros Hk Ha Hb Hv. destruct t as [g|g]; cbn [bred] in Hv.
  - destruct Hv as [x [y [-> [Hx Hy]]]].
    destruct (allele_single key g a x Hk Ha Hx) as [cx [-> Cx]].
    destruct (allele_single key g b y Hk Hb Hy) as [cy [-> Cy]].
    split; [|eauto]. left. eexists. split; [reflexivity|].
    split; [|discriminate]. rewrite clean_app, Cx, Cy. reflexivity.
  - destruct Hv as [n [Hn ->]].
    split; [|unfold doubled; eauto].
    apply (candidate_facts key g n Hk Hn).
Qed.

(** The genes a constructed plant holds for the registered traits. *)
Lemma constructed_genes p key t :
  constructed p -> Obj.get GENE_TRAITS key = Some t ->
  Val.truthy (gene_at (genes p) key) = true
  /\ clean (Val.toString (gene_at (genes p) key)) = true.
Proof.
  intros [sequence [Hg _]] Hk. rewrite Hg.
  pose proof (parseGeneSequence_registered sequence key t Hk) as Ht.
  split; [exact Ht|].
  destruct (parsed_well_formed sequence) as [_ [_ [Hs _]]].
  unfold gene_at in *.
  destruct (Obj.get (parseGeneSequence sequence) key) as [v|] eqn:E;
    [|discriminate].
  apply get_In in E. rewrite Forall_forall in Hs.
  exact (proj1 (proj2 (Hs _ E))).
Qed.

(** X15.  The offspring of two constructed plants.  [crossPlants] never
    raises and returns a constructed plant with exactly the registry keys,
    in registry order.  A qualitative gene of the offspring is two
    alleles, the first a character of the first parent's gene and the
    second a character of the second parent's gene, each possibly replaced
    by an allele key of the trait; a quantitative gene is a number of the
    trait's range printed twice, which for every trait but the Growth Rate
    is the same digit twice.  The growth rate of the offspring is always
    1, whatever the parents and the draws. *)
Theorem offspring_of_constructed b pA pB w :
  constructed pA -> constructed pB ->
  exists child r w',
    crossPlants b (Some pA) (Some pB) w
    = (Returned (Some child), mkPlantBreeder (crossingHistory b ++ [r]), w')
    /\ constructed child
    /\ Obj.keys (genes child) = Obj.keys GENE_TRAITS
    /\ (forall key t,
          Obj.get GENE_TRAITS key = Some t ->
          bred t (gene_at (genes pA) key) (gene_at (genes pB) key)
                 (gene_at (genes child) key))
    /\ (forall key g,
          Obj.get GENE_TRAITS key = Some (quantitative g) -> key <> "GR" ->
          entry_conforms (key, gene_at (genes child) key) = true)
    /\ exists v,
         field (Obj.get (phenotype child) "GR") "value" = Some (Js.Fin v)
         /\ (v == 1)%Q.
Proof.
  intros HA HB. unfold crossPlants, bind.
  destruct (cross_genes_values (genes pA) (genes pB) GENE_TRAITS [] w
              ltac:(auto)) as [vs [w1 [-> Hvs]]].
  { intros [key t] He. cbn [fst].
    assert (Hk : Obj.get GENE_TRAITS key = Some t)
      by (apply In_get; [apply registry_keys_NoDup | exact He]).
    split; [apply (constructed_genes pA key t HA Hk)
           | apply (constructed_genes pB key t HB Hk)]. }
  rewrite set_registry_values.
  assert (Hbp : forall e v, In e GENE_TRAITS ->
            bred (snd e) (gene_at (genes pA) (fst e))
                 (gene_at (genes pB) (fst e)) v ->
            plain (snd e) v /\ exists s, v = VStr s).
  { intros [key t] v He Hv. cbn [fst snd] in *.
    assert (Hk : Obj.get GENE_TRAITS key = Some t)
      by (apply In_get; [apply registry_keys_NoDup | exact He]).
    refine (bred_plain key t _ _ v Hk _ _ Hv).
    - apply (constructed_genes pA key t HA Hk).
    - apply (constructed_genes pB key t HB Hk). }
  assert (Hp : Forall2 plain (map snd GENE_TRAITS) vs).
  { eapply Forall2_snd; [|exact Hvs]. intros e v He Hv.
    apply (Hbp e v He Hv). }
  assert (Hs : stringify (genotype_of vs) = genotype_of vs).
  { unfold genotype_of. eapply Forall2_texts; [|exact Hvs].
    intros e v He Hv. apply (Hbp e v He Hv). }
  pose proof (built_well_formed vs Hp) as W.
  assert (ND : NoDup (Obj.keys (genotype_of vs))) by apply W.
  destruct (plant_of_well_formed _ W)
    as [child [Hnew [Hgen [Hph [Hcon _]]]]].
  rewrite Hs in Hgen. rewrite Hnew. unfold new_Date, ret.
  eexists. eexists. eexists. split; [reflexivity|].
  split; [exact Hcon|]. rewrite Hgen.
  split; [exact (built_keys _ vs Hp)|].
  assert (Hget : forall key t, Obj.get GENE_TRAITS key = Some t ->
            In (key, gene_at (genotype_of vs) key) (genotype_of vs)
            /\ bred t (gene_at (genes pA) key) (gene_at (genes pB) key)
                    (gene_at (genotype_of vs) key)).
  { intros key t Hk.
    destruct (Forall2_get _ GENE_TRAITS vs Hvs registry_keys_NoDup key t
                (get_In _ _ _ Hk)) as [v [Iv Rv]].
    cbn [fst snd] in Rv. fold (genotype_of vs) in Iv.
    assert (E : gene_at (genotype_of vs) key = v)
      by (unfold gene_at; now rewrite (In_get _ _ _ ND Iv)).
    rewrite E. auto. }
  split; [intros key t Hk; apply (Hget key t Hk)|].
  split.
  - intros key g Hk Hne. destruct (Hget key _ Hk) as [_ [n [Hn ->]]].
    rewrite (entry_conforms_registered key _ _ Hk).
    apply (candidate_facts key g n Hk Hn), Hne.
  - destruct (Hget "GR" _ eq_refl) as [Iv [n [Hn Hv]]].
    rewrite (resolved_value_of _ _ "GR" Traits.GR _ Hph eq_refl ND Iv).
    pose proof (proj2 (proj2 (candidate_facts "GR" Traits.GR n eq_refl Hn))
                  eq_refl) as Hg.
    rewrite Hv. unfold growth_one in Hg.
    destruct (numeric_value Traits.GR (doubled n)) as [|q]; [discriminate|].
    exists q. split; [reflexivity|]. now apply Qeq_bool_iff.
Qed.

Lemma offspring_of_constructed_witness :
  let pA := plant_of_sequence "FC:RY-SZ:22-LS:33-BP:11-GR:12-YD:44-RS:22-WN:22" in
  let pB := plant_of_sequence "FC:ZZ-SZ:5" in
  exists child r w',
    crossPlants new_PlantBreeder (Some pA) (Some pB) still_world
    = (Returned (Some child),
       mkPlantBreeder (crossingHistory new_PlantBreeder ++ [r]), w')
    /\ constructed child
    /\ Obj.keys (genes child) = Obj.keys GENE_TRAITS
    /\ (forall key t,
          Obj.get GENE_TRAITS key = Some t ->
          bred t (gene_at (genes pA) key) (gene_at (genes pB) key)
                 (gene_at (genes child) key))
    /\ (forall key g,
          Obj.get GENE_TRAITS key = Some (quantitative g) -> key <> "GR" ->
          entry_conforms (key, gene_at (genes child) key) = true)
    /\ exists v,
         field (Obj.get (phenotype child) "GR") "value" = Some (Js.Fin v)
         /\ (v == 1)%Q.
Proof.
  intros pA pB.
  apply (offspring_of_constructed new_PlantBreeder pA pB still_world).
  - exists "FC:RY-SZ:22-LS:33-BP:11-GR:12-YD:44-RS:22-WN:22".
    split; vm_compute; reflexivity.
  - exists "FC:ZZ-SZ:5". split; vm_compute; reflexivity.
Defined.

(** X16.  [mutateMutation].  For a quantitative trait it returns a number
    of the trait's range printed twice, whatever the gene it is given
    (a text that is not a number and [undefined] included), and draws
    once.  For a qualitative trait and a gene of two characters it keeps
    one character, replaces the other by an allele key of the trait, and
    draws twice.  For a key that is not an own key of the registry (an
    inherited name such as [constructor] included) it returns the gene as
    it is and draws nothing. *)
Theorem mutation_outcome key w :
  (forall g gene,
     Obj.get GENE_TRAITS key = Some (quantitative g) ->
     exists q w',
       mutateMutation gene key w = (Returned (doubled (Js.Fin q)), w')
       /\ (Gene.min g <= q <= Gene.max g)%Q
       /\ cursor w' = S (cursor w))
  /\ (forall g cx cy,
        Obj.get GENE_TRAITS key = Some (qualitative g) ->
        exists k v w',
          mutateMutation (VStr (Js.str1 cx ++ Js.str1 cy)) key w
          = (Returned v, w')
          /\ In k (Obj.keys (Gene.alleles g))
          /\ (v = VStr (k ++ Js.str1 cy) \/ v = VStr (Js.str1 cx ++ k))
          /\ cursor w' = S (S (cursor w)))
  /\ (forall gene,
        Obj.get GENE_TRAITS key = None ->
        mutateMutation gene key w = (Returned gene, w)).
Proof.
  split; [|split].
  - intros g gene Hk. unfold mutateMutation.
    rewrite (proj2 (lookup_own key _) Hk).
    destruct (or_default_Fin (diploid_mean gene) (Gene.quant_default g))
      as [q ->].
    unfold bind, random, ret.
    pose proof (registry_ranges key g Hk) as Hr.
    destruct (Js.lt _ _); cbn [Js.add Js.lift2 Js.of_Z Js.round];
      unfold clamp;
      match goal with
      | |- context [Js.min _ (Js.Fin ?x)] =>
          destruct (clamp_range (Gene.min g) (Gene.max g) x Hr)
            as [c [-> [H1 [H2 _]]]]
      end;
      exists c; eexists; (split; [reflexivity|]); cbn [cursor]; auto.
  - intros g cx cy Hk. unfold mutateMutation.
    rewrite (proj2 (lookup_own key _) Hk).
    assert (Hne : Obj.keys (Gene.alleles g) <> [])
      by (each_trait Hk ltac:(idtac; cbn; discriminate)).
    assert (E : Nat.eqb (List.length (Obj.keys (Gene.alleles g))) 0 = false).
    { destruct (Obj.keys (Gene.alleles g)); [congruence | reflexivity]. }
    rewrite E. cbn [length_of]. unfold bind, random, ret.
    match goal with
    | |- context [array_at _ (Js.floor (Js.mul (Js.Fin (draw_value ?d)) _))] =>
        destruct (pick_in _ _ Hne (draw_range d)) as [k [-> Ik]]
    end.
    exists k.
    match goal with
    | |- context [if ?c then _ else _] => destruct c
    end; eexists; eexists; (split; [reflexivity|]); (split; [exact Ik|]);
      (split; [|reflexivity]); [left | right]; reflexivity.
  - intros gene Hk. unfold mutateMutation, lookup_trait. rewrite Hk.
    destruct (inherited key); reflexivity.
Qed.

Lemma mutation_outcome_witness :
  exists q w',
    mutateMutation (VStr "zz") "YD" still_world
    = (Returned (doubled (Js.Fin q)), w')
    /\ (Gene.min Traits.YD <= q <= Gene.max Traits.YD)%Q
    /\ cursor w' = S (cursor still_world).
Proof.
  apply (proj1 (mutation_outcome "YD" still_world) Traits.YD (VStr "zz")).
  reflexivity.
Defined.

(** ** The flower colours a sequence can give *)

(** The sorted pair of two characters is in code-unit order. *)
Lemma sorted_pair_ordered a b x y :
  sorted_pair a b = String x (String y "") ->
  (nat_of_ascii x <= nat_of_ascii y)%nat.
Proof.
  unfold sorted_pair. destruct a as [a|], b as [b|]; try discriminate.
  destruct (nat_of_ascii b <? nat_of_ascii a)%nat eqn:E;
    intros H; inversion H; subst.
  - apply Nat.ltb_lt in E. lia.
  - apply Nat.ltb_ge in E. exact E.
Qed.

Lemma flower_colour_resolved value a :
  resolve_qualitative Traits.FC value = Some (PhAllele a) ->
  In (allele_name a)
     ["Red"; "Blue"; "Yellow"; "White"; "Pink"; "Orange"; "Green";
      "Light Red"; "Light Blue"; "Purple"].
Proof.
  assert (Ha : forall k x, Obj.get (Gene.alleles Traits.FC) k = Some x ->
                In (allele_name x)
                   ["Red"; "Blue"; "Yellow"; "White"; "Pink"; "Orange";
                    "Green"; "Light Red"; "Light Blue"; "Purple"]).
  { intros k x E. apply get_In in E. cbn in E.
    repeat (destruct E as [E|E]; [inversion E; subst; cbn; tauto|]).
    destruct E. }
  assert (Hp : forall k,
             pheno_of (Obj.get (Gene.alleles Traits.FC) k) = PhAllele a ->
             In (allele_name a)
                ["Red"; "Blue"; "Yellow"; "White"; "Pink"; "Orange";
                 "Green"; "Light Red"; "Light Blue"; "Purple"]).
  { intros k E.
    destruct (Obj.get (Gene.alleles Traits.FC) k) as [x|] eqn:G;
      [|discriminate].
    inversion E; subst. eapply Ha; eauto. }
  assert (H : forall v0 v1 : option ascii,
             (if char_eqb v0 v1
              then Some (pheno_of (Obj.get (Gene.alleles Traits.FC)
                                           (key_of_char v0)))
              else
               match
                 match Gene.blendMap Traits.FC with
                 | Some bm => Obj.get bm (sorted_pair v0 v1)
                 | None => None
                 end
               with
               | Some b => Some (PhAllele b)
               | None =>
                   match Obj.get (Gene.alleles Traits.FC) (key_of_char v0),
                         Obj.get (Gene.alleles Traits.FC) (key_of_char v1) with
                   | Some allele1, Some allele2 =>
                       if dominance_gt allele1 allele2
                       then Some (PhAllele allele1)
                       else if dominance_gt allele2 allele1
                            then Some (PhAllele allele2)
                            else Some (PhAllele allele1)
                   | _, _ =>
                       Some (pheno_of (first_allele (Gene.alleles Traits.FC)))
                   end
               end) = Some (PhAllele a) ->
             In (allele_name a)
                ["Red"; "Blue"; "Yellow"; "White"; "Pink"; "Orange";
                 "Green"; "Light Red"; "Light Blue"; "Purple"]).
  { intros v0 v1. destruct (char_eqb v0 v1).
    - intros E. apply (Hp (key_of_char v0)). congruence.
    - cbn [Gene.blendMap Traits.FC].
      match goal with
      | |- context [Obj.get ?bm (sorted_pair v0 v1)] =>
          destruct (Obj.get bm (sorted_pair v0 v1)) as [b|] eqn:E
      end.
      + intros E'. inversion E'; subst b. apply get_In in E. cbn in E.
        repeat (destruct E as [E|E];
                [inversion E as [[E1 E2]]; subst a; symmetry in E1;
                 first [ cbn; tauto
                       | apply sorted_pair_ordered in E1;
                         vm_compute in E1; lia ]|]).
        destruct E.
      + destruct (Obj.get (Gene.alleles Traits.FC) (key_of_char v0))
          as [x|] eqn:E0;
          destruct (Obj.get (Gene.alleles Traits.FC) (key_of_char v1))
            as [y|] eqn:E1;
          try (intros E'; inversion E'; subst a; cbn; tauto).
        destruct (dominance_gt x y); [|destruct (dominance_gt y x)];
          intros E'; inversion E'; subst; eauto. }
  unfold resolve_qualitative.
  destruct value; [discriminate | apply H | apply H].
Qed.

(** X17.  Three colours of the blend table never appear.  The flower
    colour of a constructed plant is one of Red, Blue, Yellow, White,
    Pink, Orange, Green, Light Red, Light Blue and Purple, and never Light
    Yellow, Deep Pink or Peach: the blend table is looked up under the
    two alleles in code-unit order, which never spells the keys [YW],
    [RP] and [YP] (nor [RB]; Purple is reached under [BP]). *)
Theorem unreachable_colours p a :
  constructed p ->
  Obj.get (phenotype p) "FC" = Some (PhAllele a) ->
  In (allele_name a)
     ["Red"; "Blue"; "Yellow"; "White"; "Pink"; "Orange"; "Green";
      "Light Red"; "Light Blue"; "Purple"].
Proof.
  intros [sequence [Hg Hph]] Hfc. rewrite Hg in Hph.
  unfold calculatePhenotype in Hph.
  destruct (fold_left resolve_gene (parseGeneSequence sequence) (Some []))
    as [ph0|] eqn:Hfold; [|discriminate].
  inversion Hph as [Hp]; clear Hph. rewrite <- Hp in Hfc.
  rewrite get_interactions in Hfc by discriminate.
  destruct (resolve_fold_qual _ _ _ "FC" Traits.FC Hfold eq_refl)
    as [[value [x [_ [R G]]]]|[N _]].
  - rewrite G in Hfc. inversion Hfc; subst x.
    exact (flower_colour_resolved value a R).
  - exfalso. apply N. eapply parsed_has_registered; reflexivity.
Qed.

Lemma unreachable_colours_witness :
  let p := plant_of_sequence "FC:YW" in
  Obj.get (phenotype p) "FC" = Some (PhAllele (allele "Yellow" 2 "#FFFF55"))
  /\ In "Yellow"
        ["Red"; "Blue"; "Yellow"; "White"; "Pink"; "Orange"; "Green";
         "Light Red"; "Light Blue"; "Purple"].
Proof.
  intros p.
  assert (H : Obj.get (phenotype p) "FC"
              = Some (PhAllele (allele "Yellow" 2 "#FFFF55")))
    by (vm_compute; reflexivity).
  split; [exact H|].
  apply (unreachable_colours p (allele "Yellow" 2 "#FFFF55")); [|exact H].
  exists "FC:YW". split; vm_compute; reflexivity.
Defined.

(** ** Growth and health *)

Lemma pest_step_health ph pestPresent g h1 h2 w :
  exists g' k1 k2 w',
    pest_step ph pestPresent (g, h1) w = ((g', k1), w')
    /\ pest_step ph pestPresent (g, h2) w = ((g', k2), w').
Proof.
  unfold pest_step. destruct pestPresent; [|unfold ret; eauto 10].
  unfold bind, random, ret. destruct (Js.lt _ _); eauto 10.
Qed.

Lemma weather_step_health ph weatherEvent g h1 h2 w :
  exists g' k1 k2 w',
    weather_step ph weatherEvent (g, h1) w = ((g', k1), w')
    /\ weather_step ph weatherEvent (g, h2) w = ((g', k2), w').
Proof.
  unfold weather_step.
  destruct (truthy_string weatherEvent); [|unfold ret; eauto 10].
  destruct (is_event weatherEvent "drought");
    [|destruct (is_event weatherEvent "storm")];
    unfold bind, random, ret;
    try match goal with
        | |- context [if ?c then _ else _] => destruct c
        end; eauto 10.
Qed.

(** X18.  Growth does not depend on health.  Two plants that differ only
    in their health make the same progress in one update under the same
    arguments and draws, end with the same ready and watered flags and
    leave the random source in the same state: [update] never reads the
    health to decide growth (only the event and the health after the call
    depend on it), so a plant whose health has fallen to 0 keeps
    growing. *)
Theorem growth_ignores_health p h wl pest we w :
  let r1 := update p wl pest we w in
  let r2 := update (with_health p h) wl pest we w in
  progress (snd (fst r1)) = progress (snd (fst r2))
  /\ ready (snd (fst r1)) = ready (snd (fst r2))
  /\ watered (snd (fst r1)) = watered (snd (fst r2))
  /\ snd r1 = snd r2.
Proof.
  unfold update. cbn [with_health genes phenotype progress health ready watered].
  destruct (ready p); [cbn; auto|].
  repeat match goal with
         | |- context [if Js.lt ?a ?b then _ else _] => destruct (Js.lt a b)
         end.
  all: unfold bind.
  all: match goal with
       | |- context [pest_step ?ph ?pp (?g, ?h1) ?w0] =>
           match goal with
           | |- context [pest_step ph pp (g, ?h2) w0] =>
               tryif constr_eq h1 h2 then fail
               else destruct (pest_step_health ph pp g h1 h2 w0)
                      as [g1 [k1 [k2 [w1 [-> ->]]]]]
           end
       end.
  all: destruct (weather_step_health (phenotype p) we g1 k1 k2 w1)
         as [g2 [j1 [j2 [w2 [-> ->]]]]].
  all: repeat match goal with
              | |- context [if ?c then _ else _] => destruct c
              end; cbn; auto.
Qed.
